(** * Ready Set Roll 5e: quick-roll card builder and roll patching

    A shallow embedding of the two modules of the add-on,
    - [src/utils/patching.js]: the patch registrar and the wrapper dispatch
      of actor rolls and item uses, and
    - the [QuickRoll] class: construction, [_render] and [_getFlags],
    together with the properties of their specification.

    JavaScript values are modelled with an explicit heap: objects and
    arrays live at locations, a value holds a reference, and assignment to a
    property updates the heap in place, so that aliasing between a field and
    its copy is visible.  Calls to collaborators (the roll utilities, the
    renderer, the hooks, the wrapped host method) are nodes of a program
    tree; running a program against a handler yields the result together
    with the trace of the calls made and of their answers. *)

From Stdlib Require Import ZArith List Bool Lia.
From stdpp Require Import base option list gmap strings pretty.

(* ================================================================== *)
(** ** JavaScript values and the heap *)
(* ================================================================== *)

Module JS.

Abbreviation loc := nat.

(** Numbers are the integer-valued ones ([NaN] and fractions do not occur in
    the code under study); functions and class instances are objects. *)
Inductive value : Type :=
| VUndefined
| VNull
| VBool (b : bool)
| VNumber (n : Z)
| VString (s : string)
| VRef (l : loc).

Inductive object : Type :=
| OArray (elems : list value)
| OPlain (props : gmap string value).

Abbreviation heap := (list object).

(** [ToBoolean]. *)
Definition truthy (v : value) : bool :=
  match v with
  | VUndefined | VNull => false
  | VBool b => b
  | VNumber n => negb (n =? 0)%Z
  | VString s => negb (String.eqb s "")
  | VRef _ => true
  end.

Definition nullish (v : value) : bool :=
  match v with
  | VUndefined | VNull => true
  | _ => false
  end.

(** [a ?? b], [a || b] and [!a]; the right operand of the two binary
    operators is a value already evaluated, which is enough wherever it is
    a literal or a plain property read. *)
Definition coalesce (a b : value) : value := if nullish a then b else a.
Definition js_or (a b : value) : value := if truthy a then a else b.
Definition js_not (a : value) : value := VBool (negb (truthy a)).

(** [a === false]. *)
Definition is_false (v : value) : bool :=
  match v with
  | VBool false => true
  | _ => false
  end.

Definition alloc (h : heap) (o : object) : heap * value :=
  (h ++ [o], VRef (length h)).

(** The own enumerable properties of an object; an array has its indices. *)
Definition own_props (o : object) : gmap string value :=
  match o with
  | OPlain m => m
  | OArray es => list_to_map (imap (fun i v => (pretty i, v)) es)
  end.

Definition one_char (s : string) (i : nat) : value :=
  match String.get i s with
  | Some c => VString (String c "")
  | None => VUndefined
  end.

(** [v.k] for a property name that is neither an index nor inherited: a
    [TypeError] ([None]) on [undefined] and [null], [undefined] on a
    primitive or a missing key. *)
Definition get (h : heap) (v : value) (k : string) : option value :=
  match v with
  | VUndefined | VNull => None
  | VRef l =>
      match h !! l with
      | Some (OPlain m) => Some (default VUndefined (m !! k))
      | _ => Some VUndefined
      end
  | _ => Some VUndefined
  end.

(** [v?.k]. *)
Definition get_opt (h : heap) (v : value) (k : string) : value :=
  default VUndefined (get h v k).

(** [v[i]] for a numeric index. *)
Definition get_index (h : heap) (v : value) (i : nat) : option value :=
  match v with
  | VUndefined | VNull => None
  | VString s => Some (one_char s i)
  | VRef l =>
      match h !! l with
      | Some (OArray es) => Some (default VUndefined (es !! i))
      | Some (OPlain m) => Some (default VUndefined (m !! pretty i))
      | None => Some VUndefined
      end
  | _ => Some VUndefined
  end.

(** [k in v]: a [TypeError] unless [v] is an object. *)
Definition has_in (h : heap) (k : string) (v : value) : option bool :=
  match v with
  | VRef l =>
      match h !! l with
      | Some (OPlain m) => Some (bool_decide (is_Some (m !! k)))
      | Some (OArray _) => Some false
      | None => None
      end
  | _ => None
  end.

(** [v.k = x] on a plain object; [None] when [v] is not one. *)
Definition set_prop (h : heap) (v : value) (k : string) (x : value) : option heap :=
  match v with
  | VRef l =>
      match h !! l with
      | Some (OPlain m) => Some (<[l := OPlain (<[k := x]> m)]> h)
      | _ => None
      end
  | _ => None
  end.

(** The values an iterable yields to [for ... of]: the elements of an
    array, the characters of a string; anything else is not iterable. *)
Definition iterate (h : heap) (v : value) : option (list value) :=
  match v with
  | VRef l =>
      match h !! l with
      | Some (OArray es) => Some es
      | _ => None
      end
  | VString s => Some (imap (fun i _ => one_char s i) (String.list_ascii_of_string s))
  | _ => None
  end.

Definition is_plain (h : heap) (v : value) : bool :=
  match v with
  | VRef l => match h !! l with Some (OPlain _) => true | _ => false end
  | _ => false
  end.

End JS.

Import JS.

(* ================================================================== *)
(** ** Programs that call collaborators *)
(* ================================================================== *)

(** A program either returns, throws, or calls a collaborator [e] and goes
    on with its answer.  [E X] is the type of calls answered in [X]. *)
Inductive prog (E : Type -> Type) (R : Type) : Type :=
| Ret (r : R)
| Throw
| Vis {X : Type} (e : E X) (k : X -> prog E R).

Arguments Ret {E R} r.
Arguments Throw {E R}.
Arguments Vis {E R X} e k.

Fixpoint bind {E R S} (p : prog E R) (f : R -> prog E S) : prog E S :=
  match p with
  | Ret r => f r
  | Throw => Throw
  | Vis e k => Vis e (fun x => bind (k x) f)
  end.

Definition invoke {E X} (e : E X) : prog E X := Vis e Ret.

Notation "'do' x <- p ; q" := (bind p (fun x => q))
  (at level 10, x name, p at level 100, q at level 200).
Notation "'do' ' pat <- p ; q" := (bind p (fun x => match x with pat => q end))
  (at level 10, pat pattern, p at level 100, q at level 200).

(** One collaborator call of a run, with the answer it got. *)
Inductive event (E : Type -> Type) : Type :=
| Ev {X : Type} (e : E X) (x : X).

Arguments Ev {E X} e x.

(** The collaborators as one state machine over a world [W] of their own. *)
Definition handler (E : Type -> Type) (W : Type) : Type :=
  forall X, E X -> W -> X * W.

(** Running a program: its result ([None] when it throws), the final world
    of the collaborators and the trace of calls in the order made. *)
Fixpoint run {E R W} (hd : handler E W) (p : prog E R) (w : W)
  : option R * W * list (event E) :=
  match p with
  | Ret r => (Some r, w, [])
  | Throw => (None, w, [])
  | Vis e k =>
      let '(x, w1) := hd _ e w in
      let '(r, w2, tr) := run hd (k x) w1 in
      (r, w2, Ev e x :: tr)
  end.

(* ================================================================== *)
(** ** Host utilities on the heap *)
(* ================================================================== *)

Module Host.

(** Threading the heap through the elements of an array. *)
Fixpoint clone_list (rec : heap -> value -> option (heap * value))
    (h : heap) (vs : list value) : option (heap * list value) :=
  match vs with
  | [] => Some (h, [])
  | v :: vs' =>
      match rec h v with
      | Some (h1, v1) =>
          match clone_list rec h1 vs' with
          | Some (h2, vs1) => Some (h2, v1 :: vs1)
          | None => None
          end
      | None => None
      end
  end.

(** The same through the entries of a plain object, keys kept. *)
Definition clone_props (rec : heap -> value -> option (heap * value))
    (h : heap) (ps : list (string * value)) : option (heap * list (string * value)) :=
  match clone_list rec h ps.*2 with
  | Some (h1, vs) => Some (h1, zip ps.*1 vs)
  | None => None
  end.

(** Modelled from the spec: the host's [deepClone] (a global of the host
    application, outside the sources) "deep-copies each field": a primitive
    is returned as it is, an array and a plain object are rebuilt at a fresh
    location from the copies of their members.  The recursion follows the
    references of the heap, so it is bounded by [fuel]; it runs out ([None])
    on a structure nested deeper than that, a cyclic one in particular. *)
Fixpoint deepClone (fuel : nat) (h : heap) (v : value) : option (heap * value) :=
  match v with
  | VRef l =>
      match fuel with
      | O => None
      | S fuel' =>
          match h !! l with
          | Some (OArray es) =>
              match clone_list (deepClone fuel') h es with
              | Some (h1, es1) => Some (alloc h1 (OArray es1))
              | None => None
              end
          | Some (OPlain m) =>
              match clone_props (deepClone fuel') h (map_to_list m) with
              | Some (h1, ps1) => Some (alloc h1 (OPlain (list_to_map ps1)))
              | None => None
              end
          | None => None
          end
      end
  | _ => Some (h, v)
  end.

(** Modelled from the spec: the host's [foundry.utils.duplicate], the copy
    the constructor takes of the default parameters.  On data made of
    strings, booleans, [null], numbers, arrays and plain objects without
    [undefined] members (the default parameters are such) it is the deep
    copy. *)
Definition duplicate := deepClone.

(** One key of [other] merged into the plain object at [original]. *)
Definition merge_step (rec : heap -> value -> value -> option heap) (recursive : bool)
    (original : value) (oh : option heap) (kv : string * value) : option heap :=
  match oh with
  | None => None
  | Some h =>
      let '(k, v) := kv in
      match get h original k with
      | Some x =>
          if recursive && is_plain h x && is_plain h v
          then rec h x v
          else set_prop h original k v
      | None => None
      end
  end.

(** Modelled from the spec: the host's [foundry.utils.mergeObject], which
    merges the keys of [other] into [original] in place and returns
    [original]: a key of [other] overrides the one of [original], except
    that with [recursive] two plain objects under the same key are merged in
    turn; without [recursive] only the top-level keys are considered.  A
    falsy [other] counts as an empty object; the merge throws ([None]) unless
    [original] is a plain object and [other] an object. *)
Fixpoint mergeObject (fuel : nat) (recursive : bool) (h : heap)
    (original other : value) : option heap :=
  match fuel with
  | O => None
  | S fuel' =>
      if negb (is_plain h original) then None
      else if negb (truthy other) then Some h
      else
        match other with
        | VRef lo =>
            match h !! lo with
            | Some o =>
                foldl (merge_step (mergeObject fuel' recursive) recursive original)
                      (Some h) (map_to_list (own_props o))
            | None => None
            end
        | _ => None
        end
  end.

End Host.

(* ================================================================== *)
(** ** [src/utils/patching.js] *)
(* ================================================================== *)

Module Patching.

(** The members of [SETTING_NAMES] the registrar reads. *)
Inductive setting_name : Type :=
| QUICK_SKILL_ENABLED
| QUICK_ABILITY_ENABLED
| QUICK_ITEM_ENABLED.

(** The last argument of [libWrapper.register]. *)
Inductive wrapper_type : Type := MIXED | OVERRIDE.

(** The patch functions of the module, as the registrar names them. *)
Inductive patch_function : Type :=
| fn_actorRollSkill
| fn_actorRollAbilityTest
| fn_actorRollAbilitySave
| fn_itemUse
| fn_onChangeTab.

(** One entry of the host's wrapper registry. *)
Record registration : Type := Registration {
  reg_module : string;
  reg_target : string;
  reg_fn : patch_function;
  reg_type : wrapper_type;
}.

Definition registry := list registration.

Definition libWrapper_register (r : registry) (module target : string)
    (fn : patch_function) (type : wrapper_type) : registry :=
  r ++ [Registration module target fn type].

Section Registrar.

(** [MODULE_NAME] of [module/const.js] and the settings store behind
    [SettingsUtility.getSettingValue]. *)
Variable MODULE_NAME : string.
Variable getSettingValue : setting_name -> value.

Definition actorPrototype : string := "CONFIG.Actor.documentClass.prototype".
Definition itemPrototype : string := "CONFIG.Item.documentClass.prototype".
Definition itemSheetPrototype : string := "ItemSheet.prototype".

(** The three static methods of [PatchingUtility]; their log lines are left
    out. *)
Definition patchActors (r : registry) : registry :=
  let r :=
    if truthy (getSettingValue QUICK_SKILL_ENABLED)
    then libWrapper_register r MODULE_NAME (actorPrototype +:+ ".rollSkill")
           fn_actorRollSkill MIXED
    else r in
  if truthy (getSettingValue QUICK_ABILITY_ENABLED)
  then
    let r := libWrapper_register r MODULE_NAME (actorPrototype +:+ ".rollAbilityTest")
               fn_actorRollAbilityTest MIXED in
    libWrapper_register r MODULE_NAME (actorPrototype +:+ ".rollAbilitySave")
      fn_actorRollAbilitySave MIXED
  else r.

Definition patchItems (r : registry) : registry :=
  if truthy (getSettingValue QUICK_ITEM_ENABLED)
  then libWrapper_register r MODULE_NAME (itemPrototype +:+ ".use") fn_itemUse MIXED
  else r.

Definition patchItemSheets (r : registry) : registry :=
  if truthy (getSettingValue QUICK_ITEM_ENABLED)
  then libWrapper_register r MODULE_NAME (itemSheetPrototype +:+ "._onChangeTab")
         fn_onChangeTab OVERRIDE
  else r.

End Registrar.

(** The host methods the registrar knows, the path each is registered
    under, the static method that patches it and the setting that the
    specification pairs it with. *)
Inductive host_method : Type :=
| RollSkillMethod
| RollAbilityTestMethod
| RollAbilitySaveMethod
| ItemUseMethod
| OnChangeTabMethod.

Definition method_path (m : host_method) : string :=
  match m with
  | RollSkillMethod => "CONFIG.Actor.documentClass.prototype.rollSkill"
  | RollAbilityTestMethod => "CONFIG.Actor.documentClass.prototype.rollAbilityTest"
  | RollAbilitySaveMethod => "CONFIG.Actor.documentClass.prototype.rollAbilitySave"
  | ItemUseMethod => "CONFIG.Item.documentClass.prototype.use"
  | OnChangeTabMethod => "ItemSheet.prototype._onChangeTab"
  end.

Definition method_setting (m : host_method) : setting_name :=
  match m with
  | RollSkillMethod => QUICK_SKILL_ENABLED
  | RollAbilityTestMethod | RollAbilitySaveMethod => QUICK_ABILITY_ENABLED
  | ItemUseMethod | OnChangeTabMethod => QUICK_ITEM_ENABLED
  end.

Definition method_patcher (name : string) (get : setting_name -> value)
    (m : host_method) : registry -> registry :=
  match m with
  | RollSkillMethod | RollAbilityTestMethod | RollAbilitySaveMethod => patchActors name get
  | ItemUseMethod => patchItems name get
  | OnChangeTabMethod => patchItemSheets name get
  end.

(** A run of the registrar: the three static methods, each once. *)
Definition patchAll (name : string) (get : setting_name -> value) (r : registry) : registry :=
  patchItemSheets name get (patchItems name get (patchActors name get r)).

Definition registered (m : host_method) (r : registry) : bool :=
  bool_decide (method_path m ∈ map reg_target r).

(** *** Wrapper dispatch *)

(** The collaborators of the dispatch: the wrapped host method
    ([wrapper.call(caller, ...args)]), the routines of [RollUtility] and
    [CoreUtility.eventToAltRoll]. *)
Inductive call : Type -> Type :=
| WrapperCall (wrapper caller : value) (args : list value) : call value
| RollActorWrapper (caller wrapper options id ignore : value) : call value
| RollItemWrapper (caller wrapper options ignore : value) : call value
| RollSkill (actor skillId roll : value) : call value
| RollAbilityTest (actor ability roll : value) : call value
| RollAbilitySave (actor ability roll : value) : call value
| EventToAltRoll (event : value) : call value.

(** [options?.chatMessage === false || options?.vanilla], as a condition. *)
Definition bypass (h : heap) (options : value) : bool :=
  is_false (get_opt h options "chatMessage") || truthy (get_opt h options "vanilla").

Definition _actorProcessWrapper (h : heap) (caller wrapper options id : value)
  : prog call (value * value) :=
  if bypass h options
  then
    do roll <- invoke (WrapperCall wrapper caller [id; options]);
    Ret (roll, VBool true)
  else
    let ignore := coalesce (get_opt h (get_opt h options "event") "altKey") (VBool false) in
    do roll <- invoke (RollActorWrapper caller wrapper options id ignore);
    Ret (roll, ignore).

Definition _actorRollSkill (h : heap) (this wrapper skillId options : value)
  : prog call value :=
  do '(roll, ignore) <- _actorProcessWrapper h this wrapper options skillId;
  if truthy ignore then Ret roll else invoke (RollSkill this skillId roll).

Definition _actorRollAbilityTest (h : heap) (this wrapper ability options : value)
  : prog call value :=
  do '(roll, ignore) <- _actorProcessWrapper h this wrapper options ability;
  if truthy ignore then Ret roll else invoke (RollAbilityTest this ability roll).

Definition _actorRollAbilitySave (h : heap) (this wrapper ability options : value)
  : prog call value :=
  do '(roll, ignore) <- _actorProcessWrapper h this wrapper options ability;
  if truthy ignore then Ret roll else invoke (RollAbilitySave this ability roll).

(** [(options?.event?.altKey && !CoreUtility.eventToAltRoll(options?.event)) ?? false]:
    the predicate is called only when the left operand is truthy. *)
Definition item_ignore (h : heap) (options : value) : prog call value :=
  let event := get_opt h options "event" in
  let altKey := get_opt h event "altKey" in
  do conj <- (if truthy altKey
              then do alt <- invoke (EventToAltRoll event); Ret (js_not alt)
              else Ret altKey);
  Ret (coalesce conj (VBool false)).

Definition _itemProcessWrapper (h : heap) (caller wrapper options : value)
  : prog call value :=
  if bypass h options
  then invoke (WrapperCall wrapper caller [options])
  else
    do ignore <- item_ignore h options;
    invoke (RollItemWrapper caller wrapper options ignore).

(** The literal [{ event: window.event }]. *)
Definition event_default (window_event : value) : gmap string value :=
  {[ "event" := window_event ]}.

(** [window_event] is the global [window.event] at the time of the call.
    The merged options are a new object, allocated past the end of [h]. *)
Definition _itemUse (h : heap) (window_event : value) (this wrapper options : value)
  : prog call value :=
  let '(h1, merged) := alloc h (OPlain (event_default window_event)) in
  match Host.mergeObject 1 false h1 merged options with
  | Some h2 => _itemProcessWrapper h2 this wrapper merged
  | None => Throw
  end.

End Patching.

(* ================================================================== *)
(** ** The [QuickRoll] class *)
(* ================================================================== *)

Module Card.

(** The properties of a [QuickRoll] instance.  A property that was never
    assigned reads [undefined].  [fields] is the caller's array, a reference
    into the heap; [templates] and [properties] are arrays the instance
    creates and owns, kept here by their elements.  [messageId] belongs to
    [toMessage], which is not modelled. *)
Record QuickRoll : Type := mkQuickRoll {
  _currentId : Z;
  _item : value;
  itemId : value;
  _actor : value;
  actorId : value;
  tokenId : value;
  params : value;
  fields : value;
  templates : list value;
  properties : list value;
  isCrit : value;
  isMultiroll : value;
  processed : bool;
}.

(** The metadata handed to the renderer with each field. *)
Record metadata : Type := mkMetadata {
  md_id : Z;
  md_item : value;
  md_actor : value;
  md_slotLevel : value;
  md_isCrit : value;
  md_isMultiroll : value;
}.

(** The argument of [RenderUtility.renderFullCard]. *)
Record card : Type := mkCard {
  card_item : value;
  card_actor : value;
  card_tokenId : value;
  card_isCritical : value;
  card_properties : list value;
  card_templates : list value;
}.

(** The hook names of [utils/hooks.js]. *)
Inductive hook : Type := HOOK_RENDER | HOOK_CHAT_MESSAGE.

(** The collaborators: [CoreUtility.resolveActorOrItem] (answering the pair
    [{ item, actor }]), [RenderUtility.renderFromField],
    [Hooks.callAll], [RenderUtility.renderFullCard] and
    [CoreUtility.getVersion].  They answer with values and keep a state of
    their own; they do not write to the heap or to the instance. *)
Inductive call : Type -> Type :=
| ResolveActorOrItem (origin : value) : call (value * value)
| RenderFromField (field : value) (m : metadata) : call value
| HooksCallAll (k : hook) (q : QuickRoll) : call unit
| RenderFullCard (c : card) : call value
| GetVersion : call value.

Definition lift {A} (o : option A) : prog call A :=
  match o with
  | Some a => Ret a
  | None => Throw
  end.

(** The literal of [defaultParams]; [useCharge] is the reference to its
    empty object. *)
Definition defaultParams_props (useCharge : value) : gmap string value :=
  list_to_map
    [ ("label", VString "");
      ("forceCrit", VBool false);
      ("forceMultiroll", VBool false);
      ("preset", VNull);
      ("properties", VBool true);
      ("slotLevel", VNull);
      ("useCharge", useCharge);
      ("placeTemplate", VBool false);
      ("hasAdvantage", VBool false);
      ("hasDisadvantage", VBool false);
      ("consume", VBool true);
      ("infoOnly", VBool false) ].

(** Loading the module evaluates the literal: two objects are allocated,
    and the module-level variable [defaultParams] holds the second. *)
Definition module_init (h : heap) : heap * value :=
  let '(h1, useCharge) := alloc h (OPlain ∅) in
  alloc h1 (OPlain (defaultParams_props useCharge)).

(** The instance before the constructor body runs: only the class field
    [_currentId] is initialised. *)
Definition blank : QuickRoll :=
  mkQuickRoll (-1)%Z VUndefined VUndefined VUndefined VUndefined VUndefined
    VUndefined VUndefined [] [] VUndefined VUndefined false.

(** [set item(item)]. *)
Definition set_item (h : heap) (q : QuickRoll) (item : value) : QuickRoll :=
  mkQuickRoll (_currentId q) item (get_opt h item "id")
    (_actor q) (actorId q) (tokenId q)
    (params q) (fields q) (templates q) (properties q)
    (isCrit q) (isMultiroll q) (processed q).

(** [set actor(actor)]. *)
Definition set_actor (h : heap) (q : QuickRoll) (actor : value) : QuickRoll :=
  mkQuickRoll (_currentId q) (_item q) (itemId q)
    actor (get_opt h actor "id")
    (if truthy (get_opt h actor "token")
     then get_opt h (get_opt h actor "token") "uuid"
     else VNull)
    (params q) (fields q) (templates q) (properties q)
    (isCrit q) (isMultiroll q) (processed q).

(** [constructor(origin, params, fields)]; [defaultParams] is the value of
    the module-level variable, [fuel] bounds the recursion of the host's
    copy and merge.  [console.log] is left out. *)
Definition constructor (fuel : nat) (h : heap) (defaultParams : value)
    (origin params fields : value) : prog call (heap * QuickRoll) :=
  do q1 <- (if truthy origin
            then
              do '(item, actor) <- invoke (ResolveActorOrItem origin);
              let q := if truthy item then set_item h blank item else blank in
              Ret (if truthy actor then set_actor h q actor else q)
            else Ret blank);
  do '(h1, dup) <- lift (Host.duplicate fuel h defaultParams);
  let '(h2, other) := if truthy params then (h1, params) else alloc h1 (OPlain ∅) in
  do h3 <- lift (Host.mergeObject fuel true h2 dup other);
  let '(h4, fields) := if nullish fields then alloc h3 (OArray []) else (h3, fields) in
  do forceCrit <- lift (get h4 dup "forceCrit");
  do forceMultiroll <- lift (get h4 dup "forceMultiroll");
  do hasAdvantage <- lift (get h4 dup "hasAdvantage");
  do hasDisadvantage <- lift (get h4 dup "hasDisadvantage");
  Ret (h4,
       mkQuickRoll (_currentId q1) (_item q1) (itemId q1)
         (_actor q1) (actorId q1) (tokenId q1)
         dup fields [] []
         (js_or forceCrit (VBool false))
         (js_or (js_or forceMultiroll hasAdvantage) hasDisadvantage)
         false).

(** [this._currentId++] and [this.templates.push(render)]. *)
Definition next_id (q : QuickRoll) : QuickRoll :=
  mkQuickRoll (_currentId q + 1)%Z (_item q) (itemId q) (_actor q) (actorId q) (tokenId q)
    (params q) (fields q) (templates q) (properties q)
    (isCrit q) (isMultiroll q) (processed q).

Definition push_template (q : QuickRoll) (render : value) : QuickRoll :=
  mkQuickRoll (_currentId q) (_item q) (itemId q) (_actor q) (actorId q) (tokenId q)
    (params q) (fields q) (templates q ++ [render]) (properties q)
    (isCrit q) (isMultiroll q) (processed q).

(** One round of the loop of [_render]: the id is taken and incremented,
    the metadata built, the field rendered and the result pushed. *)
Definition render_field (h : heap) (q : QuickRoll) (field : value) : prog call QuickRoll :=
  let id := _currentId q in
  let q := next_id q in
  do slotLevel <- lift (get h (params q) "slotLevel");
  let m := mkMetadata id (_item q) (_actor q) slotLevel (isCrit q) (isMultiroll q) in
  do render <- invoke (RenderFromField field m);
  Ret (push_template q render).

Fixpoint render_fields (h : heap) (fs : list value) (q : QuickRoll) : prog call QuickRoll :=
  match fs with
  | [] => Ret q
  | field :: rest =>
      do q1 <- render_field h q field;
      render_fields h rest q1
  end.

Definition set_processed (q : QuickRoll) : QuickRoll :=
  mkQuickRoll (_currentId q) (_item q) (itemId q) (_actor q) (actorId q) (tokenId q)
    (params q) (fields q) (templates q) (properties q)
    (isCrit q) (isMultiroll q) true.

(** [_render()]: the instance after the call and the html of the card. *)
Definition _render (h : heap) (q : QuickRoll) : prog call (QuickRoll * value) :=
  do q1 <- (if negb (processed q)
            then
              do fs <- lift (iterate h (fields q));
              do q' <- render_fields h fs q;
              Ret (set_processed q')
            else Ret q);
  do _ <- invoke (HooksCallAll HOOK_RENDER q1);
  do html <- invoke (RenderFullCard
                       (mkCard (_item q1) (_actor q1) (tokenId q1) (isCrit q1)
                          (properties q1) (templates q1)));
  Ret (q1, html).

(** The elements of a value that has the array method [map]. *)
Definition array_elems (h : heap) (v : value) : option (list value) :=
  match v with
  | VRef l =>
      match h !! l with
      | Some (OArray es) => Some es
      | _ => None
      end
  | _ => None
  end.

(** [field[1] && 'formula' in field[1] && field[1].formula?.formula], as a
    condition. *)
Definition has_roll_formula (h : heap) (field : value) : option bool :=
  a ← get_index h field 1;
  if truthy a
  then
    b ← has_in h "formula" a;
    if b : bool
    then
      f ← get h a "formula";
      Some (truthy (get_opt h f "formula"))
    else Some false
  else Some false.

(** The callback of the [map] in [_getFlags]. *)
Definition flatten_field (fuel : nat) (h : heap) (field : value) : option (heap * value) :=
  '(h1, newField) ← Host.deepClone fuel h field;
  c ← has_roll_formula h1 field;
  if c : bool
  then
    target ← get_index h1 newField 1;
    a ← get_index h1 field 1;
    f ← get h1 a "formula";
    x ← get h1 f "formula";
    h2 ← set_prop h1 target "formula" x;
    Some (h2, newField)
  else Some (h1, newField).

Fixpoint map_fields (fuel : nat) (h : heap) (fs : list value) : option (heap * list value) :=
  match fs with
  | [] => Some (h, [])
  | field :: rest =>
      '(h1, newField) ← flatten_field fuel h field;
      '(h2, newFields) ← map_fields fuel h1 rest;
      Some (h2, newField :: newFields)
  end.

(** The object under the key [rsr5e] of the flags, with the
    [core.canPopout] entry beside it. *)
Record flags : Type := mkFlags {
  fl_version : value;
  fl_actorId : value;
  fl_itemId : value;
  fl_tokenId : value;
  fl_isCrit : value;
  fl_properties : list value;
  fl_params : value;
  fl_fields : value;
  fl_canPopout : value;
}.

(** [_getFlags()]: the heap after the call and the flags; the instance is
    only read. *)
Definition _getFlags (fuel : nat) (h : heap) (q : QuickRoll) : prog call (heap * flags) :=
  do fs <- lift (array_elems h (fields q));
  do '(h1, newFields) <- lift (map_fields fuel h fs);
  let '(h2, arr) := alloc h1 (OArray newFields) in
  do version <- invoke GetVersion;
  Ret (h2,
       mkFlags version (actorId q) (itemId q) (tokenId q) (isCrit q)
         (properties q) (params q) arr (VBool true)).

End Card.

(* ================================================================== *)
(** ** Running programs *)
(* ================================================================== *)

Lemma run_bind {E R S W} (hd : handler E W) (p : prog E R) (f : R -> prog E S) (w : W) :
  run hd (bind p f) w =
  match run hd p w with
  | (Some r, w1, t1) =>
      let '(s, w2, t2) := run hd (f r) w1 in (s, w2, t1 ++ t2)
  | (None, w1, t1) => (None, w1, t1)
  end.
Proof.
  revert w. induction p as [r | | X e k IH]; intros w; simpl.
  - destruct (run hd (f r) w) as [[s w2] t2]. reflexivity.
  - reflexivity.
  - destruct (hd X e w) as [x w1]. rewrite IH.
    destruct (run hd (k x) w1) as [[[r|] w2] t1]; simpl; [|reflexivity].
    destruct (run hd (f r) w2) as [[s w3] t2]. reflexivity.
Qed.

Lemma run_ret {E R W} (hd : handler E W) (r : R) (w : W) :
  run hd (Ret r) w = (Some r, w, []).
Proof. reflexivity. Qed.

(* ================================================================== *)
(** ** The heap under the host's copy *)
(* ================================================================== *)

Module HeapFacts.

Import Host.

(** *** Folding assignments into a plain object *)

Definition insert_entry (m : gmap string value) (kv : string * value) : gmap string value :=
  <[kv.1 := kv.2]> m.

Lemma foldl_insert_lookup (l : list (string * value)) (m0 : gmap string value) (k : string) :
  NoDup l.*1 ->
  foldl insert_entry m0 l !! k =
  match (list_to_map l : gmap string value) !! k with
  | Some v => Some v
  | None => m0 !! k
  end.
Proof.
  revert m0. induction l as [|[k1 v1] l IH]; intros m0 Hnd; simpl.
  - rewrite lookup_empty. reflexivity.
  - inversion Hnd as [|? ? Hnotin Hnd']; subst.
    rewrite IH by assumption. unfold insert_entry; simpl.
    destruct (decide (k = k1)) as [->|Hne].
    + rewrite lookup_insert_eq.
      rewrite (not_elem_of_list_to_map_1 (M := gmap string) l k1 Hnotin).
      rewrite lookup_insert_eq. reflexivity.
    + rewrite !(lookup_insert_ne _ k1 k) by congruence. reflexivity.
Qed.


(** [H] keeps every object of [h] as it is: it may have more objects, or
    other objects past the end of [h]. *)
Definition heap_extends (h H : heap) : Prop :=
  forall l o, h !! l = Some o -> H !! l = Some o.

(** A value that is not a reference to one of the first [n] locations. *)
Definition value_fresh (n : nat) (v : value) : Prop :=
  match v with
  | VRef l => (n <= l)%nat
  | _ => True
  end.

(** The values an object holds. *)
Definition obj_values (o : object) : list value :=
  match o with
  | OArray es => es
  | OPlain m => (map_to_list m).*2
  end.

Definition object_fresh (n : nat) (o : object) : Prop :=
  Forall (value_fresh n) (obj_values o).

Lemma heap_extends_refl h : heap_extends h h.
Proof. intros l o Hl. exact Hl. Qed.

Lemma heap_extends_trans h1 h2 h3 :
  heap_extends h1 h2 -> heap_extends h2 h3 -> heap_extends h1 h3.
Proof. intros H12 H23 l o Hl. auto. Qed.

Lemma heap_extends_app (h ext : heap) : heap_extends h (h ++ ext).
Proof. intros l o Hl. apply lookup_app_l_Some. exact Hl. Qed.

Lemma heap_extends_length (h H : heap) : heap_extends h H -> (length h <= length H)%nat.
Proof.
  intros Hext. destruct (decide (length h <= length H)%nat) as [|Hgt]; [assumption|].
  destruct (lookup_lt_is_Some_2 h (length H)) as [o Ho]; [lia|].
  apply Hext in Ho. apply lookup_lt_Some in Ho. lia.
Qed.

Lemma value_fresh_mono (n n' : nat) (v : value) :
  (n' <= n)%nat -> value_fresh n v -> value_fresh n' v.
Proof. destruct v; simpl; auto. lia. Qed.

Lemma object_fresh_mono (n n' : nat) (o : object) :
  (n' <= n)%nat -> object_fresh n o -> object_fresh n' o.
Proof.
  intros Hn Ho. unfold object_fresh. eapply Forall_impl; [exact Ho|].
  intros v. apply value_fresh_mono. exact Hn.
Qed.

Lemma object_fresh_list_to_map (n : nat) (ps : list (string * value)) :
  Forall (value_fresh n) ps.*2 -> object_fresh n (OPlain (list_to_map ps)).
Proof.
  intros Hps. unfold object_fresh; simpl.
  apply Forall_forall. intros v Hv.
  apply list_elem_of_fmap in Hv as [[k v'] [-> Hkv]]. simpl.
  apply elem_of_map_to_list in Hkv. apply elem_of_list_to_map_2 in Hkv.
  rewrite Forall_forall in Hps. apply Hps.
  apply list_elem_of_fmap. exists (k, v'). auto.
Qed.

(** What one copy does to the heap: it appends objects that hold nothing
    of the old heap, and answers with a value that is none of the old
    references. *)
Definition grows (H : heap) (H' : heap) (v' : value) : Prop :=
  exists ext,
    H' = H ++ ext /\ value_fresh (length H) v' /\ Forall (object_fresh (length H)) ext.

Lemma clone_list_grows (rec : heap -> value -> option (heap * value)) :
  (forall H v H' v', rec H v = Some (H', v') -> grows H H' v') ->
  forall vs H H' vs',
    clone_list rec H vs = Some (H', vs') ->
    exists ext,
      H' = H ++ ext /\ Forall (value_fresh (length H)) vs' /\
      Forall (object_fresh (length H)) ext /\ length vs' = length vs.
Proof.
  intros Hrec. induction vs as [|v vs IH]; intros H H' vs' Hc; simpl in Hc.
  - injection Hc as <- <-. exists []. rewrite app_nil_r. auto.
  - destruct (rec H v) as [[H1 v1]|] eqn:Hv; [|discriminate].
    destruct (clone_list rec H1 vs) as [[H2 vs1]|] eqn:Hvs; [|discriminate].
    injection Hc as <- <-.
    destruct (Hrec _ _ _ _ Hv) as (e1 & -> & Hv1 & He1).
    destruct (IH _ _ _ Hvs) as (e2 & -> & Hvs1 & He2 & Hlen).
    assert (Hle : (length H <= length (H ++ e1))%nat) by (rewrite length_app; lia).
    exists (e1 ++ e2). rewrite app_assoc. split; [reflexivity|].
    split; [|split].
    + constructor; [exact Hv1|].
      eapply Forall_impl; [exact Hvs1|]. intros x. apply value_fresh_mono. exact Hle.
    + apply Forall_app. split; [exact He1|].
      eapply Forall_impl; [exact He2|]. intros x. apply object_fresh_mono. exact Hle.
    + simpl. rewrite Hlen. reflexivity.
Qed.

Lemma deepClone_grows (fuel : nat) :
  forall H v H' v', deepClone fuel H v = Some (H', v') -> grows H H' v'.
Proof.
  induction fuel as [|fuel IH]; intros H v H' v' Hc.
  - destruct v; simpl in Hc; try discriminate;
      injection Hc as <- <-; exists []; rewrite app_nil_r; simpl; auto.
  - destruct v; simpl in Hc;
      try (injection Hc as <- <-; exists []; rewrite app_nil_r; simpl; auto; fail).
    destruct (H !! l) as [[es|m]|] eqn:Hl; [| |discriminate].
    + destruct (clone_list (deepClone fuel) H es) as [[H1 es1]|] eqn:Hes; [|discriminate].
      injection Hc as <- <-.
      destruct (clone_list_grows _ IH _ _ _ _ Hes) as (ext & -> & Hvs & Hext & _).
      exists (ext ++ [OArray es1]). rewrite app_assoc. split; [reflexivity|].
      split; [simpl; rewrite length_app; lia|].
      apply Forall_app. split; [exact Hext|]. constructor; [exact Hvs|constructor].
    + unfold clone_props in Hc.
      destruct (clone_list (deepClone fuel) H (map_to_list m).*2) as [[H1 vs1]|] eqn:Hes;
        [|discriminate].
      injection Hc as <- <-.
      destruct (clone_list_grows _ IH _ _ _ _ Hes) as (ext & -> & Hvs & Hext & Hlen).
      exists (ext ++ [OPlain (list_to_map (zip (map_to_list m).*1 vs1))]).
      rewrite app_assoc. split; [reflexivity|].
      split; [simpl; rewrite length_app; lia|].
      apply Forall_app. split; [exact Hext|]. constructor; [|constructor].
      apply object_fresh_list_to_map.
      rewrite snd_zip by (rewrite !length_fmap in *; lia). exact Hvs.
Qed.

(** [v] is nested no deeper than [fuel] in [h], and every reference on the
    way is to an object of [h]. *)
Fixpoint depth_ok (fuel : nat) (h : heap) (v : value) : bool :=
  match v with
  | VRef l =>
      match fuel with
      | O => false
      | S fuel' =>
          match h !! l with
          | Some o => forallb (depth_ok fuel' h) (obj_values o)
          | None => false
          end
      end
  | _ => true
  end.

(** [v'] in [H] has the structure of [v] in [h], down to the depth [fuel]:
    the same primitive, or an array of the same length, or a plain object
    of the same keys, with members of the same structure. *)
Fixpoint same_shape (fuel : nat) (h H : heap) (v v' : value) : Prop :=
  match v with
  | VRef l =>
      match fuel with
      | O => False
      | S fuel' =>
          match v' with
          | VRef l' =>
              match h !! l, H !! l' with
              | Some (OArray es), Some (OArray es') =>
                  Forall2 (same_shape fuel' h H) es es'
              | Some (OPlain m), Some (OPlain m') =>
                  forall k, option_Forall2 (same_shape fuel' h H) (m !! k) (m' !! k)
              | _, _ => False
              end
          | _ => False
          end
      end
  | _ => v' = v
  end.

Lemma same_shape_extends (fuel : nat) (h H H2 : heap) :
  heap_extends H H2 ->
  forall v v', same_shape fuel h H v v' -> same_shape fuel h H2 v v'.
Proof.
  intros Hext. induction fuel as [|fuel IH]; intros v v' Hs.
  - destruct v; simpl in *; auto.
  - destruct v as [| | | | |l]; simpl in *; auto.
    destruct v' as [| | | | |l']; auto.
    destruct (h !! l) as [[es|m]|]; [| |contradiction].
    + destruct (H !! l') as [[es'|m']|] eqn:Hl'; try contradiction.
      rewrite (Hext _ _ Hl'). eapply Forall2_impl; [exact Hs|]. exact IH.
    + destruct (H !! l') as [[es'|m']|] eqn:Hl'; try contradiction.
      rewrite (Hext _ _ Hl'). intros k. specialize (Hs k).
      destruct Hs; constructor. auto.
Qed.

Lemma shape_list_to_map (R : value -> value -> Prop) (ps : list (string * value))
    (vs : list value) :
  Forall2 R ps.*2 vs ->
  forall k : string,
    option_Forall2 R ((list_to_map ps : gmap string value) !! k)
                     ((list_to_map (zip ps.*1 vs) : gmap string value) !! k).
Proof.
  revert vs. induction ps as [|[k1 v1] ps IH]; intros vs HF k; simpl in *.
  - inversion HF; subst. simpl. rewrite lookup_empty. constructor.
  - inversion HF as [|? v1' ? vs' Hv Hrest]; subst. simpl.
    destruct (decide (k = k1)) as [->|Hne].
    + rewrite !lookup_insert_eq. constructor. exact Hv.
    + rewrite !(lookup_insert_ne _ k1 k) by congruence. apply IH. exact Hrest.
Qed.

Lemma clone_list_copies (fuel : nat) (h : heap) :
  (forall H v, depth_ok fuel h v = true -> heap_extends h H ->
     exists H' v', deepClone fuel H v = Some (H', v') /\ same_shape fuel h H' v v') ->
  forall vs H,
    forallb (depth_ok fuel h) vs = true -> heap_extends h H ->
    exists H' vs',
      clone_list (deepClone fuel) H vs = Some (H', vs') /\
      Forall2 (same_shape fuel h H') vs vs' /\ heap_extends H H'.
Proof.
  intros Hrec. induction vs as [|v vs IH]; intros H Hd Hext; simpl in *.
  - exists H, []. split; [reflexivity|]. split; [constructor|apply heap_extends_refl].
  - apply andb_true_iff in Hd as [Hv Hvs].
    destruct (Hrec H v Hv Hext) as (H1 & v1 & Hc1 & Hs1).
    destruct (deepClone_grows _ _ _ _ _ Hc1) as (e1 & -> & _).
    destruct (IH (H ++ e1) Hvs) as (H2 & vs1 & Hc2 & Hs2 & Hext2).
    { eapply heap_extends_trans; [exact Hext|apply heap_extends_app]. }
    rewrite Hc1, Hc2. exists H2, (v1 :: vs1). split; [reflexivity|].
    split.
    + constructor; [|exact Hs2]. eapply same_shape_extends; eassumption.
    + eapply heap_extends_trans; [apply heap_extends_app|exact Hext2].
Qed.

(** The copy of a value of finite depth returns, and what it returns has
    the structure of the value. *)
Lemma deepClone_copies (fuel : nat) (h : heap) :
  forall H v, depth_ok fuel h v = true -> heap_extends h H ->
    exists H' v', deepClone fuel H v = Some (H', v') /\ same_shape fuel h H' v v'.
Proof.
  induction fuel as [|fuel IH]; intros H v Hd Hext.
  - destruct v; simpl in *; try discriminate; eexists _, _; split; reflexivity.
  - destruct v as [| | | | |l]; simpl in *;
      try (eexists _, _; split; reflexivity).
    destruct (h !! l) as [o|] eqn:Hl; [|discriminate].
    rewrite (Hext _ _ Hl). destruct o as [es|m]; simpl in Hd.
    + destruct (clone_list_copies fuel h IH es H Hd Hext)
        as (H1 & es1 & Hc & Hs & Hext1).
      rewrite Hc. eexists _, _. split; [reflexivity|]. simpl.
      rewrite lookup_app_r by lia. rewrite Nat.sub_diag. simpl.
      eapply Forall2_impl; [exact Hs|].
      intros x y. apply same_shape_extends, heap_extends_app.
    + destruct (clone_list_copies fuel h IH _ H Hd Hext)
        as (H1 & vs1 & Hc & Hs & Hext1).
      unfold clone_props. rewrite Hc. eexists _, _. split; [reflexivity|]. simpl.
      rewrite lookup_app_r by lia. rewrite Nat.sub_diag. simpl.
      intros k.
      pose proof (shape_list_to_map _ (map_to_list m) vs1 Hs k) as Hk.
      rewrite list_to_map_to_list in Hk.
      destruct Hk as [x y Hxy|]; constructor.
      eapply same_shape_extends; [apply heap_extends_app|exact Hxy].
Qed.

End HeapFacts.

(* ================================================================== *)
(** ** Properties of the patch registrar and of the wrapper dispatch *)
(* ================================================================== *)

Module PatchingFacts.

Import Patching HeapFacts.

(** *** The registrar *)

Lemma patchActors_app name get r :
  patchActors name get r = r ++ patchActors name get [].
Proof.
  unfold patchActors, libWrapper_register.
  destruct (truthy (get QUICK_SKILL_ENABLED)), (truthy (get QUICK_ABILITY_ENABLED));
    simpl; rewrite <- ?app_assoc, ?app_nil_r; reflexivity.
Qed.

Lemma patchItems_app name get r :
  patchItems name get r = r ++ patchItems name get [].
Proof.
  unfold patchItems, libWrapper_register.
  destruct (truthy (get QUICK_ITEM_ENABLED)); simpl; rewrite ?app_nil_r; reflexivity.
Qed.

Lemma patchItemSheets_app name get r :
  patchItemSheets name get r = r ++ patchItemSheets name get [].
Proof.
  unfold patchItemSheets, libWrapper_register.
  destruct (truthy (get QUICK_ITEM_ENABLED)); simpl; rewrite ?app_nil_r; reflexivity.
Qed.

(** C8. A run of the registrar only adds to the host's registry, and what
    it adds holds a wrapper for a host method exactly when the setting paired
    with that method is enabled; the same holds of the single static method
    that patches the method.  In particular nothing is registered for the
    skill roll when the skill setting is disabled. *)
Theorem registrar_registers_iff_enabled
    (name : string) (get : setting_name -> value) (r0 : registry) (m : host_method) :
  patchAll name get r0 = r0 ++ patchAll name get [] /\
  registered m (patchAll name get []) = truthy (get (method_setting m)) /\
  registered m (method_patcher name get m []) = truthy (get (method_setting m)) /\
  (truthy (get QUICK_SKILL_ENABLED) = false ->
   registered RollSkillMethod (patchAll name get []) = false /\
   patchActors name get r0 = r0 ++
     (if truthy (get QUICK_ABILITY_ENABLED)
      then [Registration name (method_path RollAbilityTestMethod) fn_actorRollAbilityTest MIXED;
            Registration name (method_path RollAbilitySaveMethod) fn_actorRollAbilitySave MIXED]
      else [])).
Proof.
  split; [|split; [|split]].
  - unfold patchAll.
    rewrite (patchItemSheets_app _ _ (patchItems _ _ _)).
    rewrite (patchItems_app _ _ (patchActors _ _ r0)).
    rewrite (patchActors_app _ _ r0).
    rewrite (patchItemSheets_app _ _ (patchItems _ _ (patchActors _ _ []))).
    rewrite (patchItems_app _ _ (patchActors _ _ [])).
    rewrite <- !app_assoc. reflexivity.
  - unfold patchAll, patchItemSheets, patchItems, patchActors, libWrapper_register.
    destruct m; simpl;
      destruct (truthy (get QUICK_SKILL_ENABLED)),
               (truthy (get QUICK_ABILITY_ENABLED)),
               (truthy (get QUICK_ITEM_ENABLED)); vm_compute; reflexivity.
  - unfold method_patcher, patchItemSheets, patchItems, patchActors, libWrapper_register.
    destruct m; simpl;
      destruct (truthy (get QUICK_SKILL_ENABLED)),
               (truthy (get QUICK_ABILITY_ENABLED)),
               (truthy (get QUICK_ITEM_ENABLED)); vm_compute; reflexivity.
  - intros Hs. split.
    + unfold patchAll, patchItemSheets, patchItems, patchActors, libWrapper_register.
      rewrite Hs.
      destruct (truthy (get QUICK_ABILITY_ENABLED)),
               (truthy (get QUICK_ITEM_ENABLED)); vm_compute; reflexivity.
    + rewrite (patchActors_app _ _ r0). f_equal.
      unfold patchActors, libWrapper_register. rewrite Hs.
      destruct (truthy (get QUICK_ABILITY_ENABLED)); reflexivity.
Qed.

(** *** Flat merge of the options of an item use *)

(** Without [recursive] every step of the merge is an assignment to the
    object at [lo]. *)
Lemma foldl_merge_flat rec lo (l : list (string * value)) (h : heap) (m0 : gmap string value) :
  h !! lo = Some (OPlain m0) ->
  foldl (Host.merge_step rec false (VRef lo)) (Some h) l =
  Some (<[lo := OPlain (foldl insert_entry m0 l)]> h).
Proof.
  revert h m0. induction l as [|[k v] l IH]; intros h m0 Hlo; simpl.
  - rewrite list_insert_id by assumption. reflexivity.
  - rewrite Hlo. simpl.
    rewrite (IH _ (<[k := v]> m0)).
    + rewrite list_insert_insert_eq. reflexivity.
    + apply list_lookup_insert_eq. eapply lookup_lt_Some; eassumption.
Qed.

(** The merge of [_itemUse]: the merged options are a new object that holds
    the keys of the caller's options and, unless they have one, the [event]
    key of the default. *)
Lemma itemUse_merge (h : heap) (window_event : value) (lo : loc) (o : object) :
  h !! lo = Some o ->
  exists m : gmap string value,
    Host.mergeObject 1 false (h ++ [OPlain (event_default window_event)])
      (VRef (length h)) (VRef lo) = Some (h ++ [OPlain m]) /\
    forall k, m !! k =
      match own_props o !! k with
      | Some v => Some v
      | None => event_default window_event !! k
      end.
Proof.
  intros Hlo.
  exists (foldl insert_entry (event_default window_event) (map_to_list (own_props o))).
  split.
  - simpl. rewrite lookup_app_r by lia. rewrite Nat.sub_diag; simpl.
    rewrite lookup_app_l by (eapply lookup_lt_Some; eassumption). rewrite Hlo.
    rewrite (foldl_merge_flat _ _ _ _ (event_default window_event)).
    + f_equal. rewrite insert_app_r_alt by lia. rewrite Nat.sub_diag. reflexivity.
    + rewrite lookup_app_r by lia. rewrite Nat.sub_diag. reflexivity.
  - intros k. rewrite foldl_insert_lookup by apply NoDup_fst_map_to_list.
    rewrite list_to_map_to_list. reflexivity.
Qed.

Lemma get_opt_defined (h : heap) (v : value) (k : string) :
  get_opt h v k <> VUndefined ->
  exists l m, v = VRef l /\ h !! l = Some (OPlain m) /\ m !! k = Some (get_opt h v k).
Proof.
  unfold get_opt, get. intros Hne.
  destruct v as [| | | | |l]; simpl in *; try congruence.
  destruct (h !! l) as [[es|m]|] eqn:Hl; simpl in *; try congruence.
  exists l, m. destruct (m !! k) eqn:Hk; simpl in *; [auto | congruence].
Qed.

Lemma bypass_plain (h : heap) (options : value) :
  bypass h options = true ->
  exists l m, options = VRef l /\ h !! l = Some (OPlain m).
Proof.
  unfold bypass. intros Hb. apply orb_true_iff in Hb as [Hb|Hb].
  - destruct (get_opt_defined h options "chatMessage") as (l & m & ? & ? & _); [|eauto].
    intros Heq. rewrite Heq in Hb. discriminate.
  - destruct (get_opt_defined h options "vanilla") as (l & m & ? & ? & _); [|eauto].
    intros Heq. rewrite Heq in Hb. discriminate.
Qed.

(** *** The bypass path *)

(** A run that does nothing but call the wrapped host method with [args]
    and return its answer. *)
Definition only_original {W} (hd : handler call W) (w : W)
    (wrapper this : value) (args : list value) : option value * W * list (event call) :=
  let '(r, w1) := hd _ (WrapperCall wrapper this args) w in
  (Some r, w1, [Ev (WrapperCall wrapper this args) r]).

(** C5. When the options have [chatMessage === false] or a truthy
    [vanilla], each of the three actor patches and the item patch calls the
    wrapped host method once, with the arguments it was given, and returns
    its answer unchanged; no other collaborator is called, so no quick roll
    is built.  For [_itemUse] the argument is the merged options, the object
    allocated at the end of the heap. *)
Theorem bypass_calls_original_only {W} (hd : handler call W) (w : W) (h : heap)
    (this wrapper id options window_event : value) :
  bypass h options = true ->
  run hd (_actorRollSkill h this wrapper id options) w
    = only_original hd w wrapper this [id; options] /\
  run hd (_actorRollAbilityTest h this wrapper id options) w
    = only_original hd w wrapper this [id; options] /\
  run hd (_actorRollAbilitySave h this wrapper id options) w
    = only_original hd w wrapper this [id; options] /\
  run hd (_itemProcessWrapper h this wrapper options) w
    = only_original hd w wrapper this [options] /\
  run hd (_itemUse h window_event this wrapper options) w
    = only_original hd w wrapper this [VRef (length h)].
Proof.
  intros Hb. unfold only_original.
  repeat split.
  - unfold _actorRollSkill, _actorProcessWrapper. rewrite Hb. simpl.
    destruct (hd value _ w) as [r w1]. reflexivity.
  - unfold _actorRollAbilityTest, _actorProcessWrapper. rewrite Hb. simpl.
    destruct (hd value _ w) as [r w1]. reflexivity.
  - unfold _actorRollAbilitySave, _actorProcessWrapper. rewrite Hb. simpl.
    destruct (hd value _ w) as [r w1]. reflexivity.
  - unfold _itemProcessWrapper. rewrite Hb. simpl.
    destruct (hd value _ w) as [r w1]. reflexivity.
  - destruct (bypass_plain h options Hb) as (lo & m & -> & Hlo).
    destruct (itemUse_merge h window_event lo _ Hlo) as (m' & Hmerge & Hm').
    unfold _itemUse, alloc. rewrite Hmerge.
    assert (Hkeep : forall k, k <> "event" ->
              get_opt (h ++ [OPlain m']) (VRef (length h)) k = get_opt h (VRef lo) k).
    { intros k Hk. unfold get_opt, get.
      rewrite lookup_app_r by lia. rewrite Nat.sub_diag; simpl. rewrite Hlo.
      rewrite Hm'; simpl. destruct (m !! k); [reflexivity|].
      unfold event_default. rewrite lookup_singleton_ne by congruence. reflexivity. }
    unfold _itemProcessWrapper, bypass.
    rewrite !Hkeep by discriminate. fold (bypass h (VRef lo)). rewrite Hb. simpl.
    destruct (hd value _ w) as [r w1]. reflexivity.
Qed.

(** *** Actor rolls without an event *)

(** C6. An actor roll whose options carry no event and do not ask for the
    bypass does not throw: [ignore] is [false], the roll is built by
    [rollActorWrapper] with that flag and handed to the quick-roll routine
    of the patched method, whose answer is returned. *)
Theorem actor_roll_without_event {W} (hd : handler call W) (w : W) (h : heap)
    (this wrapper id options : value) :
  bypass h options = false ->
  nullish (get_opt h options "event") = true ->
  let built := hd _ (RollActorWrapper this wrapper options id (VBool false)) w in
  let quick (e : call value) := hd _ e built.2 in
  run hd (_actorRollSkill h this wrapper id options) w =
    (Some (quick (RollSkill this id built.1)).1, (quick (RollSkill this id built.1)).2,
     [Ev (RollActorWrapper this wrapper options id (VBool false)) built.1;
      Ev (RollSkill this id built.1) (quick (RollSkill this id built.1)).1]) /\
  run hd (_actorRollAbilityTest h this wrapper id options) w =
    (Some (quick (RollAbilityTest this id built.1)).1, (quick (RollAbilityTest this id built.1)).2,
     [Ev (RollActorWrapper this wrapper options id (VBool false)) built.1;
      Ev (RollAbilityTest this id built.1) (quick (RollAbilityTest this id built.1)).1]) /\
  run hd (_actorRollAbilitySave h this wrapper id options) w =
    (Some (quick (RollAbilitySave this id built.1)).1, (quick (RollAbilitySave this id built.1)).2,
     [Ev (RollActorWrapper this wrapper options id (VBool false)) built.1;
      Ev (RollAbilitySave this id built.1) (quick (RollAbilitySave this id built.1)).1]).
Proof.
  intros Hb Hev built quick.
  assert (Hig : coalesce (get_opt h (get_opt h options "event") "altKey") (VBool false)
                = VBool false).
  { destruct (get_opt h options "event"); try discriminate; reflexivity. }
  subst built quick.
  repeat split.
  - unfold _actorRollSkill, _actorProcessWrapper. rewrite Hb, Hig. simpl.
    destruct (hd value _ w) as [r w1]. simpl.
    destruct (hd value _ w1) as [r2 w2]. reflexivity.
  - unfold _actorRollAbilityTest, _actorProcessWrapper. rewrite Hb, Hig. simpl.
    destruct (hd value _ w) as [r w1]. simpl.
    destruct (hd value _ w1) as [r2 w2]. reflexivity.
  - unfold _actorRollAbilitySave, _actorProcessWrapper. rewrite Hb, Hig. simpl.
    destruct (hd value _ w) as [r w1]. simpl.
    destruct (hd value _ w1) as [r2 w2]. reflexivity.
Qed.

(** *** The ignore flag of an item use *)

(** The ignore flags handed to [rollItemWrapper] in a trace. *)
Definition ignore_passed (tr : list (event call)) : list value :=
  flat_map (fun ev =>
    match ev with
    | Ev e _ =>
        match e with
        | RollItemWrapper _ _ _ ignore => [ignore]
        | _ => []
        end
    end) tr.

(** What the predicate [eventToAltRoll] answers for the event of the
    options in the world [w]. *)
Definition altRoll_answer {W} (hd : handler call W) (w : W) (h : heap) (options : value) : value :=
  (hd _ (EventToAltRoll (get_opt h options "event")) w).1.

Definition altKey_of (h : heap) (options : value) : value :=
  get_opt h (get_opt h options "event") "altKey".

(** The claim as the specification words it: [ignore] is [true] exactly
    when Alt was held and the predicate returned [false], and [false]
    otherwise, in particular whenever the event or either of the two signals
    is absent. *)
Definition ignore_as_specified {W} (hd : handler call W) (w : W) (h : heap)
    (this wrapper options : value) : Prop :=
  bypass h options = false ->
  exists ignore,
    ignore_passed (run hd (_itemProcessWrapper h this wrapper options) w).2 = [ignore] /\
    (ignore = VBool true <->
       altKey_of h options = VBool true /\ altRoll_answer hd w h options = VBool false) /\
    (nullish (get_opt h options "event") = true \/
     nullish (altKey_of h options) = true \/
     nullish (altRoll_answer hd w h options) = true -> ignore = VBool false).

(** A host whose alternate-roll predicate gives no answer ([undefined]) and
    whose other routines answer with a string. *)
Definition silent_predicate : handler call unit :=
  fun X e w =>
    match e in call X return X * unit with
    | EventToAltRoll _ => (VUndefined, tt)
    | WrapperCall _ _ _ => (VString "original", tt)
    | RollActorWrapper _ _ _ _ _ => (VString "roll", tt)
    | RollItemWrapper _ _ _ _ => (VString "card", tt)
    | RollSkill _ _ _ => (VString "skill", tt)
    | RollAbilityTest _ _ _ => (VString "test", tt)
    | RollAbilitySave _ _ _ => (VString "save", tt)
    end.

(** The options [{ event: { altKey: true } }]: the event at location 0, the
    options at location 1. *)
Definition alt_click : heap :=
  [ OPlain {[ "altKey" := VBool true ]}; OPlain {[ "event" := VRef 0 ]} ].

(** The options [{ chatMessage: false }] at location 0. *)
Definition silent_roll : heap :=
  [ OPlain {[ "chatMessage" := VBool false ]} ].

(** The options [{}] at location 0. *)
Definition bare_options : heap := [ OPlain ∅ ].

(** C2, as stated, fails: with Alt held and a predicate that gives no
    answer, the flag passed to [rollItemWrapper] is [true], while the claim
    makes it [false] whenever a signal is absent. *)
Lemma ignore_with_absent_predicate_answer :
  ~ ignore_as_specified silent_predicate tt alt_click VNull VNull (VRef 1).
Proof.
  intros Hclaim. destruct Hclaim as (ignore & Hpassed & _ & Habsent).
  - reflexivity.
  - vm_compute in Hpassed. injection Hpassed as <-.
    discriminate Habsent. right; right; reflexivity.
Qed.

Lemma run_item_ignore {W} (hd : handler call W) (w : W) (h : heap) (options : value) :
  run hd (item_ignore h options) w =
  if truthy (altKey_of h options)
  then
    (Some (VBool (negb (truthy (altRoll_answer hd w h options)))),
     (hd _ (EventToAltRoll (get_opt h options "event")) w).2,
     [Ev (EventToAltRoll (get_opt h options "event")) (altRoll_answer hd w h options)])
  else (Some (coalesce (altKey_of h options) (VBool false)), w, []).
Proof.
  unfold item_ignore, altRoll_answer. fold (altKey_of h options).
  destruct (truthy (altKey_of h options)); simpl; [|reflexivity].
  destruct (hd value _ w) as [a w1]. reflexivity.
Qed.

(** C2, amended.  Outside the bypass path [_itemProcessWrapper] does not
    throw and calls [rollItemWrapper] once; the flag it passes is [true]
    exactly when [altKey] is truthy and the answer of the alternate-roll
    predicate is falsy, be it [false] or no answer at all.  The flag is
    [false] when the event or its [altKey] is absent, and falsy in every
    other case: it is the boolean [altKey && !answer] whenever [altKey] is a
    boolean. *)
Theorem item_ignore_flag {W} (hd : handler call W) (w : W) (h : heap)
    (this wrapper options : value) :
  bypass h options = false ->
  exists ignore,
    ignore_passed (run hd (_itemProcessWrapper h this wrapper options) w).2 = [ignore] /\
    is_Some (run hd (_itemProcessWrapper h this wrapper options) w).1.1 /\
    (ignore = VBool true <->
       truthy (altKey_of h options) = true /\
       truthy (altRoll_answer hd w h options) = false) /\
    (nullish (get_opt h options "event") = true \/ nullish (altKey_of h options) = true ->
       ignore = VBool false) /\
    (ignore <> VBool true -> truthy ignore = false) /\
    (forall b, altKey_of h options = VBool b ->
       ignore = VBool (b && negb (truthy (altRoll_answer hd w h options)))).
Proof.
  intros Hb. unfold _itemProcessWrapper. rewrite Hb.
  rewrite run_bind, run_item_ignore.
  assert (Hnull : nullish (get_opt h options "event") = true ->
                  nullish (altKey_of h options) = true).
  { unfold altKey_of. destruct (get_opt h options "event"); try discriminate; reflexivity. }
  destruct (truthy (altKey_of h options)) eqn:Halt.
  - exists (VBool (negb (truthy (altRoll_answer hd w h options)))).
    simpl. destruct (hd value (RollItemWrapper _ _ _ _) _) as [r w2]. simpl.
    split; [reflexivity|]. split; [eauto|].
    split; [|split; [|split]].
    + destruct (truthy (altRoll_answer hd w h options)); simpl; split;
        try tauto; try discriminate. intros [_ ?]; discriminate.
    + intros [Hn|Hn]; [apply Hnull in Hn|];
        destruct (altKey_of h options); discriminate.
    + destruct (truthy (altRoll_answer hd w h options)); simpl; congruence.
    + intros b Heq. rewrite Heq in Halt. simpl in Halt. subst b. reflexivity.
  - exists (coalesce (altKey_of h options) (VBool false)).
    simpl. destruct (hd value (RollItemWrapper _ _ _ _) _) as [r w2]. simpl.
    split; [reflexivity|]. split; [eauto|].
    split; [|split; [|split]].
    + split; [|intros [? _]; discriminate].
      intros Heq. unfold coalesce in Heq.
      destruct (altKey_of h options) as [| |[]| | |]; simpl in *; discriminate.
    + intros [Hn|Hn]; [apply Hnull in Hn|]; unfold coalesce; rewrite Hn; reflexivity.
    + intros _. unfold coalesce.
      destruct (altKey_of h options) as [| |[]| | |]; simpl in *; congruence.
    + intros b Heq. rewrite Heq in *. simpl in Halt. subst b. reflexivity.
Qed.

(** The theorems above at concrete options. *)
Lemma item_ignore_flag_witness :
  bypass alt_click (VRef 1) = false /\
  exists ignore,
    ignore_passed (run silent_predicate (_itemProcessWrapper alt_click VNull VNull (VRef 1)) tt).2
      = [ignore] /\
    is_Some (run silent_predicate (_itemProcessWrapper alt_click VNull VNull (VRef 1)) tt).1.1 /\
    (ignore = VBool true <->
       truthy (altKey_of alt_click (VRef 1)) = true /\
       truthy (altRoll_answer silent_predicate tt alt_click (VRef 1)) = false) /\
    (nullish (get_opt alt_click (VRef 1) "event") = true \/
     nullish (altKey_of alt_click (VRef 1)) = true -> ignore = VBool false) /\
    (ignore <> VBool true -> truthy ignore = false) /\
    (forall b, altKey_of alt_click (VRef 1) = VBool b ->
       ignore = VBool (b && negb (truthy (altRoll_answer silent_predicate tt alt_click (VRef 1))))).
Proof.
  split; [reflexivity|].
  apply (item_ignore_flag silent_predicate tt alt_click VNull VNull (VRef 1)).
  reflexivity.
Defined.

Lemma bypass_calls_original_only_witness :
  bypass silent_roll (VRef 0) = true /\
  run silent_predicate (_actorRollSkill silent_roll VNull VNull (VString "ath") (VRef 0)) tt
    = only_original silent_predicate tt VNull VNull [VString "ath"; VRef 0] /\
  run silent_predicate (_actorRollAbilityTest silent_roll VNull VNull (VString "ath") (VRef 0)) tt
    = only_original silent_predicate tt VNull VNull [VString "ath"; VRef 0] /\
  run silent_predicate (_actorRollAbilitySave silent_roll VNull VNull (VString "ath") (VRef 0)) tt
    = only_original silent_predicate tt VNull VNull [VString "ath"; VRef 0] /\
  run silent_predicate (_itemProcessWrapper silent_roll VNull VNull (VRef 0)) tt
    = only_original silent_predicate tt VNull VNull [VRef 0] /\
  run silent_predicate (_itemUse silent_roll VUndefined VNull VNull (VRef 0)) tt
    = only_original silent_predicate tt VNull VNull [VRef (length silent_roll)].
Proof.
  split; [reflexivity|].
  apply (bypass_calls_original_only silent_predicate tt silent_roll
           VNull VNull (VString "ath") (VRef 0) VUndefined).
  reflexivity.
Defined.

Lemma actor_roll_without_event_witness :
  bypass bare_options (VRef 0) = false /\
  nullish (get_opt bare_options (VRef 0) "event") = true /\
  run silent_predicate (_actorRollSkill bare_options VNull VNull (VString "ath") (VRef 0)) tt =
    (Some (VString "skill"), tt,
     [Ev (RollActorWrapper VNull VNull (VRef 0) (VString "ath") (VBool false)) (VString "roll");
      Ev (RollSkill VNull (VString "ath") (VString "roll")) (VString "skill")]).
Proof.
  split; [reflexivity|]. split; [reflexivity|].
  apply (actor_roll_without_event silent_predicate tt bare_options
           VNull VNull (VString "ath") (VRef 0)); reflexivity.
Defined.

End PatchingFacts.

(* ================================================================== *)
(** ** Properties of [_render] *)
(* ================================================================== *)

Module RenderFacts.

Import Card.

(** The fields rendered in a trace, each with the metadata it was rendered
    with and the fragment the renderer answered. *)
Definition rendered (tr : list (event call)) : list (value * metadata * value) :=
  flat_map (fun ev =>
    match ev with
    | Ev e x =>
        match e in call X return X -> list (value * metadata * value) with
        | RenderFromField f m => fun r => [(f, m, r)]
        | _ => fun _ => []
        end x
    end) tr.

(** The hooks fired in a trace. *)
Definition hooks_fired (tr : list (event call)) : list hook :=
  flat_map (fun ev =>
    match ev with
    | Ev e _ =>
        match e with
        | HooksCallAll k _ => [k]
        | _ => []
        end
    end) tr.

Definition metadata_for (q : QuickRoll) (slotLevel : value) (id : Z) : metadata :=
  mkMetadata id (_item q) (_actor q) slotLevel (isCrit q) (isMultiroll q).

(** What the loop of [_render] leaves alone. *)
Definition frame (q : QuickRoll) :=
  (_item q, itemId q, _actor q, actorId q, tokenId q, params q, fields q,
   properties q, isCrit q, isMultiroll q, processed q).

Lemma rendered_app tr1 tr2 : rendered (tr1 ++ tr2) = rendered tr1 ++ rendered tr2.
Proof. unfold rendered. apply flat_map_app. Qed.

Lemma hooks_fired_app tr1 tr2 : hooks_fired (tr1 ++ tr2) = hooks_fired tr1 ++ hooks_fired tr2.
Proof. unfold hooks_fired. apply flat_map_app. Qed.

Section Loop.

Context {W : Type} (hd : handler call W) (h : heap).

Lemma render_fields_run (fs : list value) :
  forall (q : QuickRoll) (w : W) (sl : value),
    get h (params q) "slotLevel" = Some sl ->
    exists q' w' tr,
      run hd (render_fields h fs q) w = (Some q', w', tr) /\
      map fst (rendered tr) =
        imap (fun i f => (f, metadata_for q sl (_currentId q + Z.of_nat i)%Z)) fs /\
      templates q' = templates q ++ map snd (rendered tr) /\
      hooks_fired tr = [] /\
      _currentId q' = (_currentId q + Z.of_nat (length fs))%Z /\
      frame q' = frame q.
Proof.
  induction fs as [|f fs IH]; intros q w sl Hsl.
  - exists q, w, []. simpl. rewrite app_nil_r, Z.add_0_r. repeat split.
  - simpl render_fields. rewrite run_bind. unfold render_field.
    change (params (next_id q)) with (params q). rewrite Hsl. simpl.
    destruct (hd value (RenderFromField f _) w) as [r w1] eqn:Hstep.
    destruct (IH (push_template (next_id q) r) w1 sl Hsl)
      as (q' & w' & tr & Hrun & Hren & Htpl & Hhooks & Hid & Hframe).
    rewrite Hrun. eexists q', w', _. split; [reflexivity|].
    simpl. rewrite Hren, Htpl, Hhooks, Hid, Hframe. simpl.
    rewrite Z.add_0_r, <- app_assoc. simpl.
    repeat split; try reflexivity.
    + f_equal. apply imap_ext. intros i x _. simpl.
      unfold metadata_for; simpl. do 2 f_equal. lia.
    + lia.
Qed.

(** A loop that returns has fired no hook. *)
Lemma render_fields_no_hook (fs : list value) (q q' : QuickRoll) (w w' : W) tr :
  run hd (render_fields h fs q) w = (Some q', w', tr) -> hooks_fired tr = [].
Proof.
  destruct fs as [|f fs]; [simpl; intros [= <- <- <-]; reflexivity|].
  destruct (get h (params q) "slotLevel") as [sl|] eqn:Hsl.
  - destruct (render_fields_run (f :: fs) q w sl Hsl) as (q1 & w1 & tr1 & Hrun & _ & _ & Hh & _).
    rewrite Hrun. intros [= <- <- <-]. exact Hh.
  - simpl. rewrite run_bind. unfold render_field.
    change (params (next_id q)) with (params q). rewrite Hsl. simpl. discriminate.
Qed.

End Loop.

(** The part of [_render] after the loop: the hook, then the full card. *)
Definition finish (q1 : QuickRoll) : prog call (QuickRoll * value) :=
  do _ <- invoke (HooksCallAll HOOK_RENDER q1);
  do html <- invoke (RenderFullCard
                       (mkCard (_item q1) (_actor q1) (tokenId q1) (isCrit q1)
                          (properties q1) (templates q1)));
  Ret (q1, html).

Lemma run_finish {W} (hd : handler call W) (q1 : QuickRoll) (w : W) :
  exists html w' tr,
    run hd (finish q1) w = (Some (q1, html), w', tr) /\
    rendered tr = [] /\ hooks_fired tr = [HOOK_RENDER].
Proof.
  unfold finish. simpl.
  destruct (hd unit _ w) as [u w1].
  destruct (hd value _ w1) as [html w2].
  eexists html, w2, _. split; [reflexivity|]. split; reflexivity.
Qed.

Lemma get_not_nullish (h : heap) (v : value) (k : string) :
  nullish v = false -> exists x, get h v k = Some x.
Proof.
  destruct v; simpl; try discriminate; eauto.
  intros _. destruct (h !! l) as [[|]|]; eauto.
Qed.

(** The part of [_render] before the hook: the loop, on the first call. *)
Definition prepare (h : heap) (q : QuickRoll) : prog call QuickRoll :=
  if negb (processed q)
  then
    do fs <- lift (iterate h (fields q));
    do q' <- render_fields h fs q;
    Ret (set_processed q')
  else Ret q.

Lemma render_unfold (h : heap) (q : QuickRoll) :
  _render h q = bind (prepare h q) finish.
Proof. reflexivity. Qed.

(** Whenever the first part returns, the instance is marked processed and
    no hook has been fired yet. *)
Lemma prepare_run {W} (hd : handler call W) (h : heap) (q qa : QuickRoll) (w wa : W) tra :
  run hd (prepare h q) w = (Some qa, wa, tra) ->
  processed qa = true /\ hooks_fired tra = [].
Proof.
  unfold prepare. destruct (processed q) eqn:Hp; simpl negb; cbv iota.
  - rewrite run_ret. intros [= <- <- <-]. auto.
  - destruct (iterate h (fields q)) as [fs|]; simpl lift; simpl bind at 1; [|discriminate].
    rewrite run_bind.
    destruct (run hd (render_fields h fs q) w) as [[[q'|] w'] tr'] eqn:Hloop; [|discriminate].
    rewrite run_ret. intros [= <- <- <-].
    rewrite app_nil_r. split; [reflexivity|].
    exact (render_fields_no_hook hd h fs q q' w w' tr' Hloop).
Qed.

(** The first call of [_render] on an instance whose fields can be
    iterated and whose parameters are an object. *)
Lemma first_render {W} (hd : handler call W) (w : W) (h : heap) (q : QuickRoll)
    (fs : list value) (sl : value) :
  processed q = false ->
  iterate h (fields q) = Some fs ->
  get h (params q) "slotLevel" = Some sl ->
  exists q' html w' tr,
    run hd (_render h q) w = (Some (q', html), w', tr) /\
    map fst (rendered tr) =
      imap (fun i f => (f, metadata_for q sl (_currentId q + Z.of_nat i)%Z)) fs /\
    templates q' = templates q ++ map snd (rendered tr) /\
    hooks_fired tr = [HOOK_RENDER] /\
    processed q' = true.
Proof.
  intros Hp Hit Hsl. rewrite render_unfold. unfold prepare. rewrite Hp. simpl negb. cbv iota.
  rewrite run_bind, Hit. simpl lift. simpl bind at 1.
  rewrite run_bind.
  destruct (render_fields_run hd h fs q w sl Hsl)
    as (q' & w' & tr & Hrun & Hren & Htpl & Hhooks & _ & _).
  rewrite Hrun. simpl run at 1.
  destruct (run_finish hd (set_processed q') w') as (html & w2 & tr2 & Hfin & Hr2 & Hh2).
  rewrite Hfin. simpl.
  exists (set_processed q'), html, w2, (tr ++ tr2).
  rewrite app_nil_r, rendered_app, hooks_fired_app, Hr2, Hh2, Hhooks, app_nil_r.
  simpl. auto.
Qed.

(** The ids handed to the renderer in a trace, in the order of the calls. *)
Definition render_ids (tr : list (event call)) : list Z :=
  map (fun c => md_id c.1.2) (rendered tr).

(** The fields handed to the renderer in a trace, in the order of the calls. *)
Definition render_order (tr : list (event call)) : list value :=
  map (fun c => c.1.1) (rendered tr).

(** *** A scenario: the card of the specification *)

(** A host that renders a field to the id of its metadata. *)
Definition plain_host : handler call unit :=
  fun X e w =>
    match e in call X return X * unit with
    | ResolveActorOrItem _ => ((VUndefined, VUndefined), tt)
    | RenderFromField _ m => (VNumber (md_id m), tt)
    | HooksCallAll _ _ => (tt, tt)
    | RenderFullCard _ => (VString "<card>", tt)
    | GetVersion => (VString "1.0.0", tt)
    end.

(** The heap with the fields
    [[ ["header", {}], ["damage", { formula: { formula: "2d6+3" } }] ]]
    at location 5 and the default parameters at location 7. *)
Definition scenario_store : heap :=
  [ OPlain ∅;
    OArray [VString "header"; VRef 0];
    OPlain {[ "formula" := VString "2d6+3" ]};
    OPlain {[ "formula" := VRef 2 ]};
    OArray [VString "damage"; VRef 3];
    OArray [VRef 1; VRef 4];
    OPlain ∅;
    OPlain (defaultParams_props (VRef 6)) ].

(** The heap after [new QuickRoll(undefined, undefined, fields)] and the
    instance built. *)
Definition scenario_heap : heap :=
  scenario_store ++
  [ OPlain ∅; OPlain (defaultParams_props (VRef 8)); OPlain ∅ ].

Definition scenario_roll : QuickRoll :=
  mkQuickRoll (-1) VUndefined VUndefined VUndefined VUndefined VUndefined
    (VRef 9) (VRef 5) [] [] (VBool false) (VBool false) false.

(** The instance after its first [_render]. *)
Definition scenario_roll_rendered : QuickRoll :=
  mkQuickRoll 1 VUndefined VUndefined VUndefined VUndefined VUndefined
    (VRef 9) (VRef 5) [VNumber (-1); VNumber 0] [] (VBool false) (VBool false) true.

Example scenario_constructed :
  run plain_host (constructor 2 scenario_store (VRef 7) VUndefined VUndefined (VRef 5)) tt
  = (Some (scenario_heap, scenario_roll), tt, []).
Proof. vm_compute. reflexivity. Qed.

Example scenario_rendered :
  (run plain_host (_render scenario_heap scenario_roll) tt).2 =
  [ Ev (RenderFromField (VRef 1)
          (mkMetadata (-1) VUndefined VUndefined VNull (VBool false) (VBool false)))
       (VNumber (-1));
    Ev (RenderFromField (VRef 4)
          (mkMetadata 0 VUndefined VUndefined VNull (VBool false) (VBool false)))
       (VNumber 0);
    Ev (HooksCallAll HOOK_RENDER scenario_roll_rendered) tt;
    Ev (RenderFullCard
          (mkCard VUndefined VUndefined VUndefined (VBool false) [] [VNumber (-1); VNumber 0]))
       (VString "<card>") ].
Proof. vm_compute. reflexivity. Qed.

(** *** The ids of the fields *)

(** The claim as the specification words it: the ids start at -1 and go
    down (read as weakly as it can be: they never go up), each one unique. *)
Definition ids_never_go_up (ids : list Z) : Prop :=
  forall i j a b, (i < j)%nat -> ids !! i = Some a -> ids !! j = Some b -> (b <= a)%Z.

Definition ids_as_specified {W} (hd : handler call W) (w : W) (h : heap) (q : QuickRoll) : Prop :=
  let ids := render_ids (run hd (_render h q) w).2 in
  head ids = Some (-1)%Z /\ ids_never_go_up ids /\ NoDup ids.

(** C1, as stated, fails: the two fields of the scenario get the ids -1
    and 0. *)
Lemma render_ids_go_up :
  ~ ids_as_specified plain_host tt scenario_heap scenario_roll.
Proof.
  intros (_ & Hdown & _).
  specialize (Hdown 0%nat 1%nat (-1)%Z 0%Z).
  vm_compute in Hdown. apply Hdown; auto.
Qed.

(** C1, amended.  The first call of [_render] on a new instance hands the
    fields to the renderer in their order, the field at index [i] with the
    id [-1 + i]: the ids start at -1 and go up by one, so they are pairwise
    distinct. *)
Theorem render_ids_count_up {W} (hd : handler call W) (w : W) (h : heap) (q : QuickRoll)
    (fs : list value) :
  processed q = false ->
  _currentId q = (-1)%Z ->
  iterate h (fields q) = Some fs ->
  nullish (params q) = false ->
  let tr := (run hd (_render h q) w).2 in
  render_order tr = fs /\
  length (render_ids tr) = length fs /\
  (forall i a, render_ids tr !! i = Some a -> a = (-1 + Z.of_nat i)%Z) /\
  (forall i j a b, (i < j)%nat ->
     render_ids tr !! i = Some a -> render_ids tr !! j = Some b -> (a < b)%Z) /\
  NoDup (render_ids tr).
Proof.
  intros Hp Hid Hit Hpar tr.
  destruct (get_not_nullish h (params q) "slotLevel" Hpar) as [sl Hsl].
  destruct (first_render hd w h q fs sl Hp Hit Hsl)
    as (q' & html & w' & tr' & Hrun & Hren & _).
  subst tr. rewrite Hrun. simpl.
  assert (Hids : render_ids tr' = imap (fun i _ => (-1 + Z.of_nat i)%Z) fs).
  { unfold render_ids.
    rewrite <- (map_map fst (fun c : value * metadata => md_id c.2)), Hren.
    rewrite fmap_imap. apply imap_ext. intros i x _. simpl. rewrite Hid. reflexivity. }
  assert (Hlook : forall i a, render_ids tr' !! i = Some a -> a = (-1 + Z.of_nat i)%Z).
  { intros i a. rewrite Hids, list_lookup_imap.
    destruct (fs !! i); simpl; congruence. }
  split; [|split; [|split; [|split]]].
  - unfold render_order.
    rewrite <- (map_map fst (fun c : value * metadata => c.1)), Hren.
    rewrite fmap_imap. simpl. clear. induction fs; simpl; [reflexivity|].
    f_equal. rewrite <- IHfs at 2. apply imap_ext. reflexivity.
  - rewrite Hids. apply length_imap.
  - exact Hlook.
  - intros i j a b Hij Ha Hb. apply Hlook in Ha, Hb. lia.
  - apply NoDup_alt. intros i j a Ha Hb. apply Hlook in Ha, Hb. lia.
Qed.

Lemma render_ids_count_up_witness :
  processed scenario_roll = false /\
  _currentId scenario_roll = (-1)%Z /\
  iterate scenario_heap (fields scenario_roll) = Some [VRef 1; VRef 4] /\
  nullish (params scenario_roll) = false /\
  render_order (run plain_host (_render scenario_heap scenario_roll) tt).2 = [VRef 1; VRef 4].
Proof.
  split; [reflexivity|]. split; [reflexivity|]. split; [reflexivity|]. split; [reflexivity|].
  apply (render_ids_count_up plain_host tt scenario_heap scenario_roll [VRef 1; VRef 4]);
    reflexivity.
Defined.

(** *** The templates after the first call *)

(** C7. After the first call of [_render] on a new instance the templates
    are the answers of the renderer, one per field and in the order of the
    fields, which is also the order of the calls: the template at index [i]
    is the answer to the call for the field at index [i]. *)
Theorem first_render_templates {W} (hd : handler call W) (w : W) (h : heap) (q : QuickRoll)
    (fs : list value) :
  processed q = false ->
  templates q = [] ->
  iterate h (fields q) = Some fs ->
  nullish (params q) = false ->
  exists q' html w' tr,
    run hd (_render h q) w = (Some (q', html), w', tr) /\
    render_order tr = fs /\
    templates q' = map snd (rendered tr) /\
    length (templates q') = length fs /\
    (forall i f, fs !! i = Some f ->
       exists m t, rendered tr !! i = Some (f, m, t) /\ templates q' !! i = Some t).
Proof.
  intros Hp Htpl Hit Hpar.
  destruct (get_not_nullish h (params q) "slotLevel" Hpar) as [sl Hsl].
  destruct (first_render hd w h q fs sl Hp Hit Hsl)
    as (q' & html & w' & tr & Hrun & Hren & Htpl' & _).
  rewrite Htpl in Htpl'. simpl in Htpl'.
  assert (Hord : render_order tr = fs).
  { unfold render_order.
    rewrite <- (map_map fst (fun c : value * metadata => c.1)), Hren.
    rewrite fmap_imap. simpl. clear. induction fs; simpl; [reflexivity|].
    f_equal. rewrite <- IHfs at 2. apply imap_ext. reflexivity. }
  assert (Hlen : length (rendered tr) = length fs).
  { rewrite <- Hord. unfold render_order. rewrite length_map. reflexivity. }
  exists q', html, w', tr. split; [exact Hrun|]. split; [exact Hord|].
  split; [exact Htpl'|]. split; [rewrite Htpl', length_map; exact Hlen|].
  intros i f Hf.
  destruct (lookup_lt_is_Some_2 (rendered tr) i) as [[[f' m] t] Hc].
  { rewrite Hlen. eapply lookup_lt_Some; eassumption. }
  assert (f' = f).
  { assert (Hi : render_order tr !! i = Some f') by
      (unfold render_order; rewrite list_lookup_fmap, Hc; reflexivity).
    rewrite Hord in Hi. congruence. }
  subst f'. exists m, t. split; [exact Hc|].
  rewrite Htpl', list_lookup_fmap, Hc. reflexivity.
Qed.

Lemma first_render_templates_witness :
  processed scenario_roll = false /\
  templates scenario_roll = [] /\
  iterate scenario_heap (fields scenario_roll) = Some [VRef 1; VRef 4] /\
  nullish (params scenario_roll) = false /\
  exists q' html w' tr,
    run plain_host (_render scenario_heap scenario_roll) tt = (Some (q', html), w', tr) /\
    render_order tr = [VRef 1; VRef 4] /\
    templates q' = map snd (rendered tr) /\
    length (templates q') = 2%nat /\
    (forall i f, [VRef 1; VRef 4] !! i = Some f ->
       exists m t, rendered tr !! i = Some (f, m, t) /\ templates q' !! i = Some t).
Proof.
  split; [reflexivity|]. split; [reflexivity|]. split; [reflexivity|]. split; [reflexivity|].
  apply (first_render_templates plain_host tt scenario_heap scenario_roll [VRef 1; VRef 4]);
    reflexivity.
Defined.

(** *** Rendering twice *)

(** C3. When a call of [_render] has returned, a second call on the
    instance it left returns the same instance, its templates with it,
    without any call to the field renderer; the render hook is fired once by
    each of the two calls. *)
Theorem render_twice {W} (hd : handler call W) (w w1 : W) (h : heap) (q q1 : QuickRoll)
    (html : value) (tr1 : list (event call)) :
  run hd (_render h q) w = (Some (q1, html), w1, tr1) ->
  exists html2 w2 tr2,
    run hd (_render h q1) w1 = (Some (q1, html2), w2, tr2) /\
    rendered tr2 = [] /\
    hooks_fired tr2 = [HOOK_RENDER] /\
    hooks_fired tr1 = [HOOK_RENDER] /\
    processed q1 = true.
Proof.
  intros Hrun1.
  assert (Hfirst : processed q1 = true /\ hooks_fired tr1 = [HOOK_RENDER]).
  { rewrite render_unfold, run_bind in Hrun1.
    destruct (run hd (prepare h q) w) as [[[qa|] wa] tra] eqn:Hprep; [|discriminate].
    destruct (prepare_run hd h q qa w wa tra Hprep) as [Hpa Hha].
    destruct (run_finish hd qa wa) as (html' & w' & tr' & Hfin & _ & Hh).
    rewrite Hfin in Hrun1. injection Hrun1 as <- <- <- <-.
    rewrite hooks_fired_app, Hha, Hh. auto. }
  destruct Hfirst as [Hp1 Hh1].
  destruct (run_finish hd q1 w1) as (html2 & w2 & tr2 & Hfin & Hr2 & Hh2).
  exists html2, w2, tr2.
  rewrite render_unfold, run_bind. unfold prepare. rewrite Hp1. simpl negb. cbv iota.
  rewrite run_ret, Hfin. auto.
Qed.

Lemma render_twice_witness :
  run plain_host (_render scenario_heap scenario_roll) tt =
    (Some (scenario_roll_rendered, VString "<card>"), tt,
     (run plain_host (_render scenario_heap scenario_roll) tt).2) /\
  exists html2 w2 tr2,
    run plain_host (_render scenario_heap scenario_roll_rendered) tt
      = (Some (scenario_roll_rendered, html2), w2, tr2) /\
    rendered tr2 = [] /\
    hooks_fired tr2 = [HOOK_RENDER] /\
    hooks_fired (run plain_host (_render scenario_heap scenario_roll) tt).2 = [HOOK_RENDER] /\
    processed scenario_roll_rendered = true.
Proof.
  split; [reflexivity|].
  apply (render_twice plain_host tt tt scenario_heap scenario_roll scenario_roll_rendered
           (VString "<card>")
           (run plain_host (_render scenario_heap scenario_roll) tt).2).
  reflexivity.
Defined.

End RenderFacts.

(* ================================================================== *)
(** ** Properties of [_getFlags] *)
(* ================================================================== *)

Module FlagsFacts.

Import Host HeapFacts Card.

Lemma heap_extends_insert_fresh (H ext : heap) (l : loc) (o : object) :
  (length H <= l)%nat -> heap_extends H (<[l := o]> (H ++ ext)).
Proof.
  intros Hl l' o' Hl'.
  assert (l' < length H)%nat by (eapply lookup_lt_Some; eassumption).
  rewrite list_lookup_insert_ne by lia.
  apply lookup_app_l_Some. exact Hl'.
Qed.

(** A member read off a new value is itself new. *)
Lemma get_index_fresh (H ext : heap) (v t : value) (i : nat) :
  Forall (object_fresh (length H)) ext ->
  value_fresh (length H) v ->
  get_index (H ++ ext) v i = Some t ->
  value_fresh (length H) t.
Proof.
  intros Hext Hv Hget.
  destruct v as [| | | |s|l]; simpl in Hget; try discriminate;
    try (injection Hget as <-; exact I).
  - injection Hget as <-. unfold one_char. destruct (String.get i s); exact I.
  - simpl in Hv. rewrite lookup_app_r in Hget by lia.
    destruct (ext !! (l - length H)%nat) as [o|] eqn:Ho;
      [|injection Hget as <-; exact I].
    assert (Hfresh : object_fresh (length H) o).
    { rewrite Forall_forall in Hext. apply Hext.
      apply list_elem_of_lookup. eauto. }
    unfold object_fresh in Hfresh. rewrite Forall_forall in Hfresh.
    destruct o as [es|m]; simpl in *.
    + destruct (es !! i) as [x|] eqn:Hx; simpl in Hget; injection Hget as <-; [|exact I].
      apply Hfresh. apply list_elem_of_lookup. eauto.
    + destruct (m !! pretty i) as [x|] eqn:Hx; simpl in Hget; injection Hget as <-; [|exact I].
      apply Hfresh. apply list_elem_of_fmap. exists (pretty i, x).
      split; [reflexivity|]. apply elem_of_map_to_list. exact Hx.
Qed.

Lemma set_prop_inv (H : heap) (v : value) (k : string) (x : value) (H2 : heap) :
  set_prop H v k x = Some H2 ->
  exists l m, v = VRef l /\ H !! l = Some (OPlain m) /\
              H2 = <[l := OPlain (<[k := x]> m)]> H.
Proof.
  unfold set_prop. destruct v as [| | | | |l]; try discriminate.
  destruct (H !! l) as [[es|m]|] eqn:Hl; try discriminate.
  intros [= <-]. eauto.
Qed.

(** The callback of the [map] only adds objects and writes to objects it
    has added. *)
Lemma flatten_field_frame (fuel : nat) (H : heap) (field : value) (H2 : heap) (nf : value) :
  flatten_field fuel H field = Some (H2, nf) -> heap_extends H H2.
Proof.
  unfold flatten_field. intros Hf.
  destruct (deepClone fuel H field) as [[H1 newField]|] eqn:Hc; simpl in Hf; [|discriminate].
  destruct (deepClone_grows _ _ _ _ _ Hc) as (ext & -> & Hnew & Hext).
  destruct (has_roll_formula (H ++ ext) field) as [[|]|]; simpl in Hf; [| |discriminate].
  - destruct (get_index (H ++ ext) newField 1) as [target|] eqn:Ht; simpl in Hf; [|discriminate].
    destruct (get_index (H ++ ext) field 1) as [a|]; simpl in Hf; [|discriminate].
    destruct (get (H ++ ext) a "formula") as [f|]; simpl in Hf; [|discriminate].
    destruct (get (H ++ ext) f "formula") as [x|]; simpl in Hf; [|discriminate].
    destruct (set_prop (H ++ ext) target "formula" x) as [H3|] eqn:Hset; simpl in Hf;
      [|discriminate].
    injection Hf as <- <-.
    apply set_prop_inv in Hset as (lt & m & -> & Hlt & ->).
    apply heap_extends_insert_fresh.
    exact (get_index_fresh H ext newField (VRef lt) 1 Hext Hnew Ht).
  - injection Hf as <- <-. apply heap_extends_app.
Qed.

Lemma map_fields_frame (fuel : nat) (fs : list value) :
  forall H H2 nfs, map_fields fuel H fs = Some (H2, nfs) -> heap_extends H H2.
Proof.
  induction fs as [|f fs IH]; intros H H2 nfs Hm; simpl in Hm.
  - injection Hm as <- <-. apply heap_extends_refl.
  - destruct (flatten_field fuel H f) as [[H1 nf]|] eqn:Hf; simpl in Hm; [|discriminate].
    destruct (map_fields fuel H1 fs) as [[H3 nfs1]|] eqn:Hr; simpl in Hm; [|discriminate].
    injection Hm as <- <-.
    eapply heap_extends_trans; [eapply flatten_field_frame; eassumption|].
    eapply IH; eassumption.
Qed.

Lemma same_shape_refl (fuel : nat) (h : heap) :
  forall v, depth_ok fuel h v = true -> same_shape fuel h h v v.
Proof.
  induction fuel as [|fuel IH]; intros v Hd.
  - destruct v; simpl in *; try reflexivity. discriminate.
  - destruct v as [| | | | |l]; simpl in *; try reflexivity.
    destruct (h !! l) as [[es|m]|]; [| |discriminate]; simpl in Hd.
    + apply Forall2_same_length_lookup_2; [reflexivity|].
      intros i x y Hx Hy. assert (x = y) by congruence. subst y.
      apply IH. rewrite forallb_forall in Hd. apply Hd.
      apply list_elem_of_In. apply list_elem_of_lookup. eauto.
    + intros k. destruct (m !! k) as [x|] eqn:Hk; constructor.
      apply IH. rewrite forallb_forall in Hd. apply Hd.
      apply list_elem_of_In. apply list_elem_of_fmap. exists (k, x).
      split; [reflexivity|]. apply elem_of_map_to_list. exact Hk.
Qed.

Lemma array_elems_extends (h H : heap) (v : value) (fs : list value) :
  heap_extends h H -> array_elems h v = Some fs -> array_elems H v = Some fs.
Proof.
  intros Hext. unfold array_elems. destruct v as [| | | | |l]; try discriminate.
  destruct (h !! l) as [[es|m]|] eqn:Hl; try discriminate.
  rewrite (Hext _ _ Hl). auto.
Qed.

(** What a returning [_getFlags] did: exactly one call, for the version,
    after the fields were mapped in the heap. *)
Lemma getFlags_run {W} (hd : handler call W) (w w' : W) (fuel : nat) (h h' : heap)
    (q : QuickRoll) (fl : flags) tr :
  run hd (_getFlags fuel h q) w = (Some (h', fl), w', tr) ->
  exists fs H1 nfs,
    array_elems h (fields q) = Some fs /\
    map_fields fuel h fs = Some (H1, nfs) /\
    h' = H1 ++ [OArray nfs] /\
    fl_fields fl = VRef (length H1) /\
    tr = [Ev GetVersion (fl_version fl)].
Proof.
  unfold _getFlags. intros Hrun.
  destruct (array_elems h (fields q)) as [fs|]; simpl in Hrun; [|discriminate].
  destruct (map_fields fuel h fs) as [[H1 nfs]|] eqn:Hmap; simpl in Hrun; [|discriminate].
  destruct (hd value GetVersion w) as [v w1]. injection Hrun as <- <- <- <-.
  exists fs, H1, nfs. repeat split; auto.
Qed.

(** A field passes the guard of the callback exactly when its second
    element is a plain object whose [formula] is a plain object with a
    truthy [formula] of its own. *)
Lemma has_roll_formula_true (h : heap) (field : value) :
  has_roll_formula h field = Some true <->
  exists la m lf mf x,
    get_index h field 1 = Some (VRef la) /\
    h !! la = Some (OPlain m) /\ m !! "formula" = Some (VRef lf) /\
    h !! lf = Some (OPlain mf) /\ mf !! "formula" = Some x /\ truthy x = true.
Proof.
  unfold has_roll_formula. split.
  - destruct (get_index h field 1) as [a|]; simpl; [|discriminate].
    destruct (truthy a) eqn:Ha; [|discriminate].
    destruct a as [| | | | |la]; simpl; try discriminate.
    destruct (h !! la) as [[es|m]|] eqn:Hla; simpl; try discriminate.
    destruct (m !! "formula") as [f|] eqn:Hf; simpl; [|discriminate].
    unfold get_opt, get.
    destruct f as [| | | | |lf]; simpl; try discriminate.
    destruct (h !! lf) as [[es'|mf]|] eqn:Hlf; simpl; try discriminate.
    destruct (mf !! "formula") as [x|] eqn:Hx; simpl; [|discriminate].
    intros [= Ht]. exists la, m, lf, mf, x. repeat split; auto.
  - intros (la & m & lf & mf & x & -> & Hla & Hf & Hlf & Hx & Ht). simpl.
    rewrite Hla. simpl. rewrite Hf. simpl.
    unfold get_opt, get. rewrite Hlf. simpl. rewrite Hx. simpl. rewrite Ht. reflexivity.
Qed.

Lemma get_index_ref_extends (h H : heap) (v : value) (i : nat) (l : loc) :
  heap_extends h H -> get_index h v i = Some (VRef l) -> get_index H v i = Some (VRef l).
Proof.
  intros Hext. destruct v as [| | | |s|lv]; simpl; try discriminate.
  - unfold one_char. destruct (String.get i s); discriminate.
  - destruct (h !! lv) as [o|] eqn:Hlv; [|discriminate].
    rewrite (Hext _ _ Hlv). auto.
Qed.

Lemma has_roll_formula_extends (h H : heap) (field : value) :
  heap_extends h H ->
  has_roll_formula h field = Some true -> has_roll_formula H field = Some true.
Proof.
  intros Hext Ht. apply has_roll_formula_true in Ht
    as (la & m & lf & mf & x & Hget & Hla & Hf & Hlf & Hx & Htr).
  apply has_roll_formula_true. exists la, m, lf, mf, x.
  repeat split; auto. eapply get_index_ref_extends; eassumption.
Qed.

(** C10. [_getFlags] assigns to no property of the instance, and a call
    that returns leaves every object that was in the heap as it was: the
    array of the fields has the elements it had, and each field has, nested
    formula object included, the structure it had.  The assignment that
    flattens a formula goes to an object of the copy. *)
Theorem getFlags_leaves_fields {W} (hd : handler call W) (w w' : W) (fuel : nat)
    (h h' : heap) (q : QuickRoll) (fl : flags) (tr : list (event call)) :
  run hd (_getFlags fuel h q) w = (Some (h', fl), w', tr) ->
  heap_extends h h' /\
  array_elems h' (fields q) = array_elems h (fields q) /\
  (forall n field, depth_ok n h field = true -> same_shape n h h' field field) /\
  (forall field, has_roll_formula h field = Some true ->
     has_roll_formula h' field = Some true).
Proof.
  intros Hrun.
  destruct (getFlags_run hd w w' fuel h h' q fl tr Hrun)
    as (fs & H1 & nfs & Harr & Hmap & -> & _ & _).
  assert (Hext : heap_extends h (H1 ++ [OArray nfs])).
  { eapply heap_extends_trans; [eapply map_fields_frame; eassumption|].
    apply heap_extends_app. }
  split; [exact Hext|]. split; [|split].
  - rewrite Harr. eapply array_elems_extends; eassumption.
  - intros n field Hd. eapply same_shape_extends; [exact Hext|].
    apply same_shape_refl. exact Hd.
  - intros field. apply has_roll_formula_extends. exact Hext.
Qed.

(** *** What the serialized fields are *)

(** The right-hand side of the assignment, [field[1].formula.formula]. *)
Definition inner_formula (h : heap) (field : value) : option value :=
  a ← get_index h field 1;
  f ← get h a "formula";
  get h f "formula".

(** The fields [_getFlags] is meant for: nested no deeper than [fuel], with
    a second element on which the guard can be evaluated (it is an object
    whenever it is truthy), and with a roll formula that, when there is one,
    is not itself an object. *)
Definition field_ok (fuel : nat) (h : heap) (field : value) : bool :=
  depth_ok fuel h field &&
  match has_roll_formula h field with
  | Some true =>
      match inner_formula h field with
      | Some (VRef _) | None => false
      | Some _ => true
      end
  | Some false => true
  | None => false
  end.

(** The serialized field [nf] of [field]: when the field passes the guard,
    the second element of [nf] is an object with the keys of the second
    element of the field, whose [formula] is the roll formula [x], and apart
    from that entry [nf] has the structure of the field: it has it in the
    heap where the entry is as the copy [m] had it.  Otherwise [nf] has the
    structure of the field. *)
Definition serialized (fuel : nat) (h h' : heap) (field nf : value) : Prop :=
  match has_roll_formula h field with
  | Some true =>
      exists la mo lt m x,
        get_index h field 1 = Some (VRef la) /\
        h !! la = Some (OPlain mo) /\
        get_index h' nf 1 = Some (VRef lt) /\
        h' !! lt = Some (OPlain (<["formula" := x]> m)) /\
        dom m = dom mo /\
        inner_formula h field = Some x /\
        same_shape fuel h (<[lt := OPlain m]> h') field nf
  | _ => same_shape fuel h h' field nf
  end.

Lemma heap_extends_insert_both (A B : heap) (l : loc) (o : object) :
  heap_extends A B -> heap_extends (<[l := o]> A) (<[l := o]> B).
Proof.
  intros Hext l0 o0 Hl0.
  pose proof (heap_extends_length _ _ Hext) as Hlen.
  destruct (decide (l0 = l)) as [->|Hne].
  - assert (l < length A)%nat.
    { apply lookup_lt_Some in Hl0. rewrite length_insert in Hl0. exact Hl0. }
    rewrite list_lookup_insert_eq in Hl0 by assumption.
    rewrite list_lookup_insert_eq by lia. exact Hl0.
  - rewrite list_lookup_insert_ne in Hl0 by congruence.
    rewrite list_lookup_insert_ne by congruence. auto.
Qed.

Lemma serialized_extends (fuel : nat) (h H2 H3 : heap) (field nf : value) :
  heap_extends H2 H3 -> serialized fuel h H2 field nf -> serialized fuel h H3 field nf.
Proof.
  intros Hext. unfold serialized.
  destruct (has_roll_formula h field) as [[|]|];
    try (apply same_shape_extends; exact Hext).
  intros (la & mo & lt & m & x & Hfield & Hla & Hget & Hlt & Hdom & Hin & Hs).
  exists la, mo, lt, m, x. repeat split; auto.
  - eapply get_index_ref_extends; eassumption.
  - eapply same_shape_extends; [|exact Hs]. apply heap_extends_insert_both. exact Hext.
Qed.

(** The guard reads a field of finite depth the same in a larger heap. *)
Lemma depth_ok_member (fuel : nat) (h : heap) (l : loc) (o : object) (x : value) :
  depth_ok (S fuel) h (VRef l) = true -> h !! l = Some o ->
  x ∈ obj_values o -> depth_ok fuel h x = true.
Proof.
  simpl. intros Hd Hl Hx. rewrite Hl in Hd.
  rewrite forallb_forall in Hd. apply Hd. apply list_elem_of_In. exact Hx.
Qed.

Lemma depth_ok_valid (fuel : nat) (h : heap) (l : loc) :
  depth_ok fuel h (VRef l) = true -> exists fuel' o, fuel = S fuel' /\ h !! l = Some o.
Proof.
  destruct fuel as [|fuel']; simpl; [discriminate|].
  destruct (h !! l) as [o|]; [eauto|discriminate].
Qed.

Lemma get_index_member (h : heap) (l : loc) (o : object) (i : nat) (la : loc) :
  h !! l = Some o -> get_index h (VRef l) i = Some (VRef la) -> VRef la ∈ obj_values o.
Proof.
  intros Hl. simpl. rewrite Hl. destruct o as [es|m]; simpl.
  - destruct (es !! i) as [x|] eqn:Hx; simpl; [|discriminate].
    intros [= ->]. apply list_elem_of_lookup. eauto.
  - destruct (m !! pretty i) as [x|] eqn:Hx; simpl; [|discriminate].
    intros [= ->]. apply list_elem_of_fmap. exists (pretty i, VRef la).
    split; [reflexivity|]. apply elem_of_map_to_list. exact Hx.
Qed.

Lemma get_member (h : heap) (l : loc) (o : object) (k : string) (lf : loc) :
  h !! l = Some o -> get h (VRef l) k = Some (VRef lf) -> VRef lf ∈ obj_values o.
Proof.
  intros Hl. simpl. rewrite Hl. destruct o as [es|m]; simpl; [discriminate|].
  destruct (m !! k) as [x|] eqn:Hx; simpl; [|discriminate].
  intros [= ->]. apply list_elem_of_fmap. exists (k, VRef lf).
  split; [reflexivity|]. apply elem_of_map_to_list. exact Hx.
Qed.

Lemma has_roll_formula_stable (fuel : nat) (h H : heap) (field : value) :
  depth_ok fuel h field = true -> heap_extends h H ->
  has_roll_formula H field = has_roll_formula h field.
Proof.
  intros Hd Hext. unfold has_roll_formula.
  destruct field as [| | | |s|l]; try reflexivity.
  { simpl. unfold one_char. destruct (String.get 1 s); reflexivity. }
  destruct (depth_ok_valid _ _ _ Hd) as (f1 & o & -> & Hl).
  assert (Hidx : get_index H (VRef l) 1 = get_index h (VRef l) 1).
  { simpl. rewrite Hl, (Hext _ _ Hl). reflexivity. }
  rewrite Hidx. destruct (get_index h (VRef l) 1) as [a|] eqn:Ha; [|reflexivity]. simpl.
  destruct a as [| | | | |la]; try reflexivity. simpl.
  pose proof (depth_ok_member _ _ _ _ _ Hd Hl (get_index_member _ _ _ _ _ Hl Ha)) as Hda.
  destruct (depth_ok_valid _ _ _ Hda) as (f2 & oa & -> & Hla).
  rewrite Hla, (Hext _ _ Hla). destruct oa as [es|m]; [reflexivity|]. simpl.
  destruct (bool_decide (is_Some (m !! "formula"))); [|reflexivity]. simpl.
  destruct (m !! "formula") as [fv|] eqn:Hf; simpl; [|reflexivity].
  destruct fv as [| | | | |lf]; try reflexivity.
  assert (Hmem : VRef lf ∈ obj_values (OPlain m)).
  { simpl. apply list_elem_of_fmap. exists ("formula", VRef lf).
    split; [reflexivity|]. apply elem_of_map_to_list. exact Hf. }
  pose proof (depth_ok_member _ _ _ _ _ Hda Hla Hmem) as Hdf.
  destruct (depth_ok_valid _ _ _ Hdf) as (f3 & ofm & -> & Hlf).
  unfold get_opt, get. rewrite Hlf, (Hext _ _ Hlf). reflexivity.
Qed.

Lemma object_fresh_insert (n : nat) (m : gmap string value) (k : string) (x : value) :
  object_fresh n (OPlain m) -> value_fresh n x -> object_fresh n (OPlain (<[k := x]> m)).
Proof.
  unfold object_fresh; simpl. rewrite !Forall_forall. intros Hm Hx v Hv.
  apply list_elem_of_fmap in Hv as [[k' v'] [-> Hkv]]. simpl.
  apply elem_of_map_to_list in Hkv. apply lookup_insert_Some in Hkv as [[_ <-]|[_ Hk]].
  - exact Hx.
  - apply Hm. apply list_elem_of_fmap. exists (k', v').
    split; [reflexivity|]. apply elem_of_map_to_list. exact Hk.
Qed.

(** No value has the structure of an object that holds itself. *)
Lemma no_self_loop (fuel : nat) (h H1 : heap) (l' : loc) (m' : gmap string value) (k : string) :
  H1 !! l' = Some (OPlain m') -> m' !! k = Some (VRef l') ->
  forall v, ~ same_shape fuel h H1 v (VRef l').
Proof.
  intros Hl' Hk. induction fuel as [|fuel IH]; intros v Hs.
  - destruct v; simpl in Hs; try discriminate. exact Hs.
  - destruct v as [| | | | |l0]; simpl in Hs; try discriminate.
    rewrite Hl' in Hs.
    destruct (h !! l0) as [[es|m0]|]; try contradiction.
    specialize (Hs k). rewrite Hk in Hs. inversion Hs as [v0 ? Hv0|]; subst.
    exact (IH v0 Hv0).
Qed.

Lemma shape_dom (R : value -> value -> Prop) (m m' : gmap string value) :
  (forall k, option_Forall2 R (m !! k) (m' !! k)) -> dom m' = dom m.
Proof.
  intros HR. apply set_eq. intros k. rewrite !elem_of_dom.
  specialize (HR k). destruct HR; split; intros [? ?]; eauto; discriminate.
Qed.

(** The second element of the copy of a field whose second element is a
    plain object: a plain object too, and not the copy itself. *)
Lemma shape_second (fuel : nat) (h HH : heap) (field nf : value) (la : loc)
    (m : gmap string value) :
  same_shape fuel h HH field nf ->
  get_index h field 1 = Some (VRef la) ->
  h !! la = Some (OPlain m) ->
  exists lt m',
    get_index HH nf 1 = Some (VRef lt) /\ HH !! lt = Some (OPlain m') /\
    dom m' = dom m /\
    forall o, get_index (<[lt := o]> HH) nf 1 = Some (VRef lt).
Proof.
  intros Hs Hget Hla.
  destruct field as [| | | |s|l]; simpl in Hget; try discriminate.
  { unfold one_char in Hget. destruct (String.get 1 s); discriminate. }
  destruct fuel as [|f]; simpl in Hs; [contradiction|].
  destruct nf as [| | | | |l']; try contradiction.
  destruct (h !! l) as [[es|mo]|] eqn:Hl; try contradiction.
  - destruct (HH !! l') as [[es'|mo']|] eqn:Hl'; try contradiction.
    destruct (es !! 1%nat) as [a|] eqn:Ha; simpl in Hget; [|discriminate].
    injection Hget as ->.
    destruct (Forall2_lookup_l _ _ _ _ _ Hs Ha) as (t' & Ht' & Hst).
    destruct f as [|f']; simpl in Hst; [contradiction|].
    destruct t' as [| | | | |lt]; try contradiction.
    rewrite Hla in Hst.
    destruct (HH !! lt) as [[?|m']|] eqn:Hlt; try contradiction.
    exists lt, m'. simpl. rewrite Hl'. simpl. rewrite Ht'. simpl.
    split; [reflexivity|]. split; [exact Hlt|].
    split; [exact (shape_dom _ _ _ Hst)|].
    intros o. assert (l' <> lt) by congruence.
    rewrite list_lookup_insert_ne by congruence. rewrite Hl'. simpl. rewrite Ht'. reflexivity.
  - destruct (HH !! l') as [[es'|mo']|] eqn:Hl'; try contradiction.
    destruct (mo !! pretty 1%nat) as [a|] eqn:Ha; simpl in Hget; [|discriminate].
    injection Hget as ->.
    pose proof (Hs (pretty 1%nat)) as Hk. rewrite Ha in Hk.
    inversion Hk as [? t' Hst Heq1 Heq2|]; subst. symmetry in Heq2.
    destruct f as [|f'] eqn:Hfuel; simpl in Hst; [contradiction|].
    destruct t' as [| | | | |lt]; try contradiction.
    rewrite Hla in Hst.
    destruct (HH !! lt) as [[?|m']|] eqn:Hlt; try contradiction.
    exists lt, m'. simpl. rewrite Hl'. simpl. rewrite Heq2. simpl.
    split; [reflexivity|]. split; [exact Hlt|].
    split; [exact (shape_dom _ _ _ Hst)|].
    intros o. assert (l' <> lt).
    { intros ->. apply (no_self_loop (S f') h HH lt mo' (pretty 1%nat) Hl' Heq2 (VRef la)).
      simpl. rewrite Hla, Hlt. exact Hst. }
    rewrite list_lookup_insert_ne by congruence. rewrite Hl'. simpl. rewrite Heq2. reflexivity.
Qed.

Lemma field_ok_inv (fuel : nat) (h : heap) (field : value) :
  field_ok fuel h field = true ->
  depth_ok fuel h field = true /\
  (has_roll_formula h field = Some false \/
   has_roll_formula h field = Some true /\
   exists x, inner_formula h field = Some x /\ value_fresh (length h) x /\
             forall n, value_fresh n x).
Proof.
  unfold field_ok. intros Hok. apply andb_true_iff in Hok as [Hd Hg].
  split; [exact Hd|].
  destruct (has_roll_formula h field) as [[|]|]; [|auto|discriminate].
  right. split; [reflexivity|].
  destruct (inner_formula h field) as [x|]; [|discriminate].
  exists x. destruct x; try discriminate; simpl; auto.
Qed.

(** The callback of the [map] on a field as above, in a heap [H] that
    still holds the field as [h] has it. *)
Lemma flatten_field_spec (fuel : nat) (h H : heap) (field : value) :
  field_ok fuel h field = true -> heap_extends h H ->
  exists ext nf,
    flatten_field fuel H field = Some (H ++ ext, nf) /\
    Forall (object_fresh (length H)) ext /\
    value_fresh (length H) nf /\
    serialized fuel h (H ++ ext) field nf.
Proof.
  intros Hok Hext.
  destruct (field_ok_inv _ _ _ Hok) as [Hd Hguard].
  destruct (deepClone_copies fuel h H field Hd Hext) as (H1 & nf & Hc & Hs).
  destruct (deepClone_grows _ _ _ _ _ Hc) as (ext & -> & Hnf & Hfresh).
  assert (HextH : heap_extends h (H ++ ext)).
  { eapply heap_extends_trans; [exact Hext|apply heap_extends_app]. }
  unfold flatten_field. rewrite Hc. simpl.
  rewrite (has_roll_formula_stable fuel h (H ++ ext) field Hd HextH).
  destruct Hguard as [Hg|[Hg (x & Hin & _ & Hx)]].
  - rewrite Hg. simpl. exists ext, nf. repeat split; auto.
    unfold serialized. rewrite Hg. exact Hs.
  - rewrite Hg. simpl.
    pose proof Hg as Hg0.
    apply has_roll_formula_true in Hg
      as (la & m & lf & mf & x' & Hget & Hla & Hf & Hlf & Hx' & Htr).
    assert (x' = x) as ->.
    { unfold inner_formula in Hin. rewrite Hget in Hin. simpl in Hin.
      rewrite Hla in Hin. simpl in Hin. rewrite Hf in Hin. simpl in Hin.
      rewrite Hlf in Hin. simpl in Hin. rewrite Hx' in Hin. simpl in Hin. congruence. }
    destruct (shape_second fuel h (H ++ ext) field nf la m Hs Hget Hla)
      as (lt & m' & Htarget & Hlt & Hdom & Hkeep).
    rewrite Htarget. simpl.
    rewrite (get_index_ref_extends h (H ++ ext) field 1 la HextH Hget). simpl.
    rewrite (HextH _ _ Hla). simpl. rewrite Hf. simpl.
    rewrite (HextH _ _ Hlf). simpl. rewrite Hx'. simpl.
    rewrite Hlt. simpl.
    assert (Hge : (length H <= lt)%nat)
      by exact (get_index_fresh H ext nf (VRef lt) 1 Hfresh Hnf Htarget).
    assert (Hltlen : (lt < length (H ++ ext))%nat) by (eapply lookup_lt_Some; eassumption).
    rewrite insert_app_r_alt by exact Hge.
    eexists _, nf. split; [reflexivity|].
    assert (Hm' : object_fresh (length H) (OPlain m')).
    { rewrite lookup_app_r in Hlt by exact Hge.
      rewrite Forall_forall in Hfresh. apply Hfresh.
      apply list_elem_of_lookup. eauto. }
    split; [|split].
    + apply Forall_insert; [exact Hfresh|].
      apply object_fresh_insert; [exact Hm'|apply Hx].
    + exact Hnf.
    + rewrite <- insert_app_r_alt by exact Hge.
      unfold serialized. rewrite Hg0. exists la, m, lt, m', x.
      split; [exact Hget|]. split; [exact Hla|].
      split; [apply Hkeep|]. split; [|split; [|split]].
      * apply list_lookup_insert_eq. exact Hltlen.
      * exact Hdom.
      * exact Hin.
      * rewrite list_insert_insert_eq. rewrite list_insert_id by exact Hlt. exact Hs.
Qed.

Lemma map_fields_spec (fuel : nat) (h : heap) (fs : list value) :
  forallb (field_ok fuel h) fs = true ->
  forall H, heap_extends h H ->
    exists ext nfs,
      map_fields fuel H fs = Some (H ++ ext, nfs) /\
      Forall (object_fresh (length H)) ext /\
      Forall (value_fresh (length H)) nfs /\
      Forall2 (serialized fuel h (H ++ ext)) fs nfs.
Proof.
  induction fs as [|f fs IH]; intros Hok H Hext; simpl in *.
  - exists [], []. rewrite app_nil_r. repeat split; constructor.
  - apply andb_true_iff in Hok as [Hf Hfs].
    destruct (flatten_field_spec fuel h H f Hf Hext) as (e1 & nf & Hflat & He1 & Hnf & Hser).
    rewrite Hflat. simpl.
    destruct (IH Hfs (H ++ e1)) as (e2 & nfs & Hmap & He2 & Hnfs & Hsers).
    { eapply heap_extends_trans; [exact Hext|apply heap_extends_app]. }
    rewrite Hmap. simpl.
    assert (Hle : (length H <= length (H ++ e1))%nat) by (rewrite length_app; lia).
    exists (e1 ++ e2), (nf :: nfs). rewrite app_assoc. split; [reflexivity|].
    split; [|split].
    + apply Forall_app. split; [exact He1|].
      eapply Forall_impl; [exact He2|]. intros o. apply object_fresh_mono. exact Hle.
    + constructor; [exact Hnf|].
      eapply Forall_impl; [exact Hnfs|]. intros v. apply value_fresh_mono. exact Hle.
    + constructor; [|exact Hsers].
      eapply serialized_extends; [apply heap_extends_app|exact Hser].
Qed.

(** A field whose second element is [{ formula: { formula: s } }] for a
    non-empty string [s] is serialized with [{ formula: s }] as its second
    element. *)
Lemma serialized_formula_string (fuel : nat) (h h' : heap) (field nf : value)
    (la lf : loc) (s : string) :
  serialized fuel h h' field nf ->
  get_index h field 1 = Some (VRef la) ->
  h !! la = Some (OPlain {[ "formula" := VRef lf ]}) ->
  h !! lf = Some (OPlain {[ "formula" := VString s ]}) ->
  s <> "" ->
  exists lt, get_index h' nf 1 = Some (VRef lt) /\
             h' !! lt = Some (OPlain {[ "formula" := VString s ]}).
Proof.
  intros Hser Hget Hla Hlf Hs.
  assert (Hg : has_roll_formula h field = Some true).
  { apply has_roll_formula_true.
    exists la, {[ "formula" := VRef lf ]}, lf, {[ "formula" := VString s ]}, (VString s).
    repeat split; auto; try apply lookup_singleton_eq.
    simpl. destruct s; [congruence|reflexivity]. }
  unfold serialized in Hser. rewrite Hg in Hser.
  destruct Hser as (la' & mo & lt & m & x & Hget' & Hla' & Htarget & Hlt & Hdom & Hin & _).
  rewrite Hget in Hget'. injection Hget' as <-.
  rewrite Hla in Hla'. injection Hla' as <-.
  assert (x = VString s) as ->.
  { unfold inner_formula in Hin. rewrite Hget in Hin. simpl in Hin.
    rewrite Hla in Hin. simpl in Hin. rewrite lookup_singleton_eq in Hin. simpl in Hin.
    rewrite Hlf in Hin. simpl in Hin. rewrite lookup_singleton_eq in Hin. simpl in Hin.
    congruence. }
  exists lt. split; [exact Htarget|]. rewrite Hlt. do 2 f_equal.
  apply map_eq. intros k. destruct (decide (k = "formula")) as [->|Hne].
  - rewrite lookup_insert_eq, lookup_singleton_eq. reflexivity.
  - rewrite lookup_insert_ne, lookup_singleton_ne by congruence.
    apply not_elem_of_dom. rewrite Hdom, dom_singleton_L. set_solver.
Qed.

(** C4, amended. On fields as above [_getFlags] returns, after its one call for
    the version.  The fields of the flags are a new array with one element
    per field: for a field that passes the guard, a second element with a
    truthy [formula.formula], the serialized field is the copy with that
    nested object replaced by the formula itself (so [{ formula: { formula:
    s } }] becomes [{ formula: s }] for a string [s] such as ["1d20+5"]),
    and for any other field
    it has the structure of the field.  Everything in the result is new: the
    heap is the old heap with objects appended, none of which holds a
    reference to an old object, and no serialized field is an old
    reference. *)
Theorem getFlags_serializes {W} (hd : handler call W) (w : W) (fuel : nat) (h : heap)
    (q : QuickRoll) (fs : list value) :
  array_elems h (fields q) = Some fs ->
  forallb (field_ok fuel h) fs = true ->
  exists h' fl w' nfs,
    run hd (_getFlags fuel h q) w = (Some (h', fl), w', [Ev GetVersion (fl_version fl)]) /\
    array_elems h' (fl_fields fl) = Some nfs /\
    Forall2 (serialized fuel h h') fs nfs /\
    (forall i field nf la lf s,
       fs !! i = Some field -> nfs !! i = Some nf ->
       get_index h field 1 = Some (VRef la) ->
       h !! la = Some (OPlain {[ "formula" := VRef lf ]}) ->
       h !! lf = Some (OPlain {[ "formula" := VString s ]}) ->
       s <> "" ->
       exists lt, get_index h' nf 1 = Some (VRef lt) /\
                  h' !! lt = Some (OPlain {[ "formula" := VString s ]})) /\
    (exists ext, h' = h ++ ext /\ Forall (object_fresh (length h)) ext) /\
    Forall (value_fresh (length h)) nfs /\
    value_fresh (length h) (fl_fields fl).
Proof.
  intros Harr Hok.
  destruct (map_fields_spec fuel h fs Hok h (heap_extends_refl h))
    as (ext & nfs & Hmap & Hfresh & Hnfs & Hser).
  unfold _getFlags. rewrite Harr. simpl. rewrite Hmap. simpl.
  destruct (hd value GetVersion w) as [v w1] eqn:Hv.
  assert (Hser' : Forall2 (serialized fuel h ((h ++ ext) ++ [OArray nfs])) fs nfs).
  { eapply Forall2_impl; [exact Hser|].
    intros f nf. apply serialized_extends, heap_extends_app. }
  exists ((h ++ ext) ++ [OArray nfs]),
    (mkFlags v (actorId q) (itemId q) (tokenId q) (isCrit q) (properties q) (params q)
       (VRef (length (h ++ ext))) (VBool true)), w1, nfs.
  split; [reflexivity|]. simpl.
  split; [|split; [|split; [|split; [|split]]]].
  - rewrite lookup_app_r by lia. rewrite Nat.sub_diag. reflexivity.
  - exact Hser'.
  - intros i field nf la lf s Hi Hni Hget Hla Hlf Hs.
    eapply serialized_formula_string; try eassumption.
    eapply Forall2_lookup_lr; eassumption.
  - exists (ext ++ [OArray nfs]). rewrite app_assoc. split; [reflexivity|].
    apply Forall_app. split; [exact Hfresh|]. constructor; [exact Hnfs|constructor].
  - exact Hnfs.
  - rewrite length_app. lia.
Qed.

(** *** The scenario of the specification *)

(** The heap after [_getFlags] on the instance of the scenario: the copies
    of the two fields and the array of the flags are appended, and location
    14, the second element of the copy of the damage field, holds the
    formula itself. *)
Definition scenario_flags_heap : heap :=
  RenderFacts.scenario_heap ++
  [ OPlain ∅;
    OArray [VString "header"; VRef 11];
    OPlain {[ "formula" := VString "2d6+3" ]};
    OPlain {[ "formula" := VString "2d6+3" ]};
    OArray [VString "damage"; VRef 14];
    OArray [VRef 12; VRef 15] ].

Definition scenario_flags : flags :=
  mkFlags (VString "1.0.0") VUndefined VUndefined VUndefined (VBool false) []
    (VRef 9) (VRef 16) (VBool true).

Example scenario_getFlags :
  run RenderFacts.plain_host (_getFlags 3 RenderFacts.scenario_heap RenderFacts.scenario_roll) tt
  = (Some (scenario_flags_heap, scenario_flags), tt, [Ev GetVersion (VString "1.0.0")]).
Proof. vm_compute. reflexivity. Qed.

Lemma getFlags_serializes_witness :
  array_elems RenderFacts.scenario_heap (fields RenderFacts.scenario_roll)
    = Some [VRef 1; VRef 4] /\
  forallb (field_ok 3 RenderFacts.scenario_heap) [VRef 1; VRef 4] = true /\
  exists h' fl w' nfs,
    run RenderFacts.plain_host
      (_getFlags 3 RenderFacts.scenario_heap RenderFacts.scenario_roll) tt
      = (Some (h', fl), w', [Ev GetVersion (fl_version fl)]) /\
    array_elems h' (fl_fields fl) = Some nfs /\
    Forall2 (serialized 3 RenderFacts.scenario_heap h') [VRef 1; VRef 4] nfs /\
    (forall i field nf la lf s,
       [VRef 1; VRef 4] !! i = Some field -> nfs !! i = Some nf ->
       get_index RenderFacts.scenario_heap field 1 = Some (VRef la) ->
       RenderFacts.scenario_heap !! la = Some (OPlain {[ "formula" := VRef lf ]}) ->
       RenderFacts.scenario_heap !! lf = Some (OPlain {[ "formula" := VString s ]}) ->
       s <> "" ->
       exists lt, get_index h' nf 1 = Some (VRef lt) /\
                  h' !! lt = Some (OPlain {[ "formula" := VString s ]})) /\
    (exists ext, h' = RenderFacts.scenario_heap ++ ext /\
                 Forall (object_fresh (length RenderFacts.scenario_heap)) ext) /\
    Forall (value_fresh (length RenderFacts.scenario_heap)) nfs /\
    value_fresh (length RenderFacts.scenario_heap) (fl_fields fl).
Proof.
  split; [reflexivity|]. split; [vm_compute; reflexivity|].
  apply (getFlags_serializes RenderFacts.plain_host tt 3 RenderFacts.scenario_heap
           RenderFacts.scenario_roll [VRef 1; VRef 4]).
  - reflexivity.
  - vm_compute; reflexivity.
Defined.

Lemma getFlags_leaves_fields_witness :
  run RenderFacts.plain_host (_getFlags 3 RenderFacts.scenario_heap RenderFacts.scenario_roll) tt
    = (Some (scenario_flags_heap, scenario_flags), tt, [Ev GetVersion (VString "1.0.0")]) /\
  heap_extends RenderFacts.scenario_heap scenario_flags_heap /\
  array_elems scenario_flags_heap (fields RenderFacts.scenario_roll)
    = array_elems RenderFacts.scenario_heap (fields RenderFacts.scenario_roll) /\
  (forall n field, depth_ok n RenderFacts.scenario_heap field = true ->
     same_shape n RenderFacts.scenario_heap scenario_flags_heap field field) /\
  (forall field, has_roll_formula RenderFacts.scenario_heap field = Some true ->
     has_roll_formula scenario_flags_heap field = Some true).
Proof.
  split; [vm_compute; reflexivity|].
  apply (getFlags_leaves_fields RenderFacts.plain_host tt tt 3 RenderFacts.scenario_heap
           scenario_flags_heap RenderFacts.scenario_roll scenario_flags
           [Ev GetVersion (VString "1.0.0")]).
  vm_compute; reflexivity.
Defined.

(** *** The claim on fields of any kind *)

(** The shape the specification names: a second element with a [formula]
    object that has a [formula] string of its own. *)
Definition claimed_shape (h : heap) (field : value) (s : string) : Prop :=
  exists la m lf mf,
    get_index h field 1 = Some (VRef la) /\
    h !! la = Some (OPlain m) /\ m !! "formula" = Some (VRef lf) /\
    h !! lf = Some (OPlain mf) /\ mf !! "formula" = Some (VString s).

(** The claim as the specification words it, for any instance: the call
    returns flags whose fields are one per field; a field of the shape above
    has the formula of its second element replaced by the string; any other
    field is copied with its structure; and the copies share no reference
    with what was there. *)
Definition serializes_as_specified {W} (hd : handler call W) (w : W) (fuel : nat)
    (h : heap) (q : QuickRoll) : Prop :=
  exists fs h' fl w' tr nfs,
    array_elems h (fields q) = Some fs /\
    run hd (_getFlags fuel h q) w = (Some (h', fl), w', tr) /\
    array_elems h' (fl_fields fl) = Some nfs /\
    length nfs = length fs /\
    (forall i field nf s,
       fs !! i = Some field -> nfs !! i = Some nf -> claimed_shape h field s ->
       exists lt m, get_index h' nf 1 = Some (VRef lt) /\
                    h' !! lt = Some (OPlain m) /\ m !! "formula" = Some (VString s)) /\
    (forall i field nf,
       fs !! i = Some field -> nfs !! i = Some nf ->
       (forall s, ~ claimed_shape h field s) -> same_shape fuel h h' field nf) /\
    (exists ext, h' = h ++ ext /\ Forall (object_fresh (length h)) ext) /\
    Forall (value_fresh (length h)) nfs.

Definition roll_of_fields (fields : value) : QuickRoll :=
  mkQuickRoll (-1) VUndefined VUndefined VUndefined VUndefined VUndefined
    VUndefined fields [] [] (VBool false) (VBool false) false.

(** The fields [[ ["header", "Fire Bolt"] ]] at location 1: the second
    element of the field is a text. *)
Definition plain_text_store : heap :=
  [ OArray [VString "header"; VString "Fire Bolt"]; OArray [VRef 0] ].

(** The fields [[ ["damage", { formula: { formula: { terms: 2 } } }] ]] at
    location 4: the roll formula, at location 0, is an object. *)
Definition object_formula_store : heap :=
  [ OPlain {[ "terms" := VNumber 2 ]};
    OPlain {[ "formula" := VRef 0 ]};
    OPlain {[ "formula" := VRef 1 ]};
    OArray [VString "damage"; VRef 2];
    OArray [VRef 3] ].

(** What [_getFlags] appends to it: location 7, the second element of the
    copy, holds the object at location 0 itself. *)
Definition object_formula_added : heap :=
  [ OPlain {[ "terms" := VNumber 2 ]};
    OPlain {[ "formula" := VRef 5 ]};
    OPlain {[ "formula" := VRef 0 ]};
    OArray [VString "damage"; VRef 7];
    OArray [VRef 8] ].

(** The fields [[ ["damage", { formula: { formula: "" } }] ]] at location
    3: the roll formula is the empty string. *)
Definition empty_formula_store : heap :=
  [ OPlain {[ "formula" := VString "" ]};
    OPlain {[ "formula" := VRef 0 ]};
    OArray [VString "damage"; VRef 1];
    OArray [VRef 2] ].

(** What [_getFlags] appends to it: the copy, as nested as the field. *)
Definition empty_formula_added : heap :=
  [ OPlain {[ "formula" := VString "" ]};
    OPlain {[ "formula" := VRef 4 ]};
    OArray [VString "damage"; VRef 5];
    OArray [VRef 6] ].

(** A field that holds itself: [f = ["header", f]] at location 0, the
    fields [[f]] at location 1. *)
Definition cyclic_store : heap :=
  [ OArray [VString "header"; VRef 0]; OArray [VRef 0] ].

Definition flags_of (fields : value) : flags :=
  mkFlags (VString "1.0.0") VUndefined VUndefined VUndefined (VBool false) []
    VUndefined fields (VBool true).

Example plain_text_getFlags :
  run RenderFacts.plain_host (_getFlags 3 plain_text_store (roll_of_fields (VRef 1))) tt
  = (None, tt, []).
Proof. vm_compute. reflexivity. Qed.

Example object_formula_getFlags :
  run RenderFacts.plain_host (_getFlags 4 object_formula_store (roll_of_fields (VRef 4))) tt
  = (Some (object_formula_store ++ object_formula_added, flags_of (VRef 9)), tt,
     [Ev GetVersion (VString "1.0.0")]).
Proof. vm_compute. reflexivity. Qed.

Example empty_formula_getFlags :
  run RenderFacts.plain_host (_getFlags 3 empty_formula_store (roll_of_fields (VRef 3))) tt
  = (Some (empty_formula_store ++ empty_formula_added, flags_of (VRef 7)), tt,
     [Ev GetVersion (VString "1.0.0")]).
Proof. vm_compute. reflexivity. Qed.

(** No amount of fuel copies the field that holds itself. *)
Lemma cyclic_deepClone (fuel : nat) : deepClone fuel cyclic_store (VRef 0) = None.
Proof.
  induction fuel as [|fuel IH]; [reflexivity|].
  cbn [deepClone]. change (cyclic_store !! 0%nat) with (Some (OArray [VString "header"; VRef 0])).
  cbv beta iota. cbn [clone_list].
  assert (Hs : deepClone fuel cyclic_store (VString "header")
               = Some (cyclic_store, VString "header")) by (destruct fuel; reflexivity).
  rewrite Hs, IH. reflexivity.
Qed.

Lemma cyclic_getFlags (fuel : nat) :
  run RenderFacts.plain_host (_getFlags fuel cyclic_store (roll_of_fields (VRef 1))) tt
  = (None, tt, []).
Proof.
  unfold _getFlags.
  change (array_elems cyclic_store (fields (roll_of_fields (VRef 1)))) with (Some [VRef 0]).
  cbn [lift bind map_fields]. unfold flatten_field. rewrite cyclic_deepClone. reflexivity.
Qed.

(** C4, as stated for every instance, fails in four ways.  With a text as
    the second element of a field the call throws; an object as roll formula
    is put into the copy as it is, so that the copy shares it with the
    field; an empty string as roll formula is not put in the place of its
    object; and a field that holds itself cannot be copied, however far the
    copy goes. *)
Lemma getFlags_not_as_specified :
  ~ serializes_as_specified RenderFacts.plain_host tt 3 plain_text_store
      (roll_of_fields (VRef 1)) /\
  ~ serializes_as_specified RenderFacts.plain_host tt 4 object_formula_store
      (roll_of_fields (VRef 4)) /\
  ~ serializes_as_specified RenderFacts.plain_host tt 3 empty_formula_store
      (roll_of_fields (VRef 3)) /\
  (forall fuel,
     ~ serializes_as_specified RenderFacts.plain_host tt fuel cyclic_store
         (roll_of_fields (VRef 1))).
Proof.
  split; [|split; [|split]].
  - intros (fs & h' & fl & w' & tr & nfs & _ & Hrun & _).
    rewrite plain_text_getFlags in Hrun. discriminate.
  - intros (fs & h' & fl & w' & tr & nfs & _ & Hrun & _ & _ & _ & _ & (ext & Hh' & Hnew) & _).
    rewrite object_formula_getFlags in Hrun. injection Hrun as <- _ _ _.
    change (object_formula_store ++ object_formula_added = object_formula_store ++ ext)
      in Hh'.
    apply app_inv_head in Hh'. subst ext.
    apply (Forall_lookup_1 _ _ 2%nat (OPlain {[ "formula" := VRef 0 ]})) in Hnew;
      [|reflexivity].
    unfold object_fresh in Hnew. simpl in Hnew. rewrite map_to_list_singleton in Hnew.
    apply Forall_inv in Hnew. simpl in Hnew. lia.
  - intros (fs & h' & fl & w' & tr & nfs & Harr & Hrun & Hnfs & _ & Hflat & _).
    rewrite empty_formula_getFlags in Hrun. injection Hrun as <- <- _ _.
    injection Harr as <-. injection Hnfs as <-.
    destruct (Hflat 0%nat (VRef 2) (VRef 6) "" eq_refl eq_refl) as (lt & m & Hget & Hlt & Hm).
    { exists 1%nat, {[ "formula" := VRef 0 ]}, 0%nat, {[ "formula" := VString "" ]}.
      repeat split; reflexivity. }
    injection Hget as <-. injection Hlt as <-.
    rewrite lookup_singleton_eq in Hm. discriminate.
  - intros fuel (fs & h' & fl & w' & tr & nfs & _ & Hrun & _).
    rewrite cyclic_getFlags in Hrun. discriminate.
Qed.

End FlagsFacts.

(* ================================================================== *)
(** ** Properties of the constructor *)
(* ================================================================== *)

Module ConstructorFacts.

Import Host HeapFacts Card.

(** A value of the heap [h]: a primitive, or a reference to one of its
    objects. *)
Definition within (h : heap) (v : value) : bool :=
  match v with
  | VRef l => bool_decide (l < length h)%nat
  | _ => true
  end.

(** The parameters a caller may pass: nothing (any falsy value), or an
    object of the heap whose members are values of the heap. *)
Definition params_ok (h : heap) (params : value) : bool :=
  negb (truthy params) ||
  match params with
  | VRef l =>
      match h !! l with
      | Some o => forallb (within h) (obj_values o)
      | None => false
      end
  | _ => false
  end.

(** The keys the caller supplies, with their values. *)
Definition caller_props (h : heap) (params : value) : gmap string value :=
  match params with
  | VRef l =>
      match h !! l with
      | Some o => own_props o
      | None => ∅
      end
  | _ => ∅
  end.

(** The entries of a plain object, none for any other value. *)
Definition props_of (h : heap) (v : value) : gmap string value :=
  match v with
  | VRef l =>
      match h !! l with
      | Some (OPlain m) => m
      | _ => ∅
      end
  | _ => ∅
  end.

(** The default parameters overridden by the keys of the caller.  The one
    default that is an object, [useCharge], kept at [useCharge], is not
    replaced by a plain object of the caller: the entries of that object are
    merged into it instead (see [merged_useCharge]). *)
Definition merged_params (h : heap) (useCharge : value) (caller : gmap string value)
  : gmap string value :=
  (if is_plain h (default VUndefined (caller !! "useCharge"))
   then delete "useCharge" caller
   else caller) ∪ defaultParams_props useCharge.

Definition merged_useCharge (h : heap) (caller : gmap string value) : gmap string value :=
  props_of h (default VUndefined (caller !! "useCharge")).

(** The module-level variable [defaultParams] holds the literal. *)
Definition defaults_at (h : heap) (dp uc : loc) : Prop :=
  h !! dp = Some (OPlain (defaultParams_props (VRef uc))) /\ h !! uc = Some (OPlain ∅).

(** Loading the module leaves the literal at the two locations it
    allocates. *)
Lemma module_init_defaults (h : heap) :
  module_init h =
    (h ++ [OPlain ∅; OPlain (defaultParams_props (VRef (length h)))],
     VRef (S (length h))) /\
  defaults_at (module_init h).1 (S (length h)) (length h).
Proof.
  unfold module_init, alloc. simpl.
  rewrite <- app_assoc, length_app. simpl. rewrite Nat.add_1_r.
  split; [reflexivity|]. split.
  - rewrite lookup_app_r by lia.
    replace (S (length h) - length h)%nat with 1%nat by lia. reflexivity.
  - apply list_lookup_middle. reflexivity.
Qed.

(** *** The copy of the defaults *)

Lemma defaults_to_list (v : value) :
  map_to_list (defaultParams_props v) =
  [ ("slotLevel", VNull); ("consume", VBool true); ("useCharge", v);
    ("infoOnly", VBool false); ("forceCrit", VBool false);
    ("forceMultiroll", VBool false); ("label", VString "");
    ("hasAdvantage", VBool false); ("hasDisadvantage", VBool false);
    ("properties", VBool true); ("preset", VNull); ("placeTemplate", VBool false) ].
Proof. vm_compute. reflexivity. Qed.

Lemma defaults_of_list (v : value) :
  (list_to_map
     [ ("slotLevel", VNull); ("consume", VBool true); ("useCharge", v);
       ("infoOnly", VBool false); ("forceCrit", VBool false);
       ("forceMultiroll", VBool false); ("label", VString "");
       ("hasAdvantage", VBool false); ("hasDisadvantage", VBool false);
       ("properties", VBool true); ("preset", VNull); ("placeTemplate", VBool false) ]
   : gmap string value) = defaultParams_props v.
Proof. vm_compute. reflexivity. Qed.

Lemma duplicate_defaults (fuel : nat) (h : heap) (dp uc : loc) :
  defaults_at h dp uc ->
  duplicate (S (S fuel)) h (VRef dp) =
  Some (h ++ [OPlain ∅; OPlain (defaultParams_props (VRef (length h)))],
        VRef (S (length h))).
Proof.
  intros [Hdp Huc]. unfold duplicate. simpl. rewrite Hdp.
  rewrite defaults_to_list. unfold clone_props. simpl. rewrite Huc.
  rewrite map_to_list_empty. unfold clone_props. simpl.
  unfold alloc. rewrite length_app. simpl. rewrite Nat.add_1_r.
  rewrite <- app_assoc. simpl.
  rewrite <- (defaults_of_list (VRef (length h))). reflexivity.
Qed.

(** *** The merge into the copy *)

Lemma lookup_at_end (h : heap) (a : object) (r : heap) :
  (h ++ a :: r) !! length h = Some a.
Proof. apply list_lookup_middle. reflexivity. Qed.

Lemma lookup_after_end (h : heap) (a b : object) (r : heap) :
  (h ++ a :: b :: r) !! S (length h) = Some b.
Proof.
  rewrite lookup_app_r by lia.
  replace (S (length h) - length h)%nat with 1%nat by lia. reflexivity.
Qed.

Lemma insert_at_end (h : heap) (a x : object) (r : heap) :
  <[length h := x]> (h ++ a :: r) = h ++ x :: r.
Proof. rewrite insert_app_r_alt by lia. rewrite Nat.sub_diag. reflexivity. Qed.

Lemma insert_after_end (h : heap) (a b x : object) (r : heap) :
  <[S (length h) := x]> (h ++ a :: b :: r) = h ++ a :: x :: r.
Proof.
  rewrite insert_app_r_alt by lia.
  replace (S (length h) - length h)%nat with 1%nat by lia. reflexivity.
Qed.

Lemma is_plain_within (h ext : heap) (v : value) :
  within h v = true -> is_plain (h ++ ext) v = is_plain h v.
Proof.
  destruct v as [| | | | |l]; simpl; try reflexivity.
  intros Hl. apply bool_decide_eq_true in Hl.
  rewrite lookup_app_l by exact Hl. reflexivity.
Qed.

Lemma foldl_insert_all (m : gmap string value) :
  foldl insert_entry ∅ (map_to_list m) = m.
Proof.
  apply map_eq. intros k.
  rewrite foldl_insert_lookup by apply NoDup_fst_map_to_list.
  rewrite list_to_map_to_list, lookup_empty. destruct (m !! k); reflexivity.
Qed.

(** Merging into an object that has none of the keys assigns them all. *)
Lemma merge_into_fresh (rec : heap -> value -> value -> option heap) (recursive : bool)
    (h rest : heap) (b : object) (l : list (string * value)) :
  NoDup l.*1 ->
  forall mu : gmap string value,
    (forall kv, kv ∈ l -> mu !! kv.1 = None) ->
    foldl (merge_step rec recursive (VRef (length h))) (Some (h ++ OPlain mu :: b :: rest)) l
    = Some (h ++ OPlain (foldl insert_entry mu l) :: b :: rest).
Proof.
  induction l as [|[k v] l IH]; intros Hnd mu Hmu; simpl; [reflexivity|].
  inversion Hnd as [|? ? Hk Hnd']; subst.
  rewrite lookup_at_end. simpl.
  assert (Hkv : mu !! k = None) by (apply (Hmu (k, v)); left).
  rewrite Hkv. simpl. rewrite andb_false_r. simpl.
  rewrite insert_at_end.
  apply IH; [exact Hnd'|].
  intros [k' v'] Hin. simpl. unfold insert_entry. simpl.
  rewrite lookup_insert_ne.
  - apply (Hmu (k', v')). right. exact Hin.
  - intros ->. apply Hk. apply list_elem_of_fmap. exists (k', v'). auto.
Qed.

(** The defaults: [useCharge] is the only key that holds an object. *)
Lemma defaults_useCharge (u : value) : defaultParams_props u !! "useCharge" = Some u.
Proof. reflexivity. Qed.

Lemma defaults_not_plain (u : value) (k : string) (H : heap) :
  k <> "useCharge" ->
  is_plain H (default VUndefined (defaultParams_props u !! k)) = false.
Proof.
  intros Hk. unfold defaultParams_props.
  repeat (rewrite list_to_map_cons, lookup_insert;
          destruct (decide (_ = k)) as [<-|_]; [first [reflexivity|congruence]|]).
  rewrite list_to_map_nil, lookup_empty. reflexivity.
Qed.

(** One key of the caller merged into the copy of the defaults: the object
    at [length h] is the copy of [useCharge], the one after it the copy of
    the defaults. *)
Definition top_step (h : heap) (acc : gmap string value) (kv : string * value)
  : gmap string value :=
  if bool_decide (kv.1 = "useCharge") && is_plain h kv.2 then acc else <[kv.1 := kv.2]> acc.

Lemma is_plain_inv (h : heap) (v : value) :
  is_plain h v = true -> exists l m, v = VRef l /\ h !! l = Some (OPlain m).
Proof.
  destruct v as [| | | | |l]; simpl; try discriminate.
  destruct (h !! l) as [[|m]|] eqn:Hl; try discriminate. intros _. eauto.
Qed.

Lemma merge_step_top (f : nat) (h rest : heap) (mt mu : gmap string value)
    (k : string) (v : value) :
  within h v = true ->
  mt !! k = defaultParams_props (VRef (length h)) !! k ->
  (k = "useCharge" -> mu = ∅) ->
  merge_step (mergeObject (S f) true) true (VRef (S (length h)))
    (Some (h ++ OPlain mu :: OPlain mt :: rest)) (k, v)
  = Some (h ++ OPlain (if bool_decide (k = "useCharge") && is_plain h v
                       then props_of h v else mu)
            :: OPlain (top_step h mt (k, v)) :: rest).
Proof.
  intros Hv Hmt Hmu. unfold merge_step, get, top_step. cbn [fst snd].
  rewrite lookup_after_end. rewrite Hmt.
  destruct (decide (k = "useCharge")) as [->|Hk].
  - rewrite defaults_useCharge. cbn [default from_option id].
    rewrite bool_decide_true by reflexivity.
    rewrite (Hmu eq_refl). clear Hmu.
    assert (Hself : is_plain (h ++ OPlain ∅ :: OPlain mt :: rest) (VRef (length h)) = true).
    { simpl. rewrite lookup_at_end. reflexivity. }
    rewrite Hself, is_plain_within by exact Hv.
    destruct (is_plain h v) eqn:Hp; cbn [andb].
    + destruct (is_plain_inv _ _ Hp) as (lv & vm & -> & Hlv).
      cbn [mergeObject]. rewrite Hself. cbn [negb truthy].
      rewrite lookup_app_l by (eapply lookup_lt_Some; eassumption).
      rewrite Hlv. cbn [own_props].
      rewrite merge_into_fresh.
      * rewrite foldl_insert_all. simpl. rewrite Hlv. reflexivity.
      * apply NoDup_fst_map_to_list.
      * intros kv _. apply lookup_empty.
    + unfold set_prop. rewrite lookup_after_end, insert_after_end. reflexivity.
  - rewrite defaults_not_plain by exact Hk.
    rewrite bool_decide_false by exact Hk. cbn [andb].
    unfold set_prop. rewrite lookup_after_end, insert_after_end. reflexivity.
Qed.

Lemma merge_params_fold (f : nat) (h rest : heap) (l : list (string * value)) :
  NoDup l.*1 ->
  Forall (fun kv => within h kv.2 = true) l ->
  forall mt mu : gmap string value,
    (forall kv, kv ∈ l -> mt !! kv.1 = defaultParams_props (VRef (length h)) !! kv.1) ->
    ("useCharge" ∈ l.*1 -> mu = ∅) ->
    foldl (merge_step (mergeObject (S f) true) true (VRef (S (length h))))
      (Some (h ++ OPlain mu :: OPlain mt :: rest)) l
    = Some (h ++ OPlain (match (list_to_map l : gmap string value) !! "useCharge" with
                         | Some v => if is_plain h v then props_of h v else mu
                         | None => mu
                         end)
              :: OPlain (foldl (top_step h) mt l) :: rest).
Proof.
  induction l as [|[k v] l IH]; intros Hnd Hin mt mu Hmt Hmu.
  - simpl. rewrite lookup_empty. reflexivity.
  - inversion Hnd as [|? ? Hk Hnd']; subst.
    inversion Hin as [|? ? Hv Hin']; subst. simpl in Hv.
    cbn [foldl]. rewrite merge_step_top.
    + rewrite IH; [|exact Hnd'|exact Hin'| |].
      * do 3 f_equal. simpl list_to_map.
        destruct (decide (k = "useCharge")) as [->|Hne].
        -- rewrite lookup_insert_eq.
           rewrite (not_elem_of_list_to_map_1 (M := gmap string) l "useCharge" Hk).
           rewrite bool_decide_true by reflexivity. reflexivity.
        -- rewrite lookup_insert_ne by congruence.
           rewrite bool_decide_false by exact Hne. reflexivity.
      * intros [k' v'] Hkv. cbn [fst].
        assert (k' <> k).
        { intros ->. apply Hk. apply list_elem_of_fmap. exists (k, v'). auto. }
        unfold top_step. cbn [fst snd].
        destruct (bool_decide (k = "useCharge") && is_plain h v).
        -- apply (Hmt (k', v')). right. exact Hkv.
        -- rewrite lookup_insert_ne by congruence. apply (Hmt (k', v')). right. exact Hkv.
      * intros Huc. assert (k <> "useCharge") by (intros ->; contradiction).
        rewrite bool_decide_false by assumption. cbn [andb].
        apply Hmu. simpl. right. exact Huc.
    + exact Hv.
    + apply (Hmt (k, v)). left.
    + intros ->. apply Hmu. simpl. left.
Qed.

Lemma foldl_top_lookup (h : heap) (l : list (string * value)) (k : string) :
  NoDup l.*1 ->
  forall m0 : gmap string value,
    foldl (top_step h) m0 l !! k =
    match (list_to_map l : gmap string value) !! k with
    | Some v => if bool_decide (k = "useCharge") && is_plain h v then m0 !! k else Some v
    | None => m0 !! k
    end.
Proof.
  induction l as [|[k1 v1] l IH]; intros Hnd m0.
  - simpl. rewrite lookup_empty. reflexivity.
  - inversion Hnd as [|? ? Hk Hnd']; subst. cbn [foldl]. rewrite IH by exact Hnd'.
    simpl list_to_map. unfold top_step. cbn [fst snd].
    destruct (decide (k = k1)) as [->|Hne].
    + rewrite lookup_insert_eq.
      rewrite (not_elem_of_list_to_map_1 (M := gmap string) l k1 Hk).
      destruct (bool_decide (k1 = "useCharge") && is_plain h v1); [reflexivity|].
      apply lookup_insert_eq.
    + rewrite (lookup_insert_ne _ k1 k) by congruence.
      assert (Hsame : (if bool_decide (k1 = "useCharge") && is_plain h v1
                       then m0 else <[k1:=v1]> m0) !! k = m0 !! k).
      { destruct (bool_decide (k1 = "useCharge") && is_plain h v1); [reflexivity|].
        apply lookup_insert_ne. congruence. }
      rewrite Hsame. reflexivity.
Qed.

(** The copy after the merge holds the defaults overridden by the keys of
    the caller. *)
Lemma foldl_top_merged (h : heap) (u : value) (caller : gmap string value) :
  foldl (top_step h) (defaultParams_props u) (map_to_list caller)
  = merged_params h u caller.
Proof.
  apply map_eq. intros k.
  rewrite foldl_top_lookup by apply NoDup_fst_map_to_list.
  rewrite list_to_map_to_list. unfold merged_params.
  destruct (decide (k = "useCharge")) as [->|Hne].
  - rewrite bool_decide_true by reflexivity. cbn [andb].
    destruct (caller !! "useCharge") as [v|] eqn:Hc; cbn [default from_option id].
    + destruct (is_plain h v).
      * rewrite lookup_union_r by apply lookup_delete_eq. reflexivity.
      * erewrite lookup_union_Some_l by eassumption. reflexivity.
    + cbn [is_plain]. rewrite lookup_union_r by assumption. reflexivity.
  - rewrite bool_decide_false by exact Hne. cbn [andb].
    assert (Hk : (if is_plain h (default VUndefined (caller !! "useCharge"))
                  then delete "useCharge" caller else caller) !! k = caller !! k).
    { destruct (is_plain h _); [|reflexivity]. apply lookup_delete_ne. congruence. }
    destruct (caller !! k) as [v|] eqn:Hc.
    + erewrite lookup_union_Some_l by (rewrite Hk; reflexivity). reflexivity.
    + rewrite lookup_union_r by (rewrite Hk; reflexivity). reflexivity.
Qed.

Lemma own_props_values (o : object) (k : string) (v : value) :
  own_props o !! k = Some v -> v ∈ obj_values o.
Proof.
  destruct o as [es|m]; simpl; intros Hk.
  - apply elem_of_list_to_map_2 in Hk.
    apply elem_of_lookup_imap in Hk as (i & x & [= -> ->] & Hx).
    apply list_elem_of_lookup. eauto.
  - apply list_elem_of_fmap. exists (k, v). split; [reflexivity|].
    apply elem_of_map_to_list. exact Hk.
Qed.

Lemma props_of_plain (h : heap) (v : value) :
  (if is_plain h v then props_of h v else ∅) = props_of h v.
Proof.
  destruct v as [| | | | |l]; simpl; try reflexivity.
  destruct (h !! l) as [[|m]|]; reflexivity.
Qed.

Lemma mergeObject_unfold (fuel : nat) (recursive : bool) (h : heap) (original other : value) :
  mergeObject (S fuel) recursive h original other =
  if negb (is_plain h original) then None
  else if negb (truthy other) then Some h
  else
    match other with
    | VRef lo =>
        match h !! lo with
        | Some o =>
            foldl (merge_step (mergeObject fuel recursive) recursive original)
                  (Some h) (map_to_list (own_props o))
        | None => None
        end
    | _ => None
    end.
Proof. reflexivity. Qed.

(** The merge of the constructor, for an object of the caller. *)
Lemma merge_params (f : nat) (h rest : heap) (lo : loc) (o : object) :
  h !! lo = Some o ->
  forallb (within h) (obj_values o) = true ->
  mergeObject (S (S f)) true
    (h ++ OPlain ∅ :: OPlain (defaultParams_props (VRef (length h))) :: rest)
    (VRef (S (length h))) (VRef lo)
  = Some (h ++ OPlain (merged_useCharge h (own_props o))
            :: OPlain (merged_params h (VRef (length h)) (own_props o)) :: rest).
Proof.
  intros Hlo Hin. rewrite mergeObject_unfold.
  assert (Hself : is_plain
            (h ++ OPlain ∅ :: OPlain (defaultParams_props (VRef (length h))) :: rest)
            (VRef (S (length h))) = true).
  { simpl. rewrite lookup_after_end. reflexivity. }
  rewrite Hself. cbn [negb truthy].
  rewrite lookup_app_l by (eapply lookup_lt_Some; eassumption). rewrite Hlo.
  rewrite merge_params_fold.
  - rewrite list_to_map_to_list, foldl_top_merged. unfold merged_useCharge.
    destruct (own_props o !! "useCharge") as [v|]; cbn [default from_option id].
    + rewrite props_of_plain. reflexivity.
    + reflexivity.
  - apply NoDup_fst_map_to_list.
  - apply Forall_forall. intros [k v] Hkv. cbn [snd].
    apply elem_of_map_to_list in Hkv. apply own_props_values in Hkv.
    rewrite forallb_forall in Hin. apply Hin. apply list_elem_of_In. exact Hkv.
  - reflexivity.
  - reflexivity.
Qed.

(** The merge of the constructor when the caller passes nothing: the other
    object is the empty literal, allocated after the copy. *)
Lemma merge_nothing (f : nat) (h : heap) (a : object) (mt : gmap string value) :
  mergeObject (S f) true (h ++ [a; OPlain mt; OPlain ∅])
    (VRef (S (length h))) (VRef (S (S (length h))))
  = Some (h ++ [a; OPlain mt; OPlain ∅]).
Proof.
  cbn [mergeObject]. simpl is_plain. rewrite lookup_after_end. cbn [negb].
  rewrite lookup_app_r by lia.
  replace (S (S (length h)) - length h)%nat with 2%nat by lia. simpl.
  rewrite map_to_list_empty. reflexivity.
Qed.

Lemma params_ok_inv (h : heap) (params : value) :
  params_ok h params = true -> truthy params = true ->
  exists lo o, params = VRef lo /\ h !! lo = Some o /\
               forallb (within h) (obj_values o) = true.
Proof.
  unfold params_ok. intros Hok Ht. rewrite Ht in Hok. simpl in Hok.
  destruct params as [| | | | |lo]; try discriminate.
  destruct (h !! lo) as [o|] eqn:Hlo; [|discriminate]. eauto.
Qed.

Lemma caller_props_falsy (h : heap) (params : value) :
  truthy params = false -> caller_props h params = ∅.
Proof. destruct params; simpl; try reflexivity. discriminate. Qed.

Lemma merged_params_empty (h : heap) (u : value) :
  merged_params h u ∅ = defaultParams_props u.
Proof.
  unfold merged_params. rewrite lookup_empty. simpl.
  apply (left_id_L ∅ (∪)).
Qed.

(** *** The constructor *)

(** The first part of the constructor: the origin resolved into the item
    and the actor of the instance. *)
Definition resolve (h : heap) (origin : value) : prog call QuickRoll :=
  if truthy origin
  then
    do '(item, actor) <- invoke (ResolveActorOrItem origin);
    let q := if truthy item then set_item h blank item else blank in
    Ret (if truthy actor then set_actor h q actor else q)
  else Ret blank.

(** The rest of it: the parameters merged, the fields stored, the flags
    set.  It calls no collaborator. *)
Definition build (fuel : nat) (h : heap) (defaultParams params fields : value)
    (q1 : QuickRoll) : prog call (heap * QuickRoll) :=
  do '(h1, dup) <- lift (Host.duplicate fuel h defaultParams);
  let '(h2, other) := if truthy params then (h1, params) else alloc h1 (OPlain ∅) in
  do h3 <- lift (Host.mergeObject fuel true h2 dup other);
  let '(h4, fields) := if nullish fields then alloc h3 (OArray []) else (h3, fields) in
  do forceCrit <- lift (get h4 dup "forceCrit");
  do forceMultiroll <- lift (get h4 dup "forceMultiroll");
  do hasAdvantage <- lift (get h4 dup "hasAdvantage");
  do hasDisadvantage <- lift (get h4 dup "hasDisadvantage");
  Ret (h4,
       mkQuickRoll (_currentId q1) (_item q1) (itemId q1)
         (_actor q1) (actorId q1) (tokenId q1)
         dup fields [] []
         (js_or forceCrit (VBool false))
         (js_or (js_or forceMultiroll hasAdvantage) hasDisadvantage)
         false).

Lemma constructor_unfold (fuel : nat) (h : heap) (defaultParams origin params fields : value) :
  constructor fuel h defaultParams origin params fields =
  bind (resolve h origin) (build fuel h defaultParams params fields).
Proof. reflexivity. Qed.

Lemma run_resolve {W} (hd : handler call W) (w : W) (h : heap) (origin : value) :
  exists q1 w1 tr1,
    run hd (resolve h origin) w = (Some q1, w1, tr1) /\
    _currentId q1 = (-1)%Z /\ processed q1 = false /\ templates q1 = [].
Proof.
  unfold resolve. destruct (truthy origin).
  - simpl. destruct (hd (value * value)%type _ w) as [[item actor] w1].
    eexists _, _, _. split; [reflexivity|].
    destruct (truthy item), (truthy actor); repeat split.
  - eexists _, _, _. split; [reflexivity|]. repeat split.
Qed.

Lemma get_copy (H : heap) (l : loc) (m : gmap string value) (k : string) :
  H !! l = Some (OPlain m) -> get H (VRef l) k = Some (default VUndefined (m !! k)).
Proof. intros Hl. simpl. rewrite Hl. reflexivity. Qed.

(** What the rest of the constructor builds, when the module variable
    holds the literal. *)
Lemma build_spec (f : nat) (h : heap) (dp uc : loc) (params fields : value) (q1 : QuickRoll) :
  defaults_at h dp uc ->
  params_ok h params = true ->
  exists ext q,
    build (S (S f)) h (VRef dp) params fields q1 = Ret (h ++ ext, q) /\
    Card.params q = VRef (S (length h)) /\
    (h ++ ext) !! S (length h) =
      Some (OPlain (merged_params h (VRef (length h)) (caller_props h params))) /\
    (h ++ ext) !! length h = Some (OPlain (merged_useCharge h (caller_props h params))) /\
    _currentId q = _currentId q1 /\ processed q = false /\ templates q = [] /\
    (Card.fields q = fields \/ nullish fields = true /\ value_fresh (length h) (Card.fields q)).
Proof.
  intros Hd Hok. unfold build.
  rewrite (duplicate_defaults f h dp uc Hd). cbn [lift bind].
  destruct (truthy params) eqn:Ht.
  - destruct (params_ok_inv h params Hok Ht) as (lo & o & -> & Hlo & Hin).
    rewrite (merge_params f h [] lo o Hlo Hin). cbn [lift bind].
    simpl caller_props. rewrite Hlo.
    destruct (nullish fields) eqn:Hn; cbn [alloc].
    + rewrite <- app_assoc. cbn [app].
      rewrite !(get_copy _ _ _ _ (lookup_after_end h _ _ _)). cbn [lift bind].
      eexists _, _. split; [reflexivity|]. cbn [Card.params Card.fields].
      rewrite lookup_after_end, lookup_at_end.
      repeat split. right. split; [reflexivity|]. simpl.
      rewrite length_app. simpl. lia.
    + rewrite !(get_copy _ _ _ _ (lookup_after_end h _ _ _)). cbn [lift bind].
      eexists _, _. split; [reflexivity|]. cbn [Card.params Card.fields].
      rewrite lookup_after_end, lookup_at_end.
      repeat split. left. reflexivity.
  - cbn [alloc]. rewrite <- app_assoc. cbn [app].
    rewrite length_app. cbn [length]. rewrite Nat.add_comm. cbn [Nat.add].
    rewrite merge_nothing. cbn [lift bind].
    rewrite (caller_props_falsy h params Ht), merged_params_empty.
    unfold merged_useCharge. rewrite lookup_empty. cbn [default from_option props_of].
    destruct (nullish fields) eqn:Hn; cbn [alloc].
    + rewrite <- app_assoc. cbn [app].
      rewrite !(get_copy _ _ _ _ (lookup_after_end h _ _ _)). cbn [lift bind].
      eexists _, _. split; [reflexivity|]. cbn [Card.params Card.fields].
      rewrite lookup_after_end, lookup_at_end.
      repeat split. right. split; [reflexivity|]. simpl.
      rewrite length_app. simpl. lia.
    + rewrite !(get_copy _ _ _ _ (lookup_after_end h _ _ _)). cbn [lift bind].
      eexists _, _. split; [reflexivity|]. cbn [Card.params Card.fields].
      rewrite lookup_after_end, lookup_at_end.
      repeat split. left. reflexivity.
Qed.

(** A constructed instance is new: no id taken, nothing rendered, and its
    parameters are an object. *)
Lemma constructed_is_new {W} (hd : handler call W) (w w' : W) (fuel : nat) (h h' : heap)
    (dp uc : loc) (origin params fields : value) (q : QuickRoll) tr :
  defaults_at h dp uc ->
  params_ok h params = true ->
  (2 <= fuel)%nat ->
  run hd (constructor fuel h (VRef dp) origin params fields) w = (Some (h', q), w', tr) ->
  _currentId q = (-1)%Z /\ processed q = false /\ templates q = [] /\
  nullish (Card.params q) = false.
Proof.
  intros Hd Hok Hfuel. destruct fuel as [|[|f]]; try lia.
  rewrite constructor_unfold, run_bind.
  destruct (run_resolve hd w h origin) as (q1 & w1 & tr1 & Hres & Hid & _).
  rewrite Hres.
  destruct (build_spec f h dp uc params fields q1 Hd Hok)
    as (ext & q0 & Hbuild & Hpar & _ & _ & Hid0 & Hp0 & Ht0 & _).
  rewrite Hbuild. simpl. intros [= <- <- <- <-].
  rewrite Hid0, Hid, Hpar. auto.
Qed.

(** How the merged parameters read: a key of the caller reads the value of
    the caller (but for a plain [useCharge], merged into the copy), any
    other key reads the default. *)
Lemma merged_params_lookup (h : heap) (u : value) (caller : gmap string value) (k : string) :
  merged_params h u caller !! k =
  match caller !! k with
  | Some v =>
      if bool_decide (k = "useCharge") && is_plain h v then Some u else Some v
  | None => defaultParams_props u !! k
  end.
Proof.
  rewrite <- foldl_top_merged.
  rewrite foldl_top_lookup by apply NoDup_fst_map_to_list.
  rewrite list_to_map_to_list.
  destruct (caller !! k) as [v|]; [|reflexivity].
  destruct (bool_decide (k = "useCharge")) eqn:Hk; [|reflexivity].
  apply bool_decide_eq_true in Hk as ->. reflexivity.
Qed.

(** C9. With the module variable [defaultParams] holding its literal, and
    for any parameters of the caller (nothing, or an object), the
    constructor returns; every object that was in the heap is as it was, the
    default parameters and their [useCharge] object in particular, and the
    parameters of the instance are a new object: the copy of the defaults,
    itself with a new [useCharge] object, overridden by the keys of the
    caller. *)
Theorem constructor_keeps_defaults {W} (hd : handler call W) (w : W) (fuel : nat) (h : heap)
    (dp uc : loc) (origin params fields : value) :
  defaults_at h dp uc ->
  params_ok h params = true ->
  (2 <= fuel)%nat ->
  exists h' q w' tr,
    run hd (constructor fuel h (VRef dp) origin params fields) w = (Some (h', q), w', tr) /\
    heap_extends h h' /\
    defaults_at h' dp uc /\
    Card.params q = VRef (S (length h)) /\
    h' !! S (length h) =
      Some (OPlain (merged_params h (VRef (length h)) (caller_props h params))) /\
    h' !! length h = Some (OPlain (merged_useCharge h (caller_props h params))) /\
    (forall k,
       merged_params h (VRef (length h)) (caller_props h params) !! k =
       match caller_props h params !! k with
       | Some v =>
           if bool_decide (k = "useCharge") && is_plain h v
           then Some (VRef (length h)) else Some v
       | None => defaultParams_props (VRef (length h)) !! k
       end).
Proof.
  intros Hd Hok Hfuel.
  destruct fuel as [|[|f]]; try lia.
  rewrite constructor_unfold, run_bind.
  destruct (run_resolve hd w h origin) as (q1 & w1 & tr1 & Hres & _).
  rewrite Hres.
  destruct (build_spec f h dp uc params fields q1 Hd Hok)
    as (ext & q & Hbuild & Hpar & Htop & Huc & _).
  rewrite Hbuild. simpl.
  exists (h ++ ext), q, w1, (tr1 ++ []).
  split; [reflexivity|].
  assert (Hext : heap_extends h (h ++ ext)) by apply heap_extends_app.
  split; [exact Hext|]. split; [|split; [|split; [|split]]]; auto.
  - destruct Hd as [Hdp Hucd]. split; apply Hext; assumption.
  - intros k. apply merged_params_lookup.
Qed.

(** *** A scenario: parameters that override *)

(** The store of the scenario with the parameters
    [{ forceCrit: true, useCharge: { value: true } }] at location 9. *)
Definition override_store : heap :=
  RenderFacts.scenario_store ++
  [ OPlain {[ "value" := VBool true ]};
    OPlain (list_to_map [("forceCrit", VBool true); ("useCharge", VRef 8)]) ].

Example override_constructed :
  run RenderFacts.plain_host
    (constructor 2 override_store (VRef 7) VUndefined (VRef 9) (VRef 5)) tt
  = (Some (override_store ++
             [ OPlain {[ "value" := VBool true ]};
               OPlain (<["forceCrit" := VBool true]> (defaultParams_props (VRef 10))) ],
           mkQuickRoll (-1) VUndefined VUndefined VUndefined VUndefined VUndefined
             (VRef 11) (VRef 5) [] [] (VBool true) (VBool false) false),
     tt, []).
Proof. vm_compute. reflexivity. Qed.

Lemma constructor_keeps_defaults_witness :
  defaults_at override_store 7 6 /\
  params_ok override_store (VRef 9) = true /\
  (2 <= 2)%nat /\
  exists h' q w' tr,
    run RenderFacts.plain_host
      (constructor 2 override_store (VRef 7) VUndefined (VRef 9) (VRef 5)) tt
      = (Some (h', q), w', tr) /\
    heap_extends override_store h' /\
    defaults_at h' 7 6 /\
    Card.params q = VRef (S (length override_store)) /\
    h' !! S (length override_store) =
      Some (OPlain (merged_params override_store (VRef (length override_store))
                      (caller_props override_store (VRef 9)))) /\
    h' !! length override_store =
      Some (OPlain (merged_useCharge override_store (caller_props override_store (VRef 9)))) /\
    (forall k,
       merged_params override_store (VRef (length override_store))
         (caller_props override_store (VRef 9)) !! k =
       match caller_props override_store (VRef 9) !! k with
       | Some v =>
           if bool_decide (k = "useCharge") && is_plain override_store v
           then Some (VRef (length override_store)) else Some v
       | None => defaultParams_props (VRef (length override_store)) !! k
       end).
Proof.
  split; [split; reflexivity|]. split; [vm_compute; reflexivity|]. split; [exact (le_n 2)|].
  apply (constructor_keeps_defaults RenderFacts.plain_host tt 2 override_store 7 6
           VUndefined (VRef 9) (VRef 5)).
  - split; reflexivity.
  - vm_compute; reflexivity.
  - exact (le_n 2).
Defined.

End ConstructorFacts.

(* ================================================================== *)
(** ** More on the wrapper dispatch and on the registrar *)
(* ================================================================== *)

Module PatchingMore.

Import Patching HeapFacts PatchingFacts.

(** A run that makes the one call [e] and returns its answer. *)
Definition single_call {W} (hd : handler call W) (w : W) (e : call value)
  : option value * W * list (event call) :=
  let '(r, w1) := hd _ e w in (Some r, w1, [Ev e r]).

(** The events handed to [eventToAltRoll] in a trace. *)
Definition altRoll_asked (tr : list (event call)) : list value :=
  flat_map (fun ev =>
    match ev with
    | Ev e _ =>
        match e with
        | EventToAltRoll event => [event]
        | _ => []
        end
    end) tr.

(** *** Actor rolls with Alt held *)

(** An actor roll outside the bypass path with a truthy [altKey] hands that
    [altKey] to [rollActorWrapper] as the ignore flag and returns the roll
    it answers: the quick-roll routine of the patched method is not called. *)
Theorem actor_roll_with_alt {W} (hd : handler call W) (w : W) (h : heap)
    (this wrapper id options : value) :
  bypass h options = false ->
  truthy (altKey_of h options) = true ->
  run hd (_actorRollSkill h this wrapper id options) w =
    single_call hd w (RollActorWrapper this wrapper options id (altKey_of h options)) /\
  run hd (_actorRollAbilityTest h this wrapper id options) w =
    single_call hd w (RollActorWrapper this wrapper options id (altKey_of h options)) /\
  run hd (_actorRollAbilitySave h this wrapper id options) w =
    single_call hd w (RollActorWrapper this wrapper options id (altKey_of h options)).
Proof.
  intros Hb Halt. unfold single_call.
  assert (Hig : coalesce (get_opt h (get_opt h options "event") "altKey") (VBool false)
                = altKey_of h options).
  { unfold altKey_of in *. unfold coalesce.
    destruct (get_opt h (get_opt h options "event") "altKey"); try discriminate; reflexivity. }
  repeat split.
  - unfold _actorRollSkill, _actorProcessWrapper. rewrite Hb, Hig. simpl.
    destruct (hd value _ w) as [r w1]. simpl. rewrite Halt. reflexivity.
  - unfold _actorRollAbilityTest, _actorProcessWrapper. rewrite Hb, Hig. simpl.
    destruct (hd value _ w) as [r w1]. simpl. rewrite Halt. reflexivity.
  - unfold _actorRollAbilitySave, _actorProcessWrapper. rewrite Hb, Hig. simpl.
    destruct (hd value _ w) as [r w1]. simpl. rewrite Halt. reflexivity.
Qed.

Lemma actor_roll_with_alt_witness :
  bypass alt_click (VRef 1) = false /\
  truthy (altKey_of alt_click (VRef 1)) = true /\
  run silent_predicate (_actorRollSkill alt_click VNull VNull (VString "ath") (VRef 1)) tt =
    (Some (VString "roll"), tt,
     [Ev (RollActorWrapper VNull VNull (VRef 1) (VString "ath") (VBool true))
         (VString "roll")]).
Proof.
  split; [reflexivity|]. split; [reflexivity|].
  apply (actor_roll_with_alt silent_predicate tt alt_click VNull VNull (VString "ath") (VRef 1));
    reflexivity.
Defined.

(** Whatever the options, the three actor patches never consult the
    alternate-roll predicate: for actor rolls only the Alt key counts. *)
Theorem actor_roll_never_asks_altRoll {W} (hd : handler call W) (w : W) (h : heap)
    (this wrapper id options : value) :
  altRoll_asked (run hd (_actorRollSkill h this wrapper id options) w).2 = [] /\
  altRoll_asked (run hd (_actorRollAbilityTest h this wrapper id options) w).2 = [] /\
  altRoll_asked (run hd (_actorRollAbilitySave h this wrapper id options) w).2 = [].
Proof.
  repeat split.
  - unfold _actorRollSkill, _actorProcessWrapper.
    destruct (bypass h options); simpl; destruct (hd value _ w) as [r w1]; simpl;
      [reflexivity|].
    destruct (truthy _); simpl; [reflexivity|].
    destruct (hd value _ w1) as [r2 w2]. reflexivity.
  - unfold _actorRollAbilityTest, _actorProcessWrapper.
    destruct (bypass h options); simpl; destruct (hd value _ w) as [r w1]; simpl;
      [reflexivity|].
    destruct (truthy _); simpl; [reflexivity|].
    destruct (hd value _ w1) as [r2 w2]. reflexivity.
  - unfold _actorRollAbilitySave, _actorProcessWrapper.
    destruct (bypass h options); simpl; destruct (hd value _ w) as [r w1]; simpl;
      [reflexivity|].
    destruct (truthy _); simpl; [reflexivity|].
    destruct (hd value _ w1) as [r2 w2]. reflexivity.
Qed.

(** *** The predicate of an item use *)

(** [_itemProcessWrapper] consults the alternate-roll predicate at most
    once, with the event of the options, and only outside the bypass path
    with a truthy [altKey]: the [&&] does not evaluate it otherwise. *)
Theorem item_predicate_consulted {W} (hd : handler call W) (w : W) (h : heap)
    (this wrapper options : value) :
  altRoll_asked (run hd (_itemProcessWrapper h this wrapper options) w).2 =
  if negb (bypass h options) && truthy (altKey_of h options)
  then [get_opt h options "event"]
  else [].
Proof.
  unfold _itemProcessWrapper. destruct (bypass h options); simpl.
  - destruct (hd value _ w) as [r w1]. reflexivity.
  - rewrite run_bind, run_item_ignore.
    destruct (truthy (altKey_of h options)); simpl;
      destruct (hd value (RollItemWrapper _ _ _ _) _) as [r w1]; reflexivity.
Qed.

(** *** The event of an item use *)

(** The [event] key the caller's options carry, if any. *)
Definition caller_event (h : heap) (options : value) : option value :=
  match options with
  | VRef lo =>
      match h !! lo with
      | Some o => own_props o !! "event"
      | None => None
      end
  | _ => None
  end.

(** The event [_itemUse] examines: the caller's, else [window.event]. *)
Definition event_used (h : heap) (window_event options : value) : value :=
  default window_event (caller_event h options).

(** The options [item.use] is called with: nothing (a falsy value) or a
    plain object. *)
Definition options_ok (h : heap) (options : value) : bool :=
  negb (truthy options) || is_plain h options.

Lemma get_opt_within (h ext : heap) (v : value) (k : string) :
  ConstructorFacts.within h v = true ->
  get_opt (h ++ ext) v k = get_opt h v k.
Proof.
  destruct v as [| | | | |l]; try reflexivity. simpl. intros Hl.
  apply bool_decide_eq_true in Hl. unfold get_opt, get.
  rewrite lookup_app_l by exact Hl. reflexivity.
Qed.

Lemma get_opt_last (h : heap) (m : gmap string value) (k : string) :
  get_opt (h ++ [OPlain m]) (VRef (length h)) k = default VUndefined (m !! k).
Proof.
  unfold get_opt, get. rewrite lookup_app_r by lia. rewrite Nat.sub_diag. reflexivity.
Qed.

(** The merged options of [_itemUse]: a new object past the end of the
    heap, with the event in use under [event] and the caller's other keys. *)
Lemma itemUse_merged (h : heap) (window_event options : value) :
  options_ok h options = true ->
  exists m : gmap string value,
    Host.mergeObject 1 false (h ++ [OPlain (event_default window_event)])
      (VRef (length h)) options = Some (h ++ [OPlain m]) /\
    m !! "event" = Some (event_used h window_event options) /\
    forall k, k <> "event" -> default VUndefined (m !! k) = get_opt h options k.
Proof.
  unfold options_ok. intros Hok.
  destruct (truthy options) eqn:Ht.
  - simpl in Hok. destruct options as [| | | | |lo]; try discriminate.
    simpl in Hok. destruct (h !! lo) as [o|] eqn:Hlo; [|discriminate].
    destruct o as [es|mo]; [discriminate|].
    destruct (itemUse_merge h window_event lo (OPlain mo) Hlo) as (m & Hm & Hk).
    exists m. split; [exact Hm|]. split.
    + rewrite Hk. unfold event_used, caller_event. rewrite Hlo. simpl.
      destruct (mo !! "event"); [reflexivity|].
      unfold event_default. rewrite lookup_singleton_eq. reflexivity.
    + intros k Hne. rewrite Hk. unfold get_opt, get. rewrite Hlo. simpl.
      destruct (mo !! k); [reflexivity|].
      unfold event_default. rewrite lookup_singleton_ne by congruence. reflexivity.
  - exists (event_default window_event). split; [|split].
    + simpl. rewrite lookup_app_r by lia. rewrite Nat.sub_diag. simpl.
      rewrite Ht. reflexivity.
    + unfold event_used, caller_event, event_default. rewrite lookup_singleton_eq.
      destruct options; try discriminate; reflexivity.
    + intros k Hne. unfold event_default. rewrite lookup_singleton_ne by congruence.
      destruct options; try discriminate; reflexivity.
Qed.

(** An item use outside the bypass path examines the caller's [event] when
    the options carry one and [window.event] otherwise, also when no options
    are passed.  The alternate-roll predicate is asked about that event only
    when its [altKey] is truthy, and [rollItemWrapper] receives a new options
    object, not the caller's, with the resulting flag. *)
Theorem itemUse_event_choice {W} (hd : handler call W) (w : W) (h : heap)
    (window_event this wrapper options : value) :
  options_ok h options = true ->
  bypass h options = false ->
  ConstructorFacts.within h (event_used h window_event options) = true ->
  let ev := event_used h window_event options in
  let alt := get_opt h ev "altKey" in
  run hd (_itemUse h window_event this wrapper options) w =
  if truthy alt
  then
    let '(a, w1) := hd _ (EventToAltRoll ev) w in
    let '(r, w2) :=
      hd _ (RollItemWrapper this wrapper (VRef (length h)) (VBool (negb (truthy a)))) w1 in
    (Some r, w2,
     [Ev (EventToAltRoll ev) a;
      Ev (RollItemWrapper this wrapper (VRef (length h)) (VBool (negb (truthy a)))) r])
  else
    single_call hd w
      (RollItemWrapper this wrapper (VRef (length h)) (coalesce alt (VBool false))).
Proof.
  intros Hok Hb Hin ev alt.
  destruct (itemUse_merged h window_event options Hok) as (m & Hm & Hev & Hk).
  unfold _itemUse, alloc. rewrite Hm.
  assert (Hb2 : bypass (h ++ [OPlain m]) (VRef (length h)) = false).
  { unfold bypass in *. rewrite !get_opt_last.
    rewrite (Hk "chatMessage") by discriminate. rewrite (Hk "vanilla") by discriminate.
    exact Hb. }
  assert (Hev2 : get_opt (h ++ [OPlain m]) (VRef (length h)) "event" = ev).
  { rewrite get_opt_last, Hev. reflexivity. }
  assert (Halt2 : altKey_of (h ++ [OPlain m]) (VRef (length h)) = alt).
  { unfold altKey_of. rewrite Hev2. apply get_opt_within. exact Hin. }
  unfold _itemProcessWrapper. rewrite Hb2. rewrite run_bind, run_item_ignore.
  rewrite Halt2. unfold altRoll_answer. rewrite Hev2.
  destruct (truthy alt).
  - destruct (hd value (EventToAltRoll ev) w) as [a w1]. simpl.
    destruct (hd value _ w1) as [r w2]. reflexivity.
  - unfold single_call. simpl. destruct (hd value _ w) as [r w1]. reflexivity.
Qed.

(** Alt is held in [window.event] (location 0), but the caller passes
    options (location 2) with an event of its own (location 1) where it is
    not. *)
Definition own_event : heap :=
  [ OPlain {[ "altKey" := VBool true ]};
    OPlain {[ "altKey" := VBool false ]};
    OPlain {[ "event" := VRef 1 ]} ].

Lemma itemUse_event_choice_witness :
  options_ok own_event (VRef 2) = true /\
  bypass own_event (VRef 2) = false /\
  ConstructorFacts.within own_event (event_used own_event (VRef 0) (VRef 2)) = true /\
  run silent_predicate (_itemUse own_event (VRef 0) VNull VNull (VRef 2)) tt =
    (Some (VString "card"), tt,
     [Ev (RollItemWrapper VNull VNull (VRef 3) (VBool false)) (VString "card")]).
Proof.
  split; [reflexivity|]. split; [reflexivity|]. split; [reflexivity|].
  apply (itemUse_event_choice silent_predicate tt own_event (VRef 0) VNull VNull (VRef 2));
    reflexivity.
Defined.

(** *** Actor rolls with an event but without Alt *)

(** An actor roll outside the bypass path whose [altKey] is falsy, as for
    a plain click, builds the roll with [rollActorWrapper], passing the
    [altKey] itself as the flag ([false] in its place when it is [undefined]
    or [null]), and hands the roll to the quick-roll routine of the patched
    method, whose answer is returned. *)
Theorem actor_roll_without_alt {W} (hd : handler call W) (w : W) (h : heap)
    (this wrapper id options : value) :
  bypass h options = false ->
  truthy (altKey_of h options) = false ->
  let ignore := coalesce (altKey_of h options) (VBool false) in
  let built := hd _ (RollActorWrapper this wrapper options id ignore) w in
  let quick (e : call value) := hd _ e built.2 in
  truthy ignore = false /\
  run hd (_actorRollSkill h this wrapper id options) w =
    (Some (quick (RollSkill this id built.1)).1, (quick (RollSkill this id built.1)).2,
     [Ev (RollActorWrapper this wrapper options id ignore) built.1;
      Ev (RollSkill this id built.1) (quick (RollSkill this id built.1)).1]) /\
  run hd (_actorRollAbilityTest h this wrapper id options) w =
    (Some (quick (RollAbilityTest this id built.1)).1,
     (quick (RollAbilityTest this id built.1)).2,
     [Ev (RollActorWrapper this wrapper options id ignore) built.1;
      Ev (RollAbilityTest this id built.1) (quick (RollAbilityTest this id built.1)).1]) /\
  run hd (_actorRollAbilitySave h this wrapper id options) w =
    (Some (quick (RollAbilitySave this id built.1)).1,
     (quick (RollAbilitySave this id built.1)).2,
     [Ev (RollActorWrapper this wrapper options id ignore) built.1;
      Ev (RollAbilitySave this id built.1) (quick (RollAbilitySave this id built.1)).1]).
Proof.
  intros Hb Halt ignore built quick.
  assert (Hig : truthy ignore = false).
  { subst ignore. unfold coalesce. destruct (nullish (altKey_of h options)); auto. }
  split; [exact Hig|].
  repeat split.
  - unfold _actorRollSkill, _actorProcessWrapper. rewrite Hb.
    fold (altKey_of h options). fold ignore. simpl.
    subst quick built. destruct (hd value _ w) as [r w1]. simpl. rewrite Hig. simpl.
    destruct (hd value _ w1) as [r2 w2]. reflexivity.
  - unfold _actorRollAbilityTest, _actorProcessWrapper. rewrite Hb.
    fold (altKey_of h options). fold ignore. simpl.
    subst quick built. destruct (hd value _ w) as [r w1]. simpl. rewrite Hig. simpl.
    destruct (hd value _ w1) as [r2 w2]. reflexivity.
  - unfold _actorRollAbilitySave, _actorProcessWrapper. rewrite Hb.
    fold (altKey_of h options). fold ignore. simpl.
    subst quick built. destruct (hd value _ w) as [r w1]. simpl. rewrite Hig. simpl.
    destruct (hd value _ w1) as [r2 w2]. reflexivity.
Qed.

Lemma actor_roll_without_alt_witness :
  bypass own_event (VRef 2) = false /\
  truthy (altKey_of own_event (VRef 2)) = false /\
  run silent_predicate (_actorRollSkill own_event VNull VNull (VString "ath") (VRef 2)) tt =
    (Some (VString "skill"), tt,
     [Ev (RollActorWrapper VNull VNull (VRef 2) (VString "ath") (VBool false))
         (VString "roll");
      Ev (RollSkill VNull (VString "ath") (VString "roll")) (VString "skill")]).
Proof.
  split; [reflexivity|]. split; [reflexivity|].
  apply (actor_roll_without_alt silent_predicate tt own_event VNull VNull (VString "ath")
           (VRef 2)); reflexivity.
Defined.

(** *** The registrar *)

(** What one run of the three registrars adds to an empty registry. *)
Definition added (name : string) (get : setting_name -> value) : registry :=
  patchAll name get [].

(** Every entry of a run carries the module's name; no target is wrapped
    twice; the sheet's tab handler is the only one replaced outright, the
    rolls being wrapped as [MIXED]; and the two ability rolls are wrapped
    together, as both depend on the one setting. *)
Theorem registrar_entries (name : string) (get : setting_name -> value) :
  Forall (fun r => reg_module r = name) (added name get) /\
  NoDup (map reg_target (added name get)) /\
  Forall (fun r => reg_type r = OVERRIDE <-> reg_fn r = fn_onChangeTab) (added name get) /\
  Forall (fun r => reg_fn r = fn_onChangeTab <->
                   reg_target r = method_path OnChangeTabMethod) (added name get) /\
  registered RollAbilityTestMethod (added name get) =
    registered RollAbilitySaveMethod (added name get).
Proof.
  unfold added, patchAll, patchActors, patchItems, patchItemSheets, libWrapper_register.
  destruct (truthy (get QUICK_SKILL_ENABLED)), (truthy (get QUICK_ABILITY_ENABLED)),
    (truthy (get QUICK_ITEM_ENABLED)); simpl;
    (split; [repeat constructor|]);
    (split; [apply (bool_decide_unpack _); vm_compute; reflexivity|]);
    (split; [repeat constructor; simpl; intros; congruence|]);
    (split; [repeat constructor; simpl; intros; try reflexivity; discriminate|]);
    reflexivity.
Qed.

(** The registrar keeps no record of what it has registered: a second run
    appends the same entries once more. *)
Theorem registrar_run_twice (name : string) (get : setting_name -> value) (r : registry) :
  patchAll name get (patchAll name get r) = r ++ added name get ++ added name get.
Proof.
  assert (Happ : forall r0, patchAll name get r0 = r0 ++ added name get).
  { intros r0. unfold added, patchAll.
    rewrite (patchItemSheets_app name get (patchItems name get (patchActors name get r0))).
    rewrite (patchItems_app name get (patchActors name get r0)).
    rewrite (patchActors_app name get r0).
    rewrite (patchItemSheets_app name get (patchItems name get (patchActors name get []))).
    rewrite (patchItems_app name get (patchActors name get [])).
    rewrite (patchActors_app name get []).
    simpl. rewrite <- !app_assoc. reflexivity. }
  rewrite (Happ (patchAll name get r)), (Happ r). rewrite <- app_assoc. reflexivity.
Qed.

End PatchingMore.

(* ================================================================== *)
(** ** More on the [QuickRoll] class *)
(* ================================================================== *)

Module CardMore.

Import Host HeapFacts Card RenderFacts FlagsFacts ConstructorFacts.

(** *** What the constructor stores *)

(** The value of a key of the caller's parameters, [dflt] when the caller
    does not supply the key. *)
Definition caller_param (h : heap) (params : value) (k : string) (dflt : value) : value :=
  match caller_props h params !! k with
  | Some v => v
  | None => dflt
  end.

(** The argument of [renderFullCard] for an instance. *)
Definition card_of (q : QuickRoll) : card :=
  mkCard (_item q) (_actor q) (tokenId q) (isCrit q) (properties q) (templates q).

Lemma truthy_js_or (a b : value) : truthy (js_or a b) = truthy a || truthy b.
Proof. unfold js_or. destruct (truthy a) eqn:Ha; [exact Ha|reflexivity]. Qed.

Lemma iterate_extends (h H : heap) (v : value) (fs : list value) :
  heap_extends h H -> iterate h v = Some fs -> iterate H v = Some fs.
Proof.
  intros Hext. destruct v as [| | | |s|l]; simpl; try discriminate; [auto|].
  destruct (h !! l) as [[es|m]|] eqn:Hl; try discriminate.
  rewrite (Hext _ _ Hl). auto.
Qed.

(** The first part of the constructor: at most one call, to resolve the
    origin, and the two setters. *)
Lemma resolve_spec {W} (hd : handler call W) (w : W) (h : heap) (origin : value) :
  exists q1 w1 tr1,
    run hd (resolve h origin) w = (Some q1, w1, tr1) /\
    itemId q1 = get_opt h (_item q1) "id" /\
    actorId q1 = get_opt h (_actor q1) "id" /\
    tokenId q1 =
      (if truthy (_actor q1)
       then if truthy (get_opt h (_actor q1) "token")
            then get_opt h (get_opt h (_actor q1) "token") "uuid"
            else VNull
       else VUndefined) /\
    (if truthy origin
     then exists item actor,
            tr1 = [Ev (ResolveActorOrItem origin) (item, actor)] /\
            _item q1 = (if truthy item then item else VUndefined) /\
            _actor q1 = (if truthy actor then actor else VUndefined)
     else tr1 = [] /\ w1 = w /\ _item q1 = VUndefined /\ _actor q1 = VUndefined).
Proof.
  unfold resolve. destruct (truthy origin).
  - simpl. destruct (hd (value * value)%type _ w) as [[item actor] w1].
    eexists _, _, _. split; [reflexivity|].
    destruct (truthy item) eqn:Hi, (truthy actor) eqn:Ha; simpl; rewrite ?Ha;
      repeat split; exists item, actor; rewrite Hi, Ha; repeat split.
  - eexists _, _, _. split; [reflexivity|]. simpl. repeat split.
Qed.

(** What the rest of the constructor does whenever it returns, whatever
    the module variable holds. *)
Lemma build_keeps (fuel : nat) (h : heap) (dfl params fields : value) (q1 : QuickRoll)
    (h' : heap) (q : QuickRoll) :
  build fuel h dfl params fields q1 = Ret (h', q) ->
  (_item q, itemId q, _actor q, actorId q, tokenId q) =
    (_item q1, itemId q1, _actor q1, actorId q1, tokenId q1) /\
  properties q = [] /\
  isCrit q = js_or (get_opt h' (Card.params q) "forceCrit") (VBool false) /\
  isMultiroll q =
    js_or (js_or (get_opt h' (Card.params q) "forceMultiroll")
                 (get_opt h' (Card.params q) "hasAdvantage"))
          (get_opt h' (Card.params q) "hasDisadvantage") /\
  (nullish fields = true -> iterate h' (Card.fields q) = Some []).
Proof.
  unfold build. intros Hb.
  destruct (duplicate fuel h dfl) as [[h1 dup]|]; cbn [lift bind] in Hb; [|discriminate].
  destruct (if truthy params then (h1, params) else alloc h1 (OPlain ∅)) as [h2 other].
  destruct (mergeObject fuel true h2 dup other) as [h3|]; cbn [lift bind] in Hb;
    [|discriminate].
  destruct (nullish fields) eqn:Hn; cbn [alloc] in Hb;
    (destruct (get _ dup "forceCrit") as [fc|] eqn:Hfc; cbn [lift bind] in Hb;
       [|discriminate]);
    (destruct (get _ dup "forceMultiroll") as [fm|] eqn:Hfm; cbn [lift bind] in Hb;
       [|discriminate]);
    (destruct (get _ dup "hasAdvantage") as [ha|] eqn:Hha; cbn [lift bind] in Hb;
       [|discriminate]);
    (destruct (get _ dup "hasDisadvantage") as [hdis|] eqn:Hhd; cbn [lift bind] in Hb;
       [|discriminate]);
    injection Hb as <- <-; cbn [Card.params Card.fields _item itemId _actor actorId tokenId
                                properties isCrit isMultiroll];
    unfold get_opt; rewrite Hfc, Hfm, Hha, Hhd; repeat split; try discriminate.
  intros _. simpl. rewrite lookup_app_r by lia. rewrite Nat.sub_diag. reflexivity.
Qed.

(** The constructor resolves the origin with one call, and with none when
    the origin is falsy; it stores an item or an actor only when the answer
    is truthy.  The ids of the instance are those of what it stored: the id
    of the item, the id of the actor, and for the token the uuid of the
    actor's token, [null] for an actor without a token and [undefined]
    without an actor. *)
Theorem constructor_identity {W} (hd : handler call W) (w : W) (fuel : nat) (h : heap)
    (dp uc : loc) (origin params fields : value) :
  defaults_at h dp uc ->
  params_ok h params = true ->
  (2 <= fuel)%nat ->
  exists h' q w' tr,
    run hd (constructor fuel h (VRef dp) origin params fields) w = (Some (h', q), w', tr) /\
    itemId q = get_opt h (_item q) "id" /\
    actorId q = get_opt h (_actor q) "id" /\
    tokenId q =
      (if truthy (_actor q)
       then if truthy (get_opt h (_actor q) "token")
            then get_opt h (get_opt h (_actor q) "token") "uuid"
            else VNull
       else VUndefined) /\
    (if truthy origin
     then exists item actor,
            tr = [Ev (ResolveActorOrItem origin) (item, actor)] /\
            _item q = (if truthy item then item else VUndefined) /\
            _actor q = (if truthy actor then actor else VUndefined)
     else tr = [] /\ w' = w /\ _item q = VUndefined /\ _actor q = VUndefined).
Proof.
  intros Hd Hok Hfuel. destruct fuel as [|[|f]]; try lia.
  rewrite constructor_unfold, run_bind.
  destruct (resolve_spec hd w h origin) as (q1 & w1 & tr1 & Hres & Hiid & Haid & Htid & Htr).
  rewrite Hres.
  destruct (build_spec f h dp uc params fields q1 Hd Hok) as (ext & q & Hbuild & _).
  destruct (build_keeps _ _ _ _ _ _ _ _ Hbuild) as (Hkeep & _).
  injection Hkeep as Hi Hii Ha Hai Ht.
  rewrite Hbuild. simpl. rewrite app_nil_r.
  exists (h ++ ext), q, w1, tr1. split; [reflexivity|].
  rewrite Hi, Hii, Ha, Hai, Ht. auto.
Qed.

(** An actor with a token, and an item: the token at location 8, the
    actor at 9, the item at 10. *)
Definition party_store : heap :=
  scenario_store ++
  [ OPlain {[ "uuid" := VString "Scene.1.Token.2" ]};
    OPlain (list_to_map [("id", VString "a1"); ("token", VRef 8)]);
    OPlain {[ "id" := VString "i1" ]} ].

(** A host that resolves every origin to the given item and actor. *)
Definition resolving_host (item actor : value) : handler call unit :=
  fun X e w =>
    match e in call X return X * unit with
    | ResolveActorOrItem _ => ((item, actor), tt)
    | RenderFromField _ m => (VNumber (md_id m), tt)
    | HooksCallAll _ _ => (tt, tt)
    | RenderFullCard _ => (VString "<card>", tt)
    | GetVersion => (VString "1.0.0", tt)
    end.

Example party_constructed :
  run (resolving_host (VRef 10) (VRef 9))
    (constructor 2 party_store (VRef 7) (VRef 10) VUndefined (VRef 5)) tt
  = (Some (party_store ++
             [ OPlain ∅; OPlain (defaultParams_props (VRef 11)); OPlain ∅ ],
           mkQuickRoll (-1) (VRef 10) (VString "i1") (VRef 9) (VString "a1")
             (VString "Scene.1.Token.2")
             (VRef 12) (VRef 5) [] [] (VBool false) (VBool false) false),
     tt, [Ev (ResolveActorOrItem (VRef 10)) (VRef 10, VRef 9)]).
Proof. vm_compute. reflexivity. Qed.

Lemma constructor_identity_witness :
  defaults_at party_store 7 6 /\
  params_ok party_store VUndefined = true /\
  (2 <= 2)%nat /\
  exists h' q w' tr,
    run (resolving_host (VRef 10) (VRef 9))
      (constructor 2 party_store (VRef 7) (VRef 10) VUndefined (VRef 5)) tt
      = (Some (h', q), w', tr) /\
    itemId q = get_opt party_store (_item q) "id" /\
    actorId q = get_opt party_store (_actor q) "id" /\
    tokenId q =
      (if truthy (_actor q)
       then if truthy (get_opt party_store (_actor q) "token")
            then get_opt party_store (get_opt party_store (_actor q) "token") "uuid"
            else VNull
       else VUndefined) /\
    (if truthy (VRef 10)
     then exists item actor,
            tr = [Ev (ResolveActorOrItem (VRef 10)) (item, actor)] /\
            _item q = (if truthy item then item else VUndefined) /\
            _actor q = (if truthy actor then actor else VUndefined)
     else tr = [] /\ w' = tt /\ _item q = VUndefined /\ _actor q = VUndefined).
Proof.
  split; [split; reflexivity|]. split; [reflexivity|]. split; [exact (le_n 2)|].
  apply (constructor_identity (resolving_host (VRef 10) (VRef 9)) tt 2 party_store 7 6
           (VRef 10) VUndefined (VRef 5)).
  - split; reflexivity.
  - reflexivity.
  - exact (le_n 2).
Defined.

(** *** The flags the constructor derives *)

Lemma merged_param (h : heap) (u : value) (params : value) (k : string) (dflt : value) :
  k <> "useCharge" ->
  defaultParams_props u !! k = Some dflt ->
  default VUndefined (merged_params h u (caller_props h params) !! k) =
  caller_param h params k dflt.
Proof.
  intros Hk Hd. rewrite merged_params_lookup. unfold caller_param.
  destruct (caller_props h params !! k) as [v|]; [|rewrite Hd; reflexivity].
  rewrite bool_decide_eq_false_2 by exact Hk. reflexivity.
Qed.

(** [isCrit] and [isMultiroll] are read off the merged parameters: a new
    roll is critical exactly when the caller forces it with a truthy
    [forceCrit], and a multiroll exactly when one of [forceMultiroll],
    [hasAdvantage] and [hasDisadvantage] of the caller is truthy.  With none
    of the four supplied both are [false]. *)
Theorem constructor_flags {W} (hd : handler call W) (w : W) (fuel : nat) (h : heap)
    (dp uc : loc) (origin params fields : value) :
  defaults_at h dp uc ->
  params_ok h params = true ->
  (2 <= fuel)%nat ->
  exists h' q w' tr,
    run hd (constructor fuel h (VRef dp) origin params fields) w = (Some (h', q), w', tr) /\
    isCrit q = js_or (caller_param h params "forceCrit" (VBool false)) (VBool false) /\
    isMultiroll q =
      js_or (js_or (caller_param h params "forceMultiroll" (VBool false))
                   (caller_param h params "hasAdvantage" (VBool false)))
            (caller_param h params "hasDisadvantage" (VBool false)) /\
    truthy (isCrit q) = truthy (caller_param h params "forceCrit" (VBool false)) /\
    truthy (isMultiroll q) =
      truthy (caller_param h params "forceMultiroll" (VBool false)) ||
      truthy (caller_param h params "hasAdvantage" (VBool false)) ||
      truthy (caller_param h params "hasDisadvantage" (VBool false)) /\
    (caller_props h params !! "forceCrit" = None -> isCrit q = VBool false) /\
    (caller_props h params !! "forceMultiroll" = None ->
     caller_props h params !! "hasAdvantage" = None ->
     caller_props h params !! "hasDisadvantage" = None ->
     isMultiroll q = VBool false).
Proof.
  intros Hd Hok Hfuel. destruct fuel as [|[|f]]; try lia.
  rewrite constructor_unfold, run_bind.
  destruct (run_resolve hd w h origin) as (q1 & w1 & tr1 & Hres & _).
  rewrite Hres.
  destruct (build_spec f h dp uc params fields q1 Hd Hok)
    as (ext & q & Hbuild & Hpar & Htop & _).
  destruct (build_keeps _ _ _ _ _ _ _ _ Hbuild) as (_ & _ & Hcrit & Hmulti & _).
  rewrite Hbuild. simpl. rewrite app_nil_r.
  exists (h ++ ext), q, w1, tr1. split; [reflexivity|].
  assert (Hread : forall k, k <> "useCharge" ->
            defaultParams_props (VRef (length h)) !! k = Some (VBool false) ->
            get_opt (h ++ ext) (Card.params q) k = caller_param h params k (VBool false)).
  { intros k Hk Hdk. rewrite Hpar. unfold get_opt. rewrite (get_copy _ _ _ _ Htop).
    cbn [default from_option id]. apply merged_param; assumption. }
  rewrite (Hread "forceCrit") in Hcrit by (discriminate || reflexivity).
  rewrite (Hread "forceMultiroll"), (Hread "hasAdvantage"), (Hread "hasDisadvantage")
    in Hmulti by (discriminate || reflexivity).
  split; [exact Hcrit|]. split; [exact Hmulti|].
  split; [rewrite Hcrit, truthy_js_or; apply orb_false_r|].
  split; [rewrite Hmulti, !truthy_js_or; reflexivity|].
  split.
  - intros Hn. rewrite Hcrit. unfold caller_param. rewrite Hn. reflexivity.
  - intros H1 H2 H3. rewrite Hmulti. unfold caller_param. rewrite H1, H2, H3. reflexivity.
Qed.

Lemma constructor_flags_witness :
  defaults_at override_store 7 6 /\
  params_ok override_store (VRef 9) = true /\
  (2 <= 2)%nat /\
  exists h' q w' tr,
    run plain_host (constructor 2 override_store (VRef 7) VUndefined (VRef 9) (VRef 5)) tt
      = (Some (h', q), w', tr) /\
    isCrit q = js_or (caller_param override_store (VRef 9) "forceCrit" (VBool false))
                 (VBool false) /\
    isMultiroll q =
      js_or (js_or (caller_param override_store (VRef 9) "forceMultiroll" (VBool false))
                   (caller_param override_store (VRef 9) "hasAdvantage" (VBool false)))
            (caller_param override_store (VRef 9) "hasDisadvantage" (VBool false)) /\
    truthy (isCrit q) =
      truthy (caller_param override_store (VRef 9) "forceCrit" (VBool false)) /\
    truthy (isMultiroll q) =
      truthy (caller_param override_store (VRef 9) "forceMultiroll" (VBool false)) ||
      truthy (caller_param override_store (VRef 9) "hasAdvantage" (VBool false)) ||
      truthy (caller_param override_store (VRef 9) "hasDisadvantage" (VBool false)) /\
    (caller_props override_store (VRef 9) !! "forceCrit" = None -> isCrit q = VBool false) /\
    (caller_props override_store (VRef 9) !! "forceMultiroll" = None ->
     caller_props override_store (VRef 9) !! "hasAdvantage" = None ->
     caller_props override_store (VRef 9) !! "hasDisadvantage" = None ->
     isMultiroll q = VBool false).
Proof.
  split; [split; reflexivity|]. split; [vm_compute; reflexivity|]. split; [exact (le_n 2)|].
  apply (constructor_flags plain_host tt 2 override_store 7 6 VUndefined (VRef 9) (VRef 5)).
  - split; reflexivity.
  - vm_compute; reflexivity.
  - exact (le_n 2).
Defined.

(** The two calls that end [_render]. *)
Lemma finish_trace {W} (hd : handler call W) (q1 : QuickRoll) (w : W) :
  run hd (finish q1) w =
  let '(u, wa) := hd _ (HooksCallAll HOOK_RENDER q1) w in
  let '(html, w2) := hd _ (RenderFullCard (card_of q1)) wa in
  (Some (q1, html), w2,
   [Ev (HooksCallAll HOOK_RENDER q1) u; Ev (RenderFullCard (card_of q1)) html]).
Proof.
  unfold finish, card_of. simpl.
  destruct (hd unit _ w) as [u wa]. destruct (hd value _ wa) as [html w2]. reflexivity.
Qed.

(** *** A roll without fields *)

(** Constructed without fields ([undefined] or [null]), a roll gets a new
    empty array of its own, and its first [_render] returns the empty card:
    the renderer of fields is not called, the render hook is fired once,
    with the instance marked as processed, and the full card is rendered
    with no template. *)
Theorem constructor_without_fields {W} (hd : handler call W) (w : W) (fuel : nat) (h : heap)
    (dp uc : loc) (origin params fields : value) :
  defaults_at h dp uc ->
  params_ok h params = true ->
  (2 <= fuel)%nat ->
  nullish fields = true ->
  exists h' q w1 tr html w2,
    run hd (constructor fuel h (VRef dp) origin params fields) w = (Some (h', q), w1, tr) /\
    iterate h' (Card.fields q) = Some [] /\
    value_fresh (length h) (Card.fields q) /\
    run hd (_render h' q) w1 =
      (Some (set_processed q, html), w2,
       [Ev (HooksCallAll HOOK_RENDER (set_processed q)) tt;
        Ev (RenderFullCard (card_of (set_processed q))) html]) /\
    card_templates (card_of (set_processed q)) = [].
Proof.
  intros Hd Hok Hfuel Hn. destruct fuel as [|[|f]]; try lia.
  rewrite constructor_unfold, run_bind.
  destruct (run_resolve hd w h origin) as (q1 & w1 & tr1 & Hres & _).
  rewrite Hres.
  destruct (build_spec f h dp uc params fields q1 Hd Hok)
    as (ext & q & Hbuild & _ & _ & _ & _ & Hp & Htpl & Hf).
  destruct (build_keeps _ _ _ _ _ _ _ _ Hbuild) as (_ & _ & _ & _ & Hit).
  specialize (Hit Hn).
  rewrite Hbuild, run_ret. cbv iota beta. rewrite app_nil_r.
  assert (Hfresh : value_fresh (length h) (Card.fields q)).
  { destruct Hf as [Heq|[_ Hfr]]; [|exact Hfr].
    rewrite Heq. destruct fields; try discriminate; exact I. }
  destruct (hd unit (HooksCallAll HOOK_RENDER (set_processed q)) w1) as [[] wa] eqn:Hhook.
  destruct (hd value (RenderFullCard (card_of (set_processed q))) wa) as [html w2] eqn:Hcard.
  exists (h ++ ext), q, w1, tr1, html, w2.
  split; [reflexivity|]. split; [exact Hit|]. split; [exact Hfresh|].
  split; [|exact Htpl].
  rewrite render_unfold, run_bind.
  assert (Hprep : run hd (prepare (h ++ ext) q) w1 = (Some (set_processed q), w1, [])).
  { unfold prepare. rewrite Hp, Hit. reflexivity. }
  rewrite Hprep, finish_trace, Hhook, Hcard. reflexivity.
Qed.

Lemma constructor_without_fields_witness :
  defaults_at scenario_store 7 6 /\
  params_ok scenario_store VUndefined = true /\
  (2 <= 2)%nat /\
  nullish VUndefined = true /\
  exists h' q w1 tr html w2,
    run plain_host (constructor 2 scenario_store (VRef 7) VUndefined VUndefined VUndefined) tt
      = (Some (h', q), w1, tr) /\
    iterate h' (Card.fields q) = Some [] /\
    value_fresh (length scenario_store) (Card.fields q) /\
    run plain_host (_render h' q) w1 =
      (Some (set_processed q, html), w2,
       [Ev (HooksCallAll HOOK_RENDER (set_processed q)) tt;
        Ev (RenderFullCard (card_of (set_processed q))) html]) /\
    card_templates (card_of (set_processed q)) = [].
Proof.
  split; [split; reflexivity|]. split; [reflexivity|]. split; [exact (le_n 2)|].
  split; [reflexivity|].
  apply (constructor_without_fields plain_host tt 2 scenario_store 7 6
           VUndefined VUndefined VUndefined).
  - split; reflexivity.
  - reflexivity.
  - exact (le_n 2).
  - reflexivity.
Defined.

(** *** From the constructor to the renderer *)

(** A roll constructed with fields and then rendered: every field reaches
    the renderer with the item, the actor and the two flags of the instance,
    and with the slot level of the caller's parameters, [null] when the
    caller gives none; the templates are the renderer's answers. *)
Theorem constructed_then_rendered {W} (hd : handler call W) (w : W) (fuel : nat) (h : heap)
    (dp uc : loc) (origin params fields : value) (fs : list value) :
  defaults_at h dp uc ->
  params_ok h params = true ->
  (2 <= fuel)%nat ->
  iterate h fields = Some fs ->
  exists h' q w1 tr1 q' html w2 tr2,
    run hd (constructor fuel h (VRef dp) origin params fields) w = (Some (h', q), w1, tr1) /\
    run hd (_render h' q) w1 = (Some (q', html), w2, tr2) /\
    map fst (rendered tr2) =
      imap (fun i f =>
              (f, mkMetadata (-1 + Z.of_nat i) (_item q) (_actor q)
                    (caller_param h params "slotLevel" VNull)
                    (isCrit q) (isMultiroll q))) fs /\
    templates q' = map snd (rendered tr2) /\
    hooks_fired tr2 = [HOOK_RENDER].
Proof.
  intros Hd Hok Hfuel Hit. destruct fuel as [|[|f]]; try lia.
  rewrite constructor_unfold, run_bind.
  destruct (run_resolve hd w h origin) as (q1 & w1 & tr1 & Hres & Hid1 & _).
  rewrite Hres.
  destruct (build_spec f h dp uc params fields q1 Hd Hok)
    as (ext & q & Hbuild & Hpar & Htop & _ & Hid & Hp & Htpl & Hf).
  rewrite Hbuild, run_ret. cbv iota beta. rewrite app_nil_r.
  assert (Hfields : Card.fields q = fields).
  { destruct Hf as [Heq|[Hn _]]; [exact Heq|].
    destruct fields; try discriminate. }
  assert (Hit' : iterate (h ++ ext) (Card.fields q) = Some fs).
  { rewrite Hfields. eapply iterate_extends; [apply heap_extends_app|exact Hit]. }
  assert (Hsl : get (h ++ ext) (Card.params q) "slotLevel"
                = Some (caller_param h params "slotLevel" VNull)).
  { rewrite Hpar, (get_copy _ _ _ _ Htop). f_equal.
    apply merged_param; [discriminate|reflexivity]. }
  destruct (first_render hd w1 (h ++ ext) q fs _ Hp Hit' Hsl)
    as (q' & html & w2 & tr2 & Hrun & Hren & Htpl' & Hhooks & _).
  exists (h ++ ext), q, w1, tr1, q', html, w2, tr2.
  split; [reflexivity|]. split; [exact Hrun|].
  split; [|split; [rewrite Htpl', Htpl; reflexivity|exact Hhooks]].
  rewrite Hren. apply imap_ext. intros i x _. unfold metadata_for.
  rewrite Hid, Hid1. reflexivity.
Qed.

(** The store of the scenario with the parameters [{ slotLevel: 3 }] at
    location 8. *)
Definition slot_store : heap :=
  scenario_store ++ [ OPlain {[ "slotLevel" := VNumber 3 ]} ].

Lemma constructed_then_rendered_witness :
  defaults_at slot_store 7 6 /\
  params_ok slot_store (VRef 8) = true /\
  (2 <= 2)%nat /\
  iterate slot_store (VRef 5) = Some [VRef 1; VRef 4] /\
  exists h' q w1 tr1 q' html w2 tr2,
    run plain_host (constructor 2 slot_store (VRef 7) VUndefined (VRef 8) (VRef 5)) tt
      = (Some (h', q), w1, tr1) /\
    run plain_host (_render h' q) w1 = (Some (q', html), w2, tr2) /\
    map fst (rendered tr2) =
      imap (fun i f =>
              (f, mkMetadata (-1 + Z.of_nat i) (_item q) (_actor q)
                    (caller_param slot_store (VRef 8) "slotLevel" VNull)
                    (isCrit q) (isMultiroll q))) [VRef 1; VRef 4] /\
    templates q' = map snd (rendered tr2) /\
    hooks_fired tr2 = [HOOK_RENDER].
Proof.
  split; [split; reflexivity|]. split; [vm_compute; reflexivity|]. split; [exact (le_n 2)|].
  split; [reflexivity|].
  apply (constructed_then_rendered plain_host tt 2 slot_store 7 6
           VUndefined (VRef 8) (VRef 5) [VRef 1; VRef 4]).
  - split; reflexivity.
  - vm_compute; reflexivity.
  - exact (le_n 2).
  - reflexivity.
Defined.

(** *** The calls of [_render], in order *)

(** A loop that returns has called the renderer of fields and nothing
    else. *)
Lemma render_fields_only_renders {W} (hd : handler call W) (h : heap) (fs : list value) :
  forall (q q' : QuickRoll) (w w' : W) tr,
    run hd (render_fields h fs q) w = (Some q', w', tr) ->
    length (rendered tr) = length tr.
Proof.
  induction fs as [|f fs IH]; intros q q' w w' tr.
  - simpl. intros [= <- <- <-]. reflexivity.
  - simpl render_fields. rewrite run_bind. unfold render_field.
    destruct (get h (params (next_id q)) "slotLevel") as [sl|]; simpl; [|discriminate].
    destruct (hd value (RenderFromField f _) w) as [r w1]. simpl.
    destruct (run hd (render_fields h fs _) w1) as [[[q2|] w2] tr2] eqn:Hrest;
      [|discriminate].
    intros [= <- <- <-]. simpl. f_equal. exact (IH _ _ _ _ _ Hrest).
Qed.

(** The first [_render]: the fields are rendered first, one call each and
    no other call in between; then the render hook is fired, with the
    instance as it will be left, marked processed and holding every
    template; the full card is rendered last, from the item, the actor, the
    token id, the critical flag, the properties and the templates of that
    instance, and its answer is the result.  Apart from the templates, the
    id counter and the mark, the instance is left as it was. *)
Theorem render_calls_in_order {W} (hd : handler call W) (w : W) (h : heap) (q : QuickRoll)
    (fs : list value) :
  processed q = false ->
  iterate h (Card.fields q) = Some fs ->
  nullish (Card.params q) = false ->
  exists q' html w' trf,
    run hd (_render h q) w =
      (Some (q', html), w',
       trf ++ [Ev (HooksCallAll HOOK_RENDER q') tt; Ev (RenderFullCard (card_of q')) html]) /\
    length trf = length fs /\
    length (rendered trf) = length fs /\
    processed q' = true /\
    templates q' = templates q ++ map snd (rendered trf) /\
    (_item q', itemId q', _actor q', actorId q', tokenId q') =
      (_item q, itemId q, _actor q, actorId q, tokenId q) /\
    (Card.params q', Card.fields q', properties q', isCrit q', isMultiroll q') =
      (Card.params q, Card.fields q, properties q, isCrit q, isMultiroll q).
Proof.
  intros Hp Hit Hpar.
  destruct (get_not_nullish h (Card.params q) "slotLevel" Hpar) as [sl Hsl].
  destruct (render_fields_run hd h fs q w sl Hsl)
    as (q1 & w1 & trf & Hloop & Hren & Htpl & _ & _ & Hframe).
  pose proof (render_fields_only_renders hd h fs q q1 w w1 trf Hloop) as Honly.
  assert (Hlen : length (rendered trf) = length fs).
  { rewrite <- (length_map fst), Hren, length_imap. reflexivity. }
  assert (Hprep : run hd (prepare h q) w = (Some (set_processed q1), w1, trf)).
  { unfold prepare. rewrite Hp, Hit. simpl negb. cbv iota. simpl lift. simpl bind at 1.
    rewrite run_bind, Hloop, run_ret. cbv iota beta. rewrite app_nil_r. reflexivity. }
  destruct (hd unit (HooksCallAll HOOK_RENDER (set_processed q1)) w1) as [[] wa] eqn:Hhook.
  destruct (hd value (RenderFullCard (card_of (set_processed q1))) wa) as [html w2] eqn:Hcard.
  exists (set_processed q1), html, w2, trf.
  split.
  { rewrite render_unfold, run_bind, Hprep, finish_trace, Hhook, Hcard. reflexivity. }
  split; [congruence|]. split; [exact Hlen|]. split; [reflexivity|].
  split; [exact Htpl|].
  unfold frame in Hframe. injection Hframe as H1 H2 H3 H4 H5 H6 H7 H8 H9 H10 _.
  simpl. rewrite H1, H2, H3, H4, H5, H6, H7, H8, H9, H10. split; reflexivity.
Qed.

Lemma render_calls_in_order_witness :
  processed scenario_roll = false /\
  iterate scenario_heap (Card.fields scenario_roll) = Some [VRef 1; VRef 4] /\
  nullish (Card.params scenario_roll) = false /\
  exists q' html w' trf,
    run plain_host (_render scenario_heap scenario_roll) tt =
      (Some (q', html), w',
       trf ++ [Ev (HooksCallAll HOOK_RENDER q') tt; Ev (RenderFullCard (card_of q')) html]) /\
    length trf = length [VRef 1; VRef 4] /\
    length (rendered trf) = length [VRef 1; VRef 4] /\
    processed q' = true /\
    templates q' = templates scenario_roll ++ map snd (rendered trf) /\
    (_item q', itemId q', _actor q', actorId q', tokenId q') =
      (_item scenario_roll, itemId scenario_roll, _actor scenario_roll,
       actorId scenario_roll, tokenId scenario_roll) /\
    (Card.params q', Card.fields q', properties q', isCrit q', isMultiroll q') =
      (Card.params scenario_roll, Card.fields scenario_roll, properties scenario_roll,
       isCrit scenario_roll, isMultiroll scenario_roll).
Proof.
  split; [reflexivity|]. split; [reflexivity|]. split; [reflexivity|].
  apply (render_calls_in_order plain_host tt scenario_heap scenario_roll [VRef 1; VRef 4]);
    reflexivity.
Defined.

(** *** A render that throws *)

(** When the fields of an unprocessed instance cannot be iterated, or when
    there is a first field but the parameters are [undefined] or [null],
    [_render] throws before any call: no field is rendered, the hook is not
    fired and no card is built. *)
Theorem render_throws_early {W} (hd : handler call W) (w : W) (h : heap) (q : QuickRoll) :
  processed q = false ->
  iterate h (Card.fields q) = None \/
  (exists f fs, iterate h (Card.fields q) = Some (f :: fs)) /\
  nullish (Card.params q) = true ->
  run hd (_render h q) w = (None, w, []).
Proof.
  intros Hp Hbad. unfold _render. rewrite Hp. simpl negb. cbv iota.
  destruct Hbad as [Hit|[(f & fs & Hit) Hpar]]; rewrite Hit; [reflexivity|].
  simpl. unfold render_field.
  change (Card.params (next_id q)) with (Card.params q).
  destruct (Card.params q); try discriminate; reflexivity.
Qed.

(** A roll whose fields are the number 3. *)
Definition odd_roll : QuickRoll :=
  mkQuickRoll (-1) VUndefined VUndefined VUndefined VUndefined VUndefined
    (VRef 9) (VNumber 3) [] [] (VBool false) (VBool false) false.

Lemma render_throws_early_witness :
  processed odd_roll = false /\
  (iterate scenario_heap (Card.fields odd_roll) = None \/
   (exists f fs, iterate scenario_heap (Card.fields odd_roll) = Some (f :: fs)) /\
   nullish (Card.params odd_roll) = true) /\
  run plain_host (_render scenario_heap odd_roll) tt = (None, tt, []).
Proof.
  split; [reflexivity|]. split; [left; reflexivity|].
  apply (render_throws_early plain_host tt scenario_heap odd_roll);
    [reflexivity|left; reflexivity].
Defined.

(** *** What the flags carry *)

Lemma map_fields_length (fuel : nat) (fs : list value) :
  forall H H2 nfs, map_fields fuel H fs = Some (H2, nfs) -> length nfs = length fs.
Proof.
  induction fs as [|f fs IH]; intros H H2 nfs Hm; simpl in Hm.
  - injection Hm as <- <-. reflexivity.
  - destruct (flatten_field fuel H f) as [[H1 nf]|]; simpl in Hm; [|discriminate].
    destruct (map_fields fuel H1 fs) as [[H3 nfs1]|] eqn:Hr; simpl in Hm; [|discriminate].
    injection Hm as <- <-. simpl. f_equal. exact (IH _ _ _ Hr).
Qed.

(** Whenever [_getFlags] returns, it has made one call, for the version,
    and the flags hold the answer.  Their [params] is the reference the
    instance holds, to the same object: no copy is made of the parameters.
    They carry the elements of the instance's properties, its three ids and
    its critical flag, and the popout mark is [true].  Only the fields are a
    new array, at a location that was not in use, with one element per
    field. *)
Theorem getFlags_carries {W} (hd : handler call W) (w w' : W) (fuel : nat) (h h' : heap)
    (q : QuickRoll) (fl : flags) (tr : list (event call)) :
  run hd (_getFlags fuel h q) w = (Some (h', fl), w', tr) ->
  tr = [Ev GetVersion (fl_version fl)] /\
  (fl_version fl, w') = hd _ GetVersion w /\
  fl_params fl = Card.params q /\
  fl_properties fl = properties q /\
  (fl_actorId fl, fl_itemId fl, fl_tokenId fl, fl_isCrit fl) =
    (actorId q, itemId q, tokenId q, isCrit q) /\
  fl_canPopout fl = VBool true /\
  fl_fields fl <> Card.fields q /\
  value_fresh (length h) (fl_fields fl) /\
  exists fs nfs,
    array_elems h (Card.fields q) = Some fs /\
    array_elems h' (fl_fields fl) = Some nfs /\
    length nfs = length fs.
Proof.
  unfold _getFlags. intros Hrun.
  destruct (array_elems h (Card.fields q)) as [fs|] eqn:Harr; cbn [lift bind] in Hrun;
    [|discriminate].
  destruct (map_fields fuel h fs) as [[H1 nfs]|] eqn:Hmap; cbn [lift bind alloc] in Hrun;
    [|discriminate].
  simpl run in Hrun. destruct (hd value GetVersion w) as [v w1] eqn:Hv.
  injection Hrun as <- <- <- <-.
  cbn [fl_version fl_params fl_properties fl_actorId fl_itemId fl_tokenId fl_isCrit
       fl_canPopout fl_fields].
  pose proof (heap_extends_length _ _ (map_fields_frame fuel fs h H1 nfs Hmap)) as Hlen.
  repeat split.
  - intros Heq. unfold array_elems in Harr. rewrite <- Heq in Harr.
    rewrite lookup_ge_None_2 in Harr by exact Hlen. discriminate.
  - exact Hlen.
  - exists fs, nfs. split; [reflexivity|]. split.
    + unfold array_elems. rewrite lookup_app_r by lia. rewrite Nat.sub_diag. reflexivity.
    + exact (map_fields_length fuel fs h H1 nfs Hmap).
Qed.

Lemma getFlags_carries_witness :
  run plain_host (_getFlags 3 scenario_heap scenario_roll) tt
    = (Some (scenario_flags_heap, scenario_flags), tt, [Ev GetVersion (VString "1.0.0")]) /\
  [Ev GetVersion (VString "1.0.0")] = [Ev GetVersion (fl_version scenario_flags)] /\
  (fl_version scenario_flags, tt) = plain_host _ GetVersion tt /\
  fl_params scenario_flags = Card.params scenario_roll /\
  fl_properties scenario_flags = properties scenario_roll /\
  (fl_actorId scenario_flags, fl_itemId scenario_flags, fl_tokenId scenario_flags,
   fl_isCrit scenario_flags) =
    (actorId scenario_roll, itemId scenario_roll, tokenId scenario_roll,
     isCrit scenario_roll) /\
  fl_canPopout scenario_flags = VBool true /\
  fl_fields scenario_flags <> Card.fields scenario_roll /\
  value_fresh (length scenario_heap) (fl_fields scenario_flags) /\
  exists fs nfs,
    array_elems scenario_heap (Card.fields scenario_roll) = Some fs /\
    array_elems scenario_flags_heap (fl_fields scenario_flags) = Some nfs /\
    length nfs = length fs.
Proof.
  split; [vm_compute; reflexivity|].
  apply (getFlags_carries plain_host tt tt 3 scenario_heap scenario_flags_heap
           scenario_roll scenario_flags [Ev GetVersion (VString "1.0.0")]).
  vm_compute; reflexivity.
Defined.

(** *** Serialized fields are not serialized again *)

Section Shaped.

Variables h H : heap.

(** [v'] in [H] has the structure of [v] in [h], to some depth. *)
Definition shaped (v v' : value) : Prop := exists n, same_shape n h H v v'.

Lemma shaped_undefined : shaped VUndefined VUndefined.
Proof. exists O. reflexivity. Qed.

Lemma shaped_member (n : nat) (o o' : option value) :
  option_Forall2 (same_shape n h H) o o' ->
  shaped (default VUndefined o) (default VUndefined o').
Proof. intros [x y Hxy|]; [exists n; exact Hxy|apply shaped_undefined]. Qed.

Lemma shaped_truthy (a a' : value) : shaped a a' -> truthy a' = truthy a.
Proof.
  intros [n Hs].
  destruct n as [|n]; destruct a as [| | | | |l]; simpl in Hs; try contradiction;
    try (rewrite Hs; reflexivity).
  destruct a'; try contradiction. reflexivity.
Qed.

Lemma shaped_index (v v' : value) (i : nat) :
  shaped v v' -> option_Forall2 shaped (get_index h v i) (get_index H v' i).
Proof.
  intros [n Hs].
  destruct n as [|n]; destruct v as [| | | |s|l]; simpl in Hs; try contradiction;
    try (rewrite Hs; simpl;
         first [ solve [constructor]
               | solve [constructor; exists O; reflexivity]
               | solve [constructor; exists O; unfold one_char;
                        destruct (String.get i s); reflexivity] ]).
  destruct v' as [| | | | |l']; try contradiction.
  simpl. destruct (h !! l) as [[es|m]|]; [| |contradiction].
  - destruct (H !! l') as [[es'|m']|]; try contradiction.
    constructor. apply (shaped_member n). apply Forall2_lookup. exact Hs.
  - destruct (H !! l') as [[es'|m']|]; try contradiction.
    constructor. apply (shaped_member n). apply Hs.
Qed.

Lemma shaped_get (v v' : value) (k : string) :
  shaped v v' -> option_Forall2 shaped (get h v k) (get H v' k).
Proof.
  intros [n Hs].
  destruct n as [|n]; destruct v as [| | | |s|l]; simpl in Hs; try contradiction;
    try (rewrite Hs; simpl;
         first [ solve [constructor]
               | solve [constructor; apply shaped_undefined] ]).
  destruct v' as [| | | | |l']; try contradiction.
  simpl. destruct (h !! l) as [[es|m]|]; [| |contradiction].
  - destruct (H !! l') as [[es'|m']|]; try contradiction.
    constructor. apply shaped_undefined.
  - destruct (H !! l') as [[es'|m']|]; try contradiction.
    constructor. apply (shaped_member n). apply Hs.
Qed.

Lemma shaped_has_in (a a' : value) (k : string) :
  shaped a a' -> has_in H k a' = has_in h k a.
Proof.
  intros [n Hs].
  destruct n as [|n]; destruct a as [| | | | |l]; simpl in Hs; try contradiction;
    try (rewrite Hs; reflexivity).
  destruct a' as [| | | | |l']; try contradiction.
  simpl. destruct (h !! l) as [[es|m]|]; [| |contradiction].
  - destruct (H !! l') as [[es'|m']|]; try contradiction. reflexivity.
  - destruct (H !! l') as [[es'|m']|]; try contradiction.
    f_equal. specialize (Hs k).
    destruct Hs as [x y _|]; [|reflexivity].
    rewrite !bool_decide_eq_true_2 by eauto. reflexivity.
Qed.

(** The guard of the callback only looks at the structure of a field. *)
Lemma shaped_guard (field nf : value) :
  shaped field nf -> has_roll_formula H nf = has_roll_formula h field.
Proof.
  intros Hs. unfold has_roll_formula.
  destruct (shaped_index field nf 1 Hs) as [a a' Ha|]; [|reflexivity].
  simpl. rewrite (shaped_truthy a a' Ha). destruct (truthy a); [|reflexivity].
  rewrite (shaped_has_in a a' "formula" Ha).
  destruct (has_in h "formula" a) as [[|]|]; try reflexivity. simpl.
  destruct (shaped_get a a' "formula" Ha) as [f f' Hf|]; [|reflexivity].
  simpl. f_equal. apply shaped_truthy. unfold get_opt.
  destruct (shaped_get f f' "formula" Hf) as [x x' Hx|]; [exact Hx|apply shaped_undefined].
Qed.

End Shaped.

(** A serialized field does not pass the guard. *)
Lemma serialized_guard (fuel : nat) (h h' : heap) (field nf : value) :
  field_ok fuel h field = true ->
  serialized fuel h h' field nf ->
  has_roll_formula h' nf = Some false.
Proof.
  intros Hok Hser. apply field_ok_inv in Hok as [_ [Hg|(Hg & x & Hx & _ & Hprim)]];
    unfold serialized in Hser; rewrite Hg in Hser.
  - rewrite <- Hg. apply shaped_guard. exists fuel. exact Hser.
  - destruct Hser as (la & mo & lt & m & x' & _ & _ & Htarget & Hlt & _ & Hin & _).
    assert (x' = x) as -> by congruence.
    unfold has_roll_formula. rewrite Htarget. simpl. rewrite Hlt. simpl.
    rewrite lookup_insert_eq. rewrite bool_decide_eq_true_2 by eauto. simpl.
    f_equal. destruct x as [| | | | |l]; try reflexivity.
    specialize (Hprim (S l)). simpl in Hprim. lia.
Qed.

(** On fields as [field_ok] describes them (nested no deeper than the
    copy goes, with a second element that is an object whenever it is
    truthy, and with a roll formula that, when the guard finds one, is not
    itself an object) [_getFlags] returns, and none of the fields of the
    flags passes the guard of the callback: serializing them once more would
    flatten nothing.  A flattened field fails the guard because the formula
    now in place is not an object; any other field because its copy has its
    structure.  The condition on the roll formula is needed: an object put
    in place of its parent can pass the guard again. *)
Theorem getFlags_fields_are_flat {W} (hd : handler call W) (w : W) (fuel : nat) (h : heap)
    (q : QuickRoll) (fs : list value) :
  array_elems h (Card.fields q) = Some fs ->
  forallb (field_ok fuel h) fs = true ->
  exists h' fl w' nfs,
    run hd (_getFlags fuel h q) w = (Some (h', fl), w', [Ev GetVersion (fl_version fl)]) /\
    array_elems h' (fl_fields fl) = Some nfs /\
    Forall (fun nf => has_roll_formula h' nf = Some false) nfs.
Proof.
  intros Harr Hok.
  destruct (map_fields_spec fuel h fs Hok h (heap_extends_refl h))
    as (ext & nfs & Hmap & _ & _ & Hser).
  unfold _getFlags. rewrite Harr. cbn [lift bind]. rewrite Hmap. cbn [lift bind alloc].
  simpl run. destruct (hd value GetVersion w) as [v w1] eqn:Hv.
  eexists _, (mkFlags v (actorId q) (itemId q) (tokenId q) (isCrit q) (properties q)
                (Card.params q) (VRef (length (h ++ ext))) (VBool true)), w1, nfs.
  split; [reflexivity|]. cbn [fl_fields]. split.
  - unfold array_elems. rewrite lookup_app_r by lia. rewrite Nat.sub_diag. reflexivity.
  - apply Forall_forall. intros nf Hnf.
    apply list_elem_of_lookup in Hnf as [i Hi].
    destruct (Forall2_lookup_r _ _ _ _ _ Hser Hi) as (field & Hfi & Hs).
    apply (serialized_guard fuel h _ field nf).
    + rewrite forallb_forall in Hok. apply Hok.
      apply list_elem_of_In. apply list_elem_of_lookup. eauto.
    + eapply serialized_extends; [apply heap_extends_app|exact Hs].
Qed.

Lemma getFlags_fields_are_flat_witness :
  array_elems scenario_heap (Card.fields scenario_roll) = Some [VRef 1; VRef 4] /\
  forallb (field_ok 3 scenario_heap) [VRef 1; VRef 4] = true /\
  exists h' fl w' nfs,
    run plain_host (_getFlags 3 scenario_heap scenario_roll) tt
      = (Some (h', fl), w', [Ev GetVersion (fl_version fl)]) /\
    array_elems h' (fl_fields fl) = Some nfs /\
    Forall (fun nf => has_roll_formula h' nf = Some false) nfs.
Proof.
  split; [reflexivity|]. split; [vm_compute; reflexivity|].
  apply (getFlags_fields_are_flat plain_host tt 3 scenario_heap scenario_roll
           [VRef 1; VRef 4]).
  - reflexivity.
  - vm_compute; reflexivity.
Defined.

(** The fields [[ ["damage", { formula: { formula: { formula: "2d6" } } }] ]]
    at location 4: the roll formula is an object with a formula of its
    own. *)
Definition nested_formula_store : heap :=
  [ OPlain {[ "formula" := VString "2d6" ]};
    OPlain {[ "formula" := VRef 0 ]};
    OPlain {[ "formula" := VRef 1 ]};
    OArray [VString "damage"; VRef 2];
    OArray [VRef 3] ].

(** On it the serialized field, at location 8, passes the guard again. *)
Example nested_formula_passes_again :
  match run plain_host (_getFlags 4 nested_formula_store (roll_of_fields (VRef 4))) tt with
  | (Some (h', fl), _, _) =>
      (array_elems h' (fl_fields fl), has_roll_formula h' (VRef 8))
  | _ => (None, None)
  end = (Some [VRef 8], Some true).
Proof. vm_compute. reflexivity. Qed.

(** *** Fields that cannot be serialized *)

(** The guard of the callback throws on the field: the field is
    [undefined] or [null], or its second element is a truthy value that is
    not an object, on which [in] is a type error. *)
Definition guard_throws (h : heap) (field : value) : bool :=
  match get_index h field 1 with
  | None => true
  | Some (VRef _) => false
  | Some a => truthy a
  end.

Lemma guard_throws_extends (h H : heap) (field : value) :
  heap_extends h H -> guard_throws h field = true -> has_roll_formula H field = None.
Proof.
  intros Hext. unfold guard_throws, has_roll_formula.
  destruct field as [| | | |s|l]; simpl; try reflexivity; try discriminate.
  - destruct (one_char s 1) as [| | | | |l]; simpl; try discriminate;
      intros ->; reflexivity.
  - destruct (h !! l) as [o|] eqn:Hl; [|discriminate].
    rewrite (Hext _ _ Hl).
    destruct o as [es|m].
    + destruct (default VUndefined (es !! 1%nat)) as [| | | | |la]; simpl; try discriminate;
        intros ->; reflexivity.
    + destruct (default VUndefined (m !! pretty 1%nat)) as [| | | | |la]; simpl;
        try discriminate; intros ->; reflexivity.
Qed.

Lemma map_fields_throws (fuel : nat) (h : heap) (fs : list value) :
  Exists (fun field => guard_throws h field = true) fs ->
  forall H, heap_extends h H -> map_fields fuel H fs = None.
Proof.
  induction 1 as [f fs Hbad|f fs _ IH]; intros H Hext; simpl.
  - unfold flatten_field.
    destruct (deepClone fuel H f) as [[H1 nf]|] eqn:Hc; [|reflexivity]. simpl.
    destruct (deepClone_grows _ _ _ _ _ Hc) as (ext & -> & _).
    rewrite (guard_throws_extends h (H ++ ext) f); [reflexivity| |exact Hbad].
    eapply heap_extends_trans; [exact Hext|apply heap_extends_app].
  - destruct (flatten_field fuel H f) as [[H1 nf]|] eqn:Hf; [|reflexivity]. simpl.
    rewrite IH; [reflexivity|].
    eapply heap_extends_trans; [exact Hext|].
    eapply flatten_field_frame. exact Hf.
Qed.

(** [_getFlags] throws, before it asks for the version, when the fields
    are not an array (a string of fields, which [_render] would iterate, has
    no [map]), or when the guard throws on one of them: a field that is
    [undefined] or [null], or one whose second element is a truthy
    primitive, such as the text of [["header", "Fire Bolt"]]. *)
Theorem getFlags_throws {W} (hd : handler call W) (w : W) (fuel : nat) (h : heap)
    (q : QuickRoll) :
  array_elems h (Card.fields q) = None \/
  (exists fs, array_elems h (Card.fields q) = Some fs /\
              Exists (fun field => guard_throws h field = true) fs) ->
  run hd (_getFlags fuel h q) w = (None, w, []).
Proof.
  intros [Harr|(fs & Harr & Hbad)]; unfold _getFlags; rewrite Harr; [reflexivity|].
  cbn [lift bind]. rewrite (map_fields_throws fuel h fs Hbad h (heap_extends_refl h)).
  reflexivity.
Qed.

(** The fields [[ ["header", "Fire Bolt"] ]] at location 1. *)
Definition text_store : heap :=
  [ OArray [VString "header"; VString "Fire Bolt"]; OArray [VRef 0] ].

Definition text_roll : QuickRoll :=
  mkQuickRoll (-1) VUndefined VUndefined VUndefined VUndefined VUndefined
    VUndefined (VRef 1) [] [] (VBool false) (VBool false) false.

Lemma getFlags_throws_witness :
  (array_elems text_store (Card.fields text_roll) = None \/
   exists fs, array_elems text_store (Card.fields text_roll) = Some fs /\
              Exists (fun field => guard_throws text_store field = true) fs) /\
  run plain_host (_getFlags 3 text_store text_roll) tt = (None, tt, []).
Proof.
  assert (Hbad : array_elems text_store (Card.fields text_roll) = None \/
            exists fs, array_elems text_store (Card.fields text_roll) = Some fs /\
                       Exists (fun field => guard_throws text_store field = true) fs).
  { right. exists [VRef 0]. split; [reflexivity|]. constructor. reflexivity. }
  split; [exact Hbad|].
  apply (getFlags_throws plain_host tt 3 text_store text_roll Hbad).
Defined.

End CardMore.
